(** * page_bench05_cross_cpu: cross-CPU page moving benchmark

    Shallow embedding of kernel/mm/bench/page_bench05_cross_cpu.c.

    Pointers are machine addresses ([Z], [NULL] is 0).  The kernel services
    the module calls (page allocator, clock, kthread scheduler, log) are
    gathered in an explicit [world] that every function threads through:
    allocation results and scheduling decisions are read from oracles held
    in the world, and every externally visible action is appended to a
    trace.  *)

From Stdlib Require Import ZArith List Lia Bool.
From stdpp Require Import base list.

Local Open Scope Z_scope.

(** ** Pointers and error numbers *)

Definition ptr := Z.
Definition NULL : ptr := 0.
Definition ENOMEM : Z := 12.
Definition ENOSPC : Z := 28.

(** ** linux/ptr_ring.h *)

Module PtrRing.

(** Modelled from the spec: [struct ptr_ring] and its operations live in
    linux/ptr_ring.h, which is not among the sources.  Spec 3 and 4.1: a
    fixed array of [capacity] payload slots, a cursor for the next slot to
    consume and one for the next slot to produce into.  The callers in
    page_bench05_cross_cpu.c fix the rest of the interface: slots hold
    pointers, an unoccupied slot is a NULL slot (a consume that returns
    NULL is reported as "deq emptyq"), and a produce that fails returns a
    negative number.  The two spinlocks and the cache-line placement are
    not represented. *)
Record ptr_ring := mk_ptr_ring {
  r_producer : Z;          (* int producer: next slot to produce into *)
  r_consumer : Z;          (* int consumer: next slot to consume *)
  r_size : Z;              (* int size: number of slots *)
  r_queue : list ptr       (* void **queue *)
}.

(** Modelled from the spec: reading slot [i] of the array; an index
    outside the array reads as NULL. *)
Definition slot (r : ptr_ring) (i : Z) : ptr :=
  default NULL (r_queue r !! Z.to_nat i).

(** Modelled from the spec: a cursor "only moves forward (modulo
    capacity)": [cursor + 1], wrapped to 0 at the end of the array. *)
Definition advance (r : ptr_ring) (i : Z) : Z :=
  if r_size r <=? i + 1 then 0 else i + 1.

(** Modelled from the spec: a [kzalloc]ed [struct ptr_ring], before
    [ptr_ring_init] has run or after it has failed. *)
Definition zeroed : ptr_ring := mk_ptr_ring 0 0 0 [].

(** Modelled from the spec: [ptr_ring_init] given the outcome [ok] of the
    allocation of the slot array.  A negative [size] is, as an unsigned
    element count, beyond what the allocator serves.  Returns the ring and
    0, or the ring untouched and -ENOMEM. *)
Definition ptr_ring_init (r : ptr_ring) (size : Z) (ok : bool) : ptr_ring * Z :=
  if (0 <=? size) && ok
  then (mk_ptr_ring 0 0 size (replicate (Z.to_nat size) NULL), 0)
  else (r, - ENOMEM).

(** Modelled from the spec: "fails if the slot at tail is occupied (queue
    full); otherwise stores the payload and advances tail". *)
Definition ptr_ring_produce (r : ptr_ring) (p : ptr) : ptr_ring * Z :=
  if (r_size r =? 0) || negb (slot r (r_producer r) =? NULL)
  then (r, - ENOSPC)
  else (mk_ptr_ring (advance r (r_producer r)) (r_consumer r) (r_size r)
          (<[Z.to_nat (r_producer r) := p]> (r_queue r)), 0).

(** Modelled from the spec: "fails if the slot at head is unoccupied
    (queue empty); otherwise clears and returns the payload, advances
    head".  Failure is the NULL result. *)
Definition ptr_ring_consume (r : ptr_ring) : ptr_ring * ptr :=
  let p := if r_size r =? 0 then NULL else slot r (r_consumer r) in
  if p =? NULL then (r, NULL)
  else (mk_ptr_ring (r_producer r) (advance r (r_consumer r)) (r_size r)
          (<[Z.to_nat (r_consumer r) := NULL]> (r_queue r)), p).

(** Modelled from the spec: the draining pass of [ptr_ring_cleanup],
    which consumes and releases until the queue reads empty.  Each round
    clears one slot, so [length (r_queue r)] rounds of fuel cover every
    run (see [drain_fuel_enough]). *)
Fixpoint drain {W : Type} (fuel : nat) (destroy : ptr -> W -> W)
    (r : ptr_ring) (w : W) : ptr_ring * W :=
  match fuel with
  | O => (r, w)
  | S fuel' =>
      let '(r', p) := ptr_ring_consume r in
      if p =? NULL then (r, w) else drain fuel' destroy r' (destroy p w)
  end.

(** Modelled from the spec: [ptr_ring_cleanup(r, destroy)]: "invokes
    release on every still-occupied slot between head and tail, exactly
    once each"; with a NULL [destroy] nothing is drained.  [free] stands
    for the [kfree] of the slot array. *)
Definition ptr_ring_cleanup {W : Type} (r : ptr_ring)
    (destroy : option (ptr -> W -> W)) (free : W -> W) (w : W) : ptr_ring * W :=
  let '(r', w') :=
    match destroy with
    | Some d => drain (length (r_queue r)) d r w
    | None => (r, w)
    end in
  (r', free w').

(** Slots that hold a payload. *)
Definition occupied (r : ptr_ring) : nat :=
  length (List.filter (fun p => negb (p =? NULL)) (r_queue r)).

(** *** The queue a ring stands for

    [rep r l]: the ring [r] holds the payloads [l], oldest first: walking
    [r_size r] slots from the consumer cursor reads [l] and then NULLs, and
    the producer cursor sits right after [l]. *)
Definition rep (r : ptr_ring) (l : list ptr) : Prop :=
  0 <= r_size r /\
  length (r_queue r) = Z.to_nat (r_size r) /\
  (0 < r_size r -> 0 <= r_consumer r < r_size r) /\
  (r_size r = 0 -> r_consumer r = 0 /\ r_producer r = 0) /\
  Z.of_nat (length l) <= r_size r /\
  Forall (fun p => p <> NULL) l /\
  r_producer r = (r_consumer r + Z.of_nat (length l)) mod r_size r /\
  forall k, 0 <= k < r_size r ->
    slot r ((r_consumer r + k) mod r_size r) = nth (Z.to_nat k) l NULL.

End PtrRing.

Import PtrRing.

(** ** linux/time_bench.h: the timing record *)

(** Modelled from the spec: [struct time_bench_record] (time_bench.h is
    not among the sources).  Spec 3, BenchRecord: requested loop count,
    completed loop count, step (used here as the role tag), start and stop
    timestamps.  A timestamp that was never taken is [None]. *)
Record time_bench_record := mk_record {
  rec_loops : Z;               (* uint32_t loops: requested *)
  rec_step : Z;                (* uint32_t step *)
  rec_invoked_cnt : Z;         (* uint64_t invoked_cnt: completed *)
  rec_start : option Z;
  rec_stop : option Z
}.

Definition set_step (rec : time_bench_record) (s : Z) : time_bench_record :=
  mk_record (rec_loops rec) s (rec_invoked_cnt rec) (rec_start rec) (rec_stop rec).

(** ** The world outside the module *)

Inductive message :=
| Need_queue_ptr                         (* "Need queue ptr as input" *)
| Loop_cnt_too_big                       (* "Loop cnt too big will overflow 32-bit" *)
| Enq_fullq (cpu i : Z)                  (* "WARN: enq fullq(CPU:%d) i:%d" *)
| Deq_emptyq (cpu i : Z)                 (* "WARN: deq emptyq (CPU:%d) i:%d" *)
| Err_creating_queue (q_size : Z)        (* "err creating queue size:%d" *)
| Alloc_cannot_prefill (prefill q_size : Z)
| Queue_cannot_prefill (prefill q_size : Z)
| Invoked_smaller (cnt loops : Z).       (* WARNING: invoked count smaller than loops *)

Inductive description :=
| single_cpu_page_alloc_put
| baseline_ptr_ring_cross_cpu
| cross_cpu_page_alloc_put.

Inductive event :=
| Ev_pr_err (m : message)
| Ev_alloc_pages (p : ptr)               (* alloc_pages returned p *)
| Ev_put_page (p : ptr)
| Ev_kzalloc_queue                       (* kzalloc(sizeof(struct ptr_ring)) *)
| Ev_kfree_queue
| Ev_kfree_slots                         (* kfree(r->queue) in ptr_ring_cleanup *)
| Ev_kthread_run (cpu : Z)               (* a worker is spawned on cpu *)
| Ev_stats (d : description) (cpu : Z) (rec : time_bench_record).

(** The trace is kept newest event first. *)
Record world := mk_world {
  w_trace : list event;
  w_alloc : nat -> ptr;        (* result of the n-th call of alloc_pages *)
  w_nalloc : nat;              (* calls of alloc_pages so far *)
  w_kmalloc_ok : Z -> bool;    (* can a slot array of that size be had *)
  w_clock : Z;                 (* monotonic nanoseconds *)
  w_sched : nat -> nat;        (* scheduler: whose turn the n-th step is *)
  w_tick : nat                 (* scheduling steps so far *)
}.

Definition emit (e : event) (w : world) : world :=
  mk_world (e :: w_trace w) (w_alloc w) (w_nalloc w) (w_kmalloc_ok w)
           (w_clock w) (w_sched w) (w_tick w).

Definition pr_err (m : message) : world -> world := emit (Ev_pr_err m).

(** [alloc_pages(gfp_mask, page_order)]: the mask and the order select what
    the allocator is asked for; its answer, NULL on failure, is the
    oracle's. *)
Definition alloc_pages (w : world) : ptr * world :=
  let p := w_alloc w (w_nalloc w) in
  (p, mk_world (Ev_alloc_pages p :: w_trace w) (w_alloc w) (S (w_nalloc w))
        (w_kmalloc_ok w) (w_clock w) (w_sched w) (w_tick w)).

Definition put_page (p : ptr) : world -> world := emit (Ev_put_page p).

Definition read_clock (w : world) : Z * world :=
  (w_clock w, mk_world (w_trace w) (w_alloc w) (w_nalloc w) (w_kmalloc_ok w)
                (w_clock w + 1) (w_sched w) (w_tick w)).

Definition next_pick (w : world) : nat * world :=
  (w_sched w (w_tick w),
   mk_world (w_trace w) (w_alloc w) (w_nalloc w) (w_kmalloc_ok w)
     (w_clock w) (w_sched w) (S (w_tick w))).

(** Modelled from the spec: [time_bench_start] (time_bench.h): "records
    start timestamp". *)
Definition time_bench_start (rec : time_bench_record) (w : world)
    : time_bench_record * world :=
  let '(t, w') := read_clock w in
  (mk_record (rec_loops rec) (rec_step rec) (rec_invoked_cnt rec) (Some t)
     (rec_stop rec), w').

(** Modelled from the spec: [time_bench_stop(rec, invoked_cnt)]
    (time_bench.h): records the stop timestamp and the completed count. *)
Definition time_bench_stop (rec : time_bench_record) (invoked_cnt : Z) (w : world)
    : time_bench_record * world :=
  let '(t, w') := read_clock w in
  (mk_record (rec_loops rec) (rec_step rec) invoked_cnt (rec_start rec)
     (Some t), w').

(** ** Integer conversions *)

(** Conversion to [int], as at [return loops_cnt]. *)
Definition to_int (z : Z) : Z := (z + 2 ^ 31) mod 2 ^ 32 - 2 ^ 31.
(** Conversion to [uint64_t]. *)
Definition to_u64 (z : Z) : Z := z mod 2 ^ 64.

(** ** Module parameters and the run_flags gate *)

(** [enum benchmark_bit] *)
Definition bit_run_bench_order0_compare : Z := 0.
Definition bit_run_bench_ptr_ring_baseline : Z := 1.
Definition bit_run_bench_cross_cpu_page_alloc_put : Z := 2.

(** [#define bit(b) (1 << (b))] *)
Definition bit (b : Z) : Z := Z.shiftl 1 b.

(** The test of [run_or_return(b)]: [run_flags & bit(b)] is nonzero. *)
Definition run_enabled (run_flags b : Z) : bool :=
  negb (Z.land run_flags (bit b) =? 0).

(** ** The single-CPU comparison loop *)

(** The loop of [time_single_cpu_page_alloc_put] with [n] rounds left;
    [None] is the [return 0] on a failed allocation.  The counter [i] is
    kept unbounded here and narrowed to [int] where it is used. *)
Fixpoint single_cpu_loop (n : nat) (i : Z) (w : world) : option Z * world :=
  match n with
  | O => (Some i, w)
  | S n' =>
      let '(my_page, w1) := alloc_pages w in
      if my_page =? NULL then (None, w1)
      else single_cpu_loop n' (i + 1) (put_page my_page w1)
  end.

Definition time_single_cpu_page_alloc_put (rec : time_bench_record) (w : world)
    : Z * time_bench_record * world :=
  let '(rec1, w1) := time_bench_start rec w in
  match single_cpu_loop (Z.to_nat (rec_loops rec1)) 0 w1 with
  | (None, w2) => (0, rec1, w2)
  | (Some i, w2) =>
      let '(rec2, w3) := time_bench_stop rec1 (to_u64 (to_int i)) w2 in
      (to_int i, rec2, w3)
  end.

(** ** The cross-CPU workers

    A worker function is presented by its steps, so that the runner can
    interleave two of them on the shared queue: one step is the code from
    entry to the loop head, one pass through the loop (test and body), or
    nothing once the function has returned.  Each pass holds at most one
    queue operation, which runs under that side's lock. *)

Inductive pc :=
| Entry                          (* about to be called *)
| Loop (i : Z) (loops_cnt : Z)   (* at the loop head *)
| Returned (ret : Z).

(** [data] is the [void *data] argument together with the queue it points
    to; [None] is the NULL pointer. *)
Definition data_t := option ptr_ring.

(** [smp_processor_id() % 2 == 0] *)
Definition enq_CPU (cpu : Z) : bool := Z.rem cpu 2 =? 0.

Definition b2z (b : bool) : Z := if b then 1 else 0.

(** The guard [((uint64_t)rec->loops * 2) >= ((1ULL<<32)-1)]. *)
Definition loops_too_big (rec : time_bench_record) : bool :=
  2 ^ 32 - 1 <=? to_u64 (rec_loops rec * 2).

(** Lines 98-124 and 164-186: from entry to the loop head.  The two
    workers differ here only in locals that the loop sets itself. *)
Definition worker_entry (cpu : Z) (rec : time_bench_record) (data : data_t)
    (w : world) : pc * time_bench_record * world :=
  let rec1 := set_step rec (b2z (enq_CPU cpu)) in
  match data with
  | None => (Returned 0, rec1, pr_err Need_queue_ptr w)
  | Some _ =>
      if loops_too_big rec1 then (Returned 0, rec1, pr_err Loop_cnt_too_big w)
      else
        let '(rec2, w2) := time_bench_start rec1 w in
        (Loop 0 0, rec2, w2)
  end.

(** [finish_early:] and the normal loop exit alike:
    [time_bench_stop(rec, loops_cnt); return loops_cnt;] *)
Definition worker_finish (rec : time_bench_record) (loops_cnt : Z) (w : world)
    : pc * time_bench_record * world :=
  let '(rec', w') := time_bench_stop rec loops_cnt w in
  (Returned (to_int loops_cnt), rec', w').

(** The fake page of the baseline worker: [(struct page * ) 43]. *)
Definition fake_page : ptr := 43.

(** One pass of the loop of [time_cross_cpu_ptr_ring] (lines 126-146).
    After the guard [i] and [loops_cnt] stay below 2^31. *)
Definition ptr_ring_pass (cpu : Z) (rec : time_bench_record) (queue : ptr_ring)
    (i loops_cnt : Z) (w : world) : pc * time_bench_record * ptr_ring * world :=
  if i <? rec_loops rec then
    if enq_CPU cpu then
      let '(queue', rc) := ptr_ring_produce queue fake_page in
      if rc <? 0 then
        let '(p, r, w') := worker_finish rec loops_cnt (pr_err (Enq_fullq cpu i) w) in
        (p, r, queue', w')
      else (Loop (i + 1) (loops_cnt + 1), rec, queue', w)
    else
      let '(queue', npage) := ptr_ring_consume queue in
      if npage =? NULL then
        let '(p, r, w') := worker_finish rec loops_cnt (pr_err (Deq_emptyq cpu i) w) in
        (p, r, queue', w')
      else (Loop (i + 1) (loops_cnt + 1), rec, queue', w)
  else
    let '(p, r, w') := worker_finish rec loops_cnt w in (p, r, queue, w').

(** One pass of the loop of [time_cross_cpu_page_alloc_put] (lines
    188-210). *)
Definition page_alloc_put_pass (cpu : Z) (rec : time_bench_record)
    (queue : ptr_ring) (i loops_cnt : Z) (w : world)
    : pc * time_bench_record * ptr_ring * world :=
  if i <? rec_loops rec then
    if enq_CPU cpu then
      let '(page, w1) := alloc_pages w in
      let '(queue', rc) := ptr_ring_produce queue page in
      if rc <? 0 then
        let '(p, r, w') := worker_finish rec loops_cnt (pr_err (Enq_fullq cpu i) w1) in
        (p, r, queue', w')
      else (Loop (i + 1) (loops_cnt + 1), rec, queue', w1)
    else
      let '(queue', npage) := ptr_ring_consume queue in
      if npage =? NULL then
        let '(p, r, w') := worker_finish rec loops_cnt (pr_err (Deq_emptyq cpu i) w) in
        (p, r, queue', w')
      else (Loop (i + 1) (loops_cnt + 1), rec, queue', put_page npage w)
  else
    let '(p, r, w') := worker_finish rec loops_cnt w in (p, r, queue, w').

(** The type of one pass of a worker's loop. *)
Definition pass_t :=
  Z -> time_bench_record -> ptr_ring -> Z -> Z -> world ->
  pc * time_bench_record * ptr_ring * world.

(** A worker in flight: the CPU it is pinned to, where it stands, and its
    record. *)
Record task := mk_task {
  t_cpu : Z;
  t_pc : pc;
  t_rec : time_bench_record
}.

(** One step of a worker.  A NULL [data] never meets the loop: the entry
    code returns first. *)
Definition task_step (pass : pass_t) (t : task) (data : data_t) (w : world)
    : task * data_t * world :=
  match t_pc t, data with
  | Entry, _ =>
      let '(p, r, w') := worker_entry (t_cpu t) (t_rec t) data w in
      (mk_task (t_cpu t) p r, data, w')
  | Loop i loops_cnt, Some queue =>
      let '(p, r, queue', w') := pass (t_cpu t) (t_rec t) queue i loops_cnt w in
      (mk_task (t_cpu t) p r, Some queue', w')
  | Loop _ _, None => (t, data, w)
  | Returned _, _ => (t, data, w)
  end.

(** A worker run on its own from call to return. *)
Fixpoint run_task (fuel : nat) (pass : pass_t) (t : task) (data : data_t)
    (w : world) : task * data_t * world :=
  match fuel with
  | O => (t, data, w)
  | S fuel' =>
      match t_pc t with
      | Returned _ => (t, data, w)
      | _ => let '(t', data', w') := task_step pass t data w in
             run_task fuel' pass t' data' w'
      end
  end.

(** Steps that take a worker from entry to its return: the entry alone
    when the guard on the loop count trips, else the entry, one per loop
    pass, and the pass that leaves the loop. *)
Definition steps_of (rec : time_bench_record) : nat :=
  if loops_too_big rec then 1%nat else S (S (Z.to_nat (rec_loops rec))).

Definition ret_of (t : task) : Z :=
  match t_pc t with Returned ret => ret | _ => 0 end.

(** The worker functions as called on CPU [cpu]: the returned [int], the
    record, the queue behind [data], the world. *)
Definition run_worker (pass : pass_t) (cpu : Z) (rec : time_bench_record)
    (data : data_t) (w : world) : Z * time_bench_record * data_t * world :=
  let '(t, data', w') :=
    run_task (steps_of rec) pass (mk_task cpu Entry rec) data w in
  (ret_of t, t_rec t, data', w').

Definition time_cross_cpu_ptr_ring := run_worker ptr_ring_pass.
Definition time_cross_cpu_page_alloc_put := run_worker page_alloc_put_pass.

(** The two worker functions handed to [run_parallel]. *)
Inductive bench_func :=
| Time_cross_cpu_ptr_ring
| Time_cross_cpu_page_alloc_put.

Definition pass_of (func : bench_func) : pass_t :=
  match func with
  | Time_cross_cpu_ptr_ring => ptr_ring_pass
  | Time_cross_cpu_page_alloc_put => page_alloc_put_pass
  end.

(** ** linux/time_bench.h: running and reporting *)

(** Modelled from the spec: the report of one record (time_bench.c is not
    among the sources).  Spec 6: one line per scenario and role, and "a
    warning line is emitted whenever completed count < requested count". *)
Definition print_stats (d : description) (cpu : Z) (rec : time_bench_record)
    (w : world) : world :=
  let w1 := if rec_invoked_cnt rec <? rec_loops rec
            then pr_err (Invoked_smaller (rec_invoked_cnt rec) (rec_loops rec)) w
            else w in
  emit (Ev_stats d cpu rec) w1.

(** Modelled from the spec: [time_bench_loop] (time_bench.c): sets up a
    record for [loops] rounds, runs the timed function on it and reports
    the record. *)
Definition time_bench_loop (loops step : Z) (d : description)
    (func : time_bench_record -> world -> Z * time_bench_record * world)
    (w : world) : world :=
  let '(_, rec, w1) := func (mk_record loops step 0 None None) w in
  print_stats d 0 rec w1.

Definition finished (t : task) : bool :=
  match t_pc t with Returned _ => true | _ => false end.

Definition unfinished (ts : list task) : nat :=
  length (List.filter (fun t => negb (finished t)) ts).

(** Modelled from the spec: spawning (spec 4.2: "spawns exactly one worker
    task per CPU in the set, pins each task's execution to its designated
    logical core"); each worker gets a zeroed record with the requested
    loop count and step. *)
Fixpoint spawn (cpumask : list Z) (loops step : Z) (w : world)
    : list task * world :=
  match cpumask with
  | [] => ([], w)
  | cpu :: rest =>
      let '(ts, w') := spawn rest loops step (emit (Ev_kthread_run cpu) w) in
      (mk_task cpu Entry (mk_record loops step 0 None None) :: ts, w')
  end.

(** Modelled from the spec: one scheduling step of the concurrent phase:
    the [k]-th worker that has not returned takes one step. *)
Fixpoint step_pick (k : nat) (pass : pass_t) (ts : list task) (data : data_t)
    (w : world) : list task * data_t * world :=
  match ts with
  | [] => ([], data, w)
  | t :: ts' =>
      if finished t then
        let '(ts'', data', w') := step_pick k pass ts' data w in
        (t :: ts'', data', w')
      else
        match k with
        | O => let '(t', data', w') := task_step pass t data w in
               (t' :: ts', data', w')
        | S k' => let '(ts'', data', w') := step_pick k' pass ts' data w in
                  (t :: ts'', data', w')
        end
  end.

(** Modelled from the spec: the concurrent phase (spec 4.2 and 5): after
    the start barrier the workers run in parallel until each has returned.
    Their steps are interleaved in the order the scheduler oracle
    dictates. *)
Fixpoint run_tasks (fuel : nat) (pass : pass_t) (ts : list task) (data : data_t)
    (w : world) : list task * data_t * world :=
  match fuel with
  | O => (ts, data, w)
  | S fuel' =>
      match unfinished ts with
      | O => (ts, data, w)
      | S n =>
          let '(pick, w1) := next_pick w in
          let '(ts', data', w') := step_pick (pick mod S n)%nat pass ts data w1 in
          run_tasks fuel' pass ts' data' w'
      end
  end.

(** Steps left to a worker before it has returned. *)
Definition remaining (t : task) : nat :=
  match t_pc t with
  | Entry => steps_of (t_rec t)
  | Loop i _ => S (Z.to_nat (rec_loops (t_rec t) - i))
  | Returned _ => O
  end.

Definition total_remaining (ts : list task) : nat :=
  foldr (fun t n => (remaining t + n)%nat) O ts.

(** Modelled from the spec: [time_bench_run_concurrent] (time_bench.c):
    spawn, run to completion, join (spec 4.2); the records are those the
    workers leave.  The fuel covers every schedule (see
    [run_tasks_all_finished]). *)
Definition time_bench_run_concurrent (loops step : Z) (data : data_t)
    (cpumask : list Z) (pass : pass_t) (w : world) : list task * data_t * world :=
  let '(ts, w1) := spawn cpumask loops step w in
  run_tasks (total_remaining ts) pass ts data w1.

(** Modelled from the spec: [time_bench_print_stats_cpumask]: one report
    per CPU of the mask. *)
Definition time_bench_print_stats_cpumask (d : description) (ts : list task)
    (w : world) : world :=
  foldl (fun w t => print_stats d (t_cpu t) (t_rec t) w) w ts.

(** ** Scenarios *)

(** [run_parallel]; the per-CPU records are taken to be allocated. *)
Definition run_parallel (d : description) (loops : Z) (cpumask : list Z)
    (step : Z) (data : data_t) (pass : pass_t) (w : world) : data_t * world :=
  let '(cpu_tasks, data', w1) :=
    time_bench_run_concurrent loops step data cpumask pass w in
  (data', time_bench_print_stats_cpumask d cpu_tasks w1).

(** The fake pointer of a sentinel prefill: [(struct page * ) 42]. *)
Definition fake_ptr_page : ptr := 42.

(** The prefill loop of [init_queue] with [n] rounds left. *)
Fixpoint prefill_loop (n : nat) (queue : ptr_ring) (q_size prefill : Z)
    (fake_ptr : bool) (w : world) : bool * ptr_ring * world :=
  match n with
  | O => (true, queue, w)
  | S n' =>
      let '(page, w1) := if fake_ptr then (fake_ptr_page, w) else alloc_pages w in
      if negb fake_ptr && (page =? NULL) then
        (false, queue, pr_err (Alloc_cannot_prefill prefill q_size) w1)
      else
        let '(queue', rc) := ptr_ring_produce queue page in
        if rc <? 0 then
          (false, queue', pr_err (Queue_cannot_prefill prefill q_size) w1)
        else prefill_loop n' queue' q_size prefill fake_ptr w1
  end.

Definition init_queue (queue : ptr_ring) (q_size prefill : Z) (fake_ptr : bool)
    (w : world) : bool * ptr_ring * world :=
  let '(queue1, result) := ptr_ring_init queue q_size (w_kmalloc_ok w q_size) in
  if result <? 0 then (false, queue1, pr_err (Err_creating_queue q_size) w)
  else prefill_loop (Z.to_nat prefill) queue1 q_size prefill fake_ptr w.

(** [cpumask_clear; cpumask_set_cpu(0); cpumask_set_cpu(1)] *)
Definition cpumask01 : list Z := [0; 1].

Definition destructor_put_page (p : ptr) (w : world) : world := put_page p w.

(** A cross-CPU scenario past [run_or_return] and down to the label
    [fail:]: the queue is allocated ([kzalloc] is taken to succeed) and
    initialised, and if that went well the workers are run.  Yields the
    queue as the label finds it. *)
Definition cross_cpu_run (d : description) (func : bench_func) (fake_ptr : bool)
    (loops q_size prefill : Z) (w : world) : ptr_ring * world :=
  let w0 := emit Ev_kzalloc_queue w in
  let '(ok, queue, w1) := init_queue zeroed q_size prefill fake_ptr w0 in
  if ok then
    let '(data', w') :=
      run_parallel d loops cpumask01 0 (Some queue) (pass_of func) w1 in
    (default queue data', w')
  else (queue, w1).

(** From the label [fail:] on:
    [ptr_ring_cleanup(queue, destroy); kfree(queue);] *)
Definition cross_cpu_teardown (destroy : option (ptr -> world -> world))
    (queue : ptr_ring) (w : world) : world :=
  let '(_, w') := ptr_ring_cleanup queue destroy (emit Ev_kfree_slots) w in
  emit Ev_kfree_queue w'.

Definition cross_cpu_body (d : description) (func : bench_func) (fake_ptr : bool)
    (destroy : option (ptr -> world -> world))
    (loops q_size prefill : Z) (w : world) : world :=
  let '(queue, w') := cross_cpu_run d func fake_ptr loops q_size prefill w in
  cross_cpu_teardown destroy queue w'.

Section Module_parameters.

Variable run_flags : Z.         (* unsigned long run_flags *)

Definition run_bench_order0_compare (loops : Z) (w : world) : world :=
  if run_enabled run_flags bit_run_bench_order0_compare then
    time_bench_loop loops 0 single_cpu_page_alloc_put
      time_single_cpu_page_alloc_put w
  else w.

Definition run_bench_baseline_ptr_ring_cross_cpu (loops q_size prefill : Z)
    (w : world) : world :=
  if run_enabled run_flags bit_run_bench_ptr_ring_baseline then
    cross_cpu_body baseline_ptr_ring_cross_cpu Time_cross_cpu_ptr_ring
      true None loops q_size prefill w
  else w.

Definition run_bench_cross_cpu_page_alloc_put (loops q_size prefill : Z)
    (w : world) : world :=
  if run_enabled run_flags bit_run_bench_cross_cpu_page_alloc_put then
    cross_cpu_body cross_cpu_page_alloc_put Time_cross_cpu_page_alloc_put
      false (Some destructor_put_page) loops q_size prefill w
  else w.

(** [run_timing_tests] with the module parameter [loops]; the result is
    the returned [int] and the world. *)
Definition run_timing_tests (loops : Z) (w : world) : Z * world :=
  let prefill := 8000 in
  let q_size := 32000 in
  let w1 := run_bench_order0_compare loops w in
  let w2 := run_bench_baseline_ptr_ring_cross_cpu loops q_size prefill w1 in
  let w3 := run_bench_cross_cpu_page_alloc_put loops q_size prefill w2 in
  (0, w3).

End Module_parameters.

(** ** Observations on runs *)

(** One producer and one consumer working on a queue: an interleaving of
    their calls is the list of calls in the order they take effect. *)
Inductive qop :=
| Produce (p : ptr)
| Consume.

(** Runs the calls [ops] on [r]; yields the payloads of the successful
    produces and the results of the successful consumes, each in call
    order, and the final ring. *)
Fixpoint run_ops (ops : list qop) (r : ptr_ring)
    : list ptr * list ptr * ptr_ring :=
  match ops with
  | [] => ([], [], r)
  | Produce p :: ops' =>
      let '(r', rc) := ptr_ring_produce r p in
      let '(produced, consumed, r'') := run_ops ops' r' in
      (if rc <? 0 then produced else p :: produced, consumed, r'')
  | Consume :: ops' =>
      let '(r', p) := ptr_ring_consume r in
      let '(produced, consumed, r'') := run_ops ops' r' in
      (produced, if p =? NULL then consumed else p :: consumed, r'')
  end.

(** The CPUs workers were spawned on, newest first. *)
Fixpoint spawned (tr : list event) : list Z :=
  match tr with
  | [] => []
  | Ev_kthread_run cpu :: tr' => cpu :: spawned tr'
  | _ :: tr' => spawned tr'
  end.

(** The pages handed to [put_page], newest first. *)
Fixpoint released (tr : list event) : list ptr :=
  match tr with
  | [] => []
  | Ev_put_page p :: tr' => p :: released tr'
  | _ :: tr' => released tr'
  end.

(** Kinds of events. *)
Definition is_log (e : event) : Prop :=
  match e with Ev_pr_err _ | Ev_stats _ _ _ => True | _ => False end.

Definition is_log_or_page (e : event) : Prop :=
  match e with
  | Ev_pr_err _ | Ev_stats _ _ _ | Ev_alloc_pages _ | Ev_put_page _ => True
  | _ => False
  end.

Definition is_log_or_alloc (e : event) : Prop :=
  match e with
  | Ev_pr_err _ | Ev_stats _ _ _ | Ev_alloc_pages _ => True
  | _ => False
  end.

Definition no_spawn (e : event) : Prop :=
  match e with Ev_kthread_run _ => False | _ => True end.

Definition no_release (e : event) : Prop :=
  match e with Ev_put_page _ => False | _ => True end.

(** What a worker function may add to the log. *)
Definition worker_event (func : bench_func) : event -> Prop :=
  match func with
  | Time_cross_cpu_ptr_ring => is_log
  | Time_cross_cpu_page_alloc_put => is_log_or_page
  end.

(** [w'] comes after [w]: the log has grown by events of kind [P] and the
    oracles are the same. *)
Definition adds (P : event -> Prop) (w w' : world) : Prop :=
  (exists evs, w_trace w' = evs ++ w_trace w /\ Forall P evs) /\
  (w_alloc w' = w_alloc w) /\
  (w_kmalloc_ok w' = w_kmalloc_ok w) /\
  (w_sched w' = w_sched w).

(** Where a spawned worker can stand.  Past its entry the record carries
    the role of its CPU; in the loop the two counters agree and stay
    within the requested count; a worker that returned either was turned
    away at entry, with no timestamp taken, or has both timestamps and its
    count. *)
Definition task_inv (t : task) : Prop :=
  let rec := t_rec t in
  match t_pc t with
  | Entry =>
      0 <= rec_loops rec < 2 ^ 32 /\ rec_start rec = None /\ rec_stop rec = None
  | Loop i loops_cnt =>
      rec_step rec = b2z (enq_CPU (t_cpu t)) /\
      loops_cnt = i /\ 0 <= i <= rec_loops rec /\ rec_loops rec < 2 ^ 31 /\
      rec_start rec <> None
  | Returned ret =>
      rec_step rec = b2z (enq_CPU (t_cpu t)) /\
      ((ret = 0 /\ rec_start rec = None /\ rec_stop rec = None) \/
       (ret = rec_invoked_cnt rec /\ 0 <= ret <= rec_loops rec /\
        rec_start rec <> None /\ rec_stop rec <> None))
  end.

(** What holds of the shared queue and the world while the workers of
    [func] run from the world [w0]: the queue is there and stands for some
    list of payloads, and the world comes after [w0]. *)
Definition shared_inv (func : bench_func) (w0 : world) (data : data_t)
    (w : world) : Prop :=
  (exists queue l, data = Some queue /\ rep queue l) /\
  adds (worker_event func) w0 w.

(** The page allocator never fails. *)
Definition alloc_never_fails (w : world) : Prop :=
  forall n, w_alloc w n <> NULL.

(** The cross-CPU scenario built around each worker function, and what
    sets the two scenarios apart. *)
Definition scenario (func : bench_func) (run_flags loops q_size prefill : Z)
    : world -> world :=
  match func with
  | Time_cross_cpu_ptr_ring =>
      run_bench_baseline_ptr_ring_cross_cpu run_flags loops q_size prefill
  | Time_cross_cpu_page_alloc_put =>
      run_bench_cross_cpu_page_alloc_put run_flags loops q_size prefill
  end.

Definition description_of (func : bench_func) : description :=
  match func with
  | Time_cross_cpu_ptr_ring => baseline_ptr_ring_cross_cpu
  | Time_cross_cpu_page_alloc_put => cross_cpu_page_alloc_put
  end.

Definition bit_of (func : bench_func) : Z :=
  match func with
  | Time_cross_cpu_ptr_ring => bit_run_bench_ptr_ring_baseline
  | Time_cross_cpu_page_alloc_put => bit_run_bench_cross_cpu_page_alloc_put
  end.

Definition fake_ptr_of (func : bench_func) : bool :=
  match func with
  | Time_cross_cpu_ptr_ring => true
  | Time_cross_cpu_page_alloc_put => false
  end.

Definition destroy_of (func : bench_func) : option (ptr -> world -> world) :=
  match func with
  | Time_cross_cpu_ptr_ring => None
  | Time_cross_cpu_page_alloc_put => Some destructor_put_page
  end.

(** The payload the producer side of a worker hands to the queue. *)
Definition payload_of (func : bench_func) (w : world) : ptr :=
  match func with
  | Time_cross_cpu_ptr_ring => fake_page
  | Time_cross_cpu_page_alloc_put => (alloc_pages w).1
  end.

(** Whether the queue operation of a round fails: the produce of a worker
    on an even CPU, the consume of a worker on an odd one. *)
Definition round_fails (func : bench_func) (cpu : Z) (queue : ptr_ring)
    (w : world) : bool :=
  if enq_CPU cpu then (ptr_ring_produce queue (payload_of func w)).2 <? 0
  else (ptr_ring_consume queue).2 =? NULL.

(** A world to run examples in: an empty log, a page allocator that hands
    out page after page, slot arrays always to be had, and a scheduler that
    takes the workers in turn. *)
Definition example_world : world :=
  mk_world [] (fun n => 4096 * (Z.of_nat n + 1)) 0 (fun _ => true) 0
    (fun n => n) 0.

(** ** Further observations on runs *)

(** The answers of [alloc_pages], NULL included, newest first. *)
Fixpoint allocated (tr : list event) : list ptr :=
  match tr with
  | [] => []
  | Ev_alloc_pages p :: tr' => p :: allocated tr'
  | _ :: tr' => allocated tr'
  end.

(** The next [n] answers of the page allocator, in call order. *)
Definition next_pages (w : world) (n : nat) : list ptr :=
  map (w_alloc w) (seq (w_nalloc w) n).

(** The log, newest first, of allocating and at once putting each of
    [pages], taken in call order. *)
Definition alloc_put_log (pages : list ptr) : list event :=
  rev (flat_map (fun p => [Ev_alloc_pages p; Ev_put_page p]) pages).

(** The payloads [init_queue] is to prefill, in order: [n] times the fake
    pointer, or the next [n] pages of the allocator. *)
Definition prefill_pages (fake_ptr : bool) (w : world) (n : nat) : list ptr :=
  if fake_ptr then replicate n fake_ptr_page else next_pages w n.

(** The rounds a worker has completed so far; for one that has returned,
    the count it returned. *)
Definition done_of (t : task) : Z :=
  match t_pc t with
  | Entry => 0
  | Loop i _ => i
  | Returned ret => ret
  end.

(** Entries a worker has added to the queue so far: its completed rounds,
    counted negative for a consumer. *)
Definition signed_done (t : task) : Z :=
  if enq_CPU (t_cpu t) then done_of t else - done_of t.

(** 1 for a producer that has returned, else 0. *)
Definition returned_producer (t : task) : Z :=
  if enq_CPU (t_cpu t) && finished t then 1 else 0.

Definition sum_over (m : task -> Z) (ts : list task) : Z :=
  foldr (fun t z => m t + z) 0 ts.

(** The counts returned by the workers on the enqueue side ([enq = true])
    or on the dequeue side, added up. *)
Definition completed (enq : bool) (ts : list task) : Z :=
  sum_over (fun t => if Bool.eqb (enq_CPU (t_cpu t)) enq then ret_of t else 0) ts.

(** Events other than the allocation and the freeing of a queue. *)
Definition no_queue_memory (e : event) : Prop :=
  match e with
  | Ev_kzalloc_queue | Ev_kfree_queue | Ev_kfree_slots => False
  | _ => True
  end.

(** While the workers of [func] run: the queue stands for a list as long
    as [len]. *)
Definition queue_length_is (func : bench_func) (len : Z) (data : data_t)
    (w : world) : Prop :=
  (exists queue l, data = Some queue /\ rep queue l /\ Z.of_nat (length l) = len) /\
  (func = Time_cross_cpu_page_alloc_put -> alloc_never_fails w).

(** Page accounting since the world [w0], with [budget] pages allowed to
    be astray: the pages in the queue followed by the pages put are, in
    the order of their allocation, pages that were allocated since, and
    all but [budget] of the allocated ones. *)
Definition pages_accounted (w0 : world) (budget : Z) (data : data_t)
    (w : world) : Prop :=
  exists queue l evs,
    data = Some queue /\ rep queue l /\
    w_trace w = evs ++ w_trace w0 /\
    sublist (rev l ++ released evs) (allocated evs) /\
    Z.of_nat (length (allocated evs))
      <= Z.of_nat (length l) + Z.of_nat (length (released evs)) + budget /\
    alloc_never_fails w.

(** Events other than a page being allocated or put. *)
Definition no_page (e : event) : Prop :=
  match e with
  | Ev_alloc_pages _ | Ev_put_page _ => False
  | _ => True
  end.


(** The rounds a worker on [cpu] can complete with nobody on the other
    side of a queue that stands for [l]: the free slots for a producer,
    the entries for a consumer. *)
Definition room (cpu : Z) (queue : ptr_ring) (l : list ptr) : Z :=
  if enq_CPU cpu then r_size queue - Z.of_nat (length l) else Z.of_nat (length l).

(** What [n] successful rounds of a worker on [cpu] make of a queue that
    stood for [l]: a producer has appended [n] payloads, a consumer has
    taken the [n] oldest. *)
Definition after_rounds (cpu : Z) (l l' : list ptr) (n : nat) : Prop :=
  if enq_CPU cpu then exists added, l' = l ++ added /\ length added = n
  else l' = drop n l.

(** ** Runs that go the whole way *)

(** A worker on its way through all [loops] rounds: in the loop the two
    counters agree, and once returned it has returned [loops], stored it
    as completed count and has both timestamps. *)
Definition on_course (loops : Z) (t : task) : Prop :=
  rec_loops (t_rec t) = loops /\
  match t_pc t with
  | Entry => True
  | Loop i loops_cnt =>
      loops_cnt = i /\ 0 <= i <= loops /\ rec_start (t_rec t) <> None
  | Returned ret =>
      ret = loops /\ rec_invoked_cnt (t_rec t) = loops /\
      rec_start (t_rec t) <> None /\ rec_stop (t_rec t) <> None
  end.

(** The producer on CPU 0 and the consumer on CPU 1 at work on a queue
    that was prefilled with [prefill] payloads: both are on course and
    the queue holds what was prefilled and produced, less what was
    consumed. *)
Definition in_step (func : bench_func) (loops prefill : Z) (ts : list task)
    (data : data_t) (w : world) : Prop :=
  exists t0 t1 queue l,
    ts = [t0; t1] /\ t_cpu t0 = 0 /\ t_cpu t1 = 1 /\
    on_course loops t0 /\ on_course loops t1 /\
    data = Some queue /\ rep queue l /\
    prefill + loops <= r_size queue /\
    Z.of_nat (length l) = prefill + done_of t0 - done_of t1 /\
    (func = Time_cross_cpu_page_alloc_put -> alloc_never_fails w).

(** ** The page that is left *)






(** The record of a worker that did all its [loops] rounds in the role
    [step]. *)
Definition full_record (loops step : Z) (rec : time_bench_record) : Prop :=
  rec_loops rec = loops /\ rec_step rec = step /\ rec_invoked_cnt rec = loops /\
  rec_start rec <> None /\ rec_stop rec <> None.

(** A cross-CPU scenario that ran in full: what it added to the log shows
    its two workers spawned, on CPU 0 and on CPU 1, and the report of each
    with all [loops] rounds completed, the producer's on CPU 0 and the
    consumer's on CPU 1. *)
Definition ran_in_full (func : bench_func) (loops : Z) (evs : list event) : Prop :=
  spawned evs = [1; 0] /\
  exists rec0 rec1,
    In (Ev_stats (description_of func) 0 rec0) evs /\
    In (Ev_stats (description_of func) 1 rec1) evs /\
    full_record loops 1 rec0 /\ full_record loops 0 rec1.

(** A cross-CPU scenario that ran its workers: what it added to the log
    shows the two workers spawned, on CPU 0 and on CPU 1, and the report
    of each, the one on CPU 0 as producer and the one on CPU 1 as
    consumer. *)
Definition ran_workers (func : bench_func) (evs : list event) : Prop :=
  spawned evs = [1; 0] /\
  exists rec0 rec1,
    In (Ev_stats (description_of func) 0 rec0) evs /\
    In (Ev_stats (description_of func) 1 rec1) evs /\
    rec_step rec0 = 1 /\ rec_step rec1 = 0.

(** * xdp_test01_no_mem_access_user: the user-space side of XDP test01

    Shallow embedding of kernel/samples/bpf/xdp_test01_no_mem_access_user.c:
    the parsing of the [--action] option and the polling of the packet
    counter.  C strings are [string]s, whose end stands for the
    terminating NUL; what the BPF maps answer is an argument. *)

From Stdlib Require Ascii String.

Module Xdp.

Import Ascii String.

(** ** string.h *)

(** A character as [unsigned char]. *)
Definition byte_of (c : ascii) : Z := Z.of_N (N_of_ascii c).

(** The character a C string starts with: the NUL at its end included. *)
Definition head (s : string) : Z :=
  match s with
  | EmptyString => 0
  | String c _ => byte_of c
  end.

Definition tail (s : string) : string :=
  match s with
  | EmptyString => EmptyString
  | String _ s' => s'
  end.

(** [strnlen(s, maxlen)]: the characters before the first NUL, [maxlen]
    at most. *)
Fixpoint strnlen (s : string) (maxlen : nat) : nat :=
  match maxlen with
  | O => O
  | S m => if head s =? 0 then O else S (strnlen (tail s) m)
  end.

(** [strncmp(s1, s2, n)]: compares at most [n] characters and stops after
    a NUL; the result is the difference of the first two characters that
    differ, 0 if there are none. *)
Fixpoint strncmp (s1 s2 : string) (n : nat) : Z :=
  match n with
  | O => 0
  | S n' =>
      if head s1 =? head s2
      then if head s1 =? 0 then 0 else strncmp (tail s1) (tail s2) n'
      else head s1 - head s2
  end.

(** ** Actions and their names *)

(** [enum xdp_action] of linux/bpf.h. *)
Definition XDP_ABORTED : Z := 0.
Definition XDP_DROP : Z := 1.
Definition XDP_PASS : Z := 2.
Definition XDP_TX : Z := 3.

Definition XDP_ACTION_MAX : Z := XDP_TX + 1.
Definition XDP_ACTION_MAX_STRLEN : nat := 11.

Definition xdp_action_names : list string :=
  ["XDP_ABORTED"; "XDP_DROP"; "XDP_PASS"; "XDP_TX"]%string.

(** [xdp_action_names[i]] for an [i] within the array. *)
Definition name_at (i : Z) : string :=
  nth (Z.to_nat i) xdp_action_names EmptyString.

(** What a [const char *] result can be: a string, NULL, or whatever lies
    before the array when it is read at a negative index. *)
Inductive c_str :=
| Str (s : string)
| Null
| Out_of_bounds.

(** [action2str]: only the upper bound is tested. *)
Definition action2str (action : Z) : c_str :=
  if action <? XDP_ACTION_MAX then
    if action <? 0 then Out_of_bounds else Str (name_at action)
  else Null.

(** The loop of [parse_xdp_action] from index [i] on, with [n] rounds
    left; yields the [__u64 action]. *)
Fixpoint parse_loop (n : nat) (i : Z) (action_str : string) (action : Z) : Z :=
  match n with
  | O => action
  | S n' =>
      let maxlen := strnlen (name_at i) XDP_ACTION_MAX_STRLEN in
      if strncmp (name_at i) action_str maxlen =? 0 then to_u64 i
      else parse_loop n' (i + 1) action_str action
  end.

(** [parse_xdp_action]: [action] starts as [(__u64)-1] and is returned as
    an [int]. *)
Definition parse_xdp_action (action_str : string) : Z :=
  to_int (parse_loop (Z.to_nat XDP_ACTION_MAX) 0 action_str (to_u64 (-1))).

(** ** Statistics *)

Definition EXIT_FAIL_XDP : Z := 3.

(** [struct stats_record]: [__u64 data[1]; __u64 action;] *)
Record stats_record := mk_stats_record {
  sr_data : list Z;
  sr_action : Z
}.

(** [stats_collect]; [lookup] is what [bpf_map_lookup_elem] on the
    per-CPU counter map answers: the value of each possible CPU, or
    [None] when it fails. *)
Definition stats_collect (lookup : option (list Z)) (record : stats_record)
    : bool * stats_record :=
  match lookup with
  | None => (false, record)
  | Some values =>
      let sum := foldl (fun sum v => to_u64 (sum + v)) 0 values in
      (true, mk_stats_record (<[0%nat := sum]> (sr_data record)) (sr_action record))
  end.

(** How one round of the loop of [stats_poll] ends. *)
Inductive poll_outcome :=
| Poll_exit (code : Z)              (* exit(EXIT_FAIL_XDP) *)
| Poll_div_by_zero                  (* the division by [interval] *)
| Poll_line (name : c_str) (pps : Z) (prev : Z) (record : stats_record).

(** One round of the [while (1)] loop of [stats_poll], up to the
    [sleep]: the line printed, the new [prev] and the record.  The
    [int interval] is converted to [__u64] for the division. *)
Definition stats_poll_round (interval : Z) (lookup : option (list Z))
    (prev : Z) (record : stats_record) : poll_outcome :=
  let '(ok, record1) := stats_collect lookup record in
  if negb ok then Poll_exit EXIT_FAIL_XDP
  else
    let count := nth 0 (sr_data record1) 0 in
    if to_u64 interval =? 0 then Poll_div_by_zero
    else
      let pps := to_u64 (count - prev) / to_u64 interval in
      Poll_line (action2str (to_int (sr_action record1))) pps count record1.

(** The counters of all CPUs added up. *)
Definition total (values : list Z) : Z := foldr Z.add 0 values.

End Xdp.
(** * Properties *)

Arguments emit : simpl never.
Arguments pr_err : simpl never.
Arguments alloc_pages : simpl never.
Arguments put_page : simpl never.
Arguments read_clock : simpl never.
Arguments next_pick : simpl never.
Arguments time_bench_start : simpl never.
Arguments time_bench_stop : simpl never.
Arguments worker_entry : simpl never.
Arguments worker_finish : simpl never.
Arguments ptr_ring_init : simpl never.
Arguments ptr_ring_produce : simpl never.
Arguments ptr_ring_consume : simpl never.

(** ** The ring as a queue *)

Section Ring_facts.

Implicit Types (r : ptr_ring) (l : list ptr) (p : ptr).

Lemma slot_update (q : list ptr) (i j : Z) p :
  0 <= i -> 0 <= j -> (Z.to_nat i < length q)%nat ->
  default NULL (<[Z.to_nat i := p]> q !! Z.to_nat j)
  = if i =? j then p else default NULL (q !! Z.to_nat j).
Proof.
  intros Hi Hj Hlen. destruct (Z.eqb_spec i j) as [->|Hne].
  - now rewrite list_lookup_insert_eq.
  - rewrite list_lookup_insert_ne; [reflexivity | lia].
Qed.

Lemma mod_shift_inj (s c a b : Z) :
  0 <= a < s -> 0 <= b < s -> (c + a) mod s = (c + b) mod s -> a = b.
Proof.
  intros Ha Hb Heq.
  assert (Hs : s <> 0) by lia.
  pose proof (Z.div_mod (c + a) s Hs) as Ea.
  pose proof (Z.div_mod (c + b) s Hs) as Eb.
  rewrite Heq in Ea.
  set (qa := (c + a) / s) in *. set (qb := (c + b) / s) in *.
  assert (Hd : a - b = s * (qa - qb)) by lia.
  assert (qa - qb = 0) by nia.
  lia.
Qed.

Lemma advance_mod r (i : Z) :
  0 < r_size r -> advance r (i mod r_size r) = (i + 1) mod r_size r.
Proof.
  intros Hs. unfold advance.
  pose proof (Z.mod_pos_bound i (r_size r) Hs) as Hb.
  rewrite <- (Z.add_mod_idemp_l i 1) by lia.
  generalize dependent (i mod r_size r). intros x Hb.
  destruct (Z.leb_spec (r_size r) (x + 1)).
  - replace (x + 1) with (r_size r) by lia.
    now rewrite Z.mod_same by lia.
  - now rewrite Z.mod_small by lia.
Qed.

Lemma slot_replicate (n : nat) (size c p i : Z) :
  slot (mk_ptr_ring p c size (replicate n NULL)) i = NULL.
Proof.
  unfold slot; simpl.
  destruct (replicate n NULL !! Z.to_nat i) eqn:E; [|reflexivity].
  now apply lookup_replicate in E as [-> _].
Qed.

Lemma rep_init size (ok : bool) r r' :
  ptr_ring_init r size ok = (r', 0) -> rep r' [].
Proof.
  unfold ptr_ring_init.
  destruct (Z.leb_spec 0 size) as [Hs|Hs]; destruct ok; simpl;
    intros [= <-]; try discriminate.
  unfold rep; simpl. rewrite length_replicate, Z.add_0_r.
  split; [lia|]. split; [reflexivity|]. split; [lia|].
  split; [now intros _|]. split; [lia|]. split; [constructor|].
  split.
  - destruct (Z.eq_dec size 0) as [->|]; [reflexivity|].
    now rewrite Z.mod_0_l.
  - intros k Hk. rewrite slot_replicate. now destruct (Z.to_nat k).
Qed.

Lemma rep_head r l : rep r l -> 0 < r_size r -> slot r (r_consumer r) = nth 0 l NULL.
Proof.
  intros (Hs & Hlen & Hc & Hz & Hl & Hnn & Hp & Hslots) Hpos.
  specialize (Hslots 0 ltac:(lia)). rewrite Z.add_0_r in Hslots.
  rewrite Z.mod_small in Hslots by (apply Hc; lia). exact Hslots.
Qed.

Lemma rep_produce r l p :
  rep r l -> p <> NULL ->
  if Z.of_nat (length l) <? r_size r
  then exists r', ptr_ring_produce r p = (r', 0) /\ rep r' (l ++ [p])
  else ptr_ring_produce r p = (r, - ENOSPC).
Proof.
  intros Hrep Hp0.
  pose proof Hrep as (Hs & Hlen & Hc & Hz & Hl & Hnn & Hp & Hslots).
  unfold ptr_ring_produce.
  destruct (Z.eqb_spec (r_size r) 0) as [E0|E0]; simpl.
  { destruct (Z.ltb_spec (Z.of_nat (length l)) (r_size r)); [lia|reflexivity]. }
  assert (Hpos : 0 < r_size r) by lia. specialize (Hc Hpos).
  destruct (Z.ltb_spec (Z.of_nat (length l)) (r_size r)) as [Hlt|Hge].
  - (* room *)
    assert (Hfree : slot r (r_producer r) = NULL).
    { rewrite Hp, Hslots by lia. apply nth_overflow. lia. }
    rewrite Hfree. simpl. eexists; split; [reflexivity|].
    pose proof (Z.mod_pos_bound (r_consumer r + Z.of_nat (length l)) _ Hpos) as Hb.
    unfold rep; simpl. rewrite length_insert, length_app. simpl.
    split; [lia|]. split; [exact Hlen|]. split; [now intros _|].
    split; [lia|]. split; [lia|].
    split; [apply Forall_app; split; [exact Hnn | now repeat constructor]|].
    split.
    + rewrite Hp, advance_mod by lia. f_equal. lia.
    + intros k Hk. unfold slot; simpl.
      pose proof (Z.mod_pos_bound (r_consumer r + k) _ Hpos) as Hbk.
      rewrite slot_update by lia.
      rewrite Hp.
      destruct (Z.eqb_spec ((r_consumer r + Z.of_nat (length l)) mod r_size r)
                  ((r_consumer r + k) mod r_size r)) as [Heq|Hne].
      * apply mod_shift_inj in Heq; [|lia|lia]. subst k.
        rewrite Nat2Z.id. now rewrite nth_middle.
      * change (default NULL (r_queue r !! Z.to_nat ((r_consumer r + k) mod r_size r)))
          with (slot r ((r_consumer r + k) mod r_size r)).
        rewrite Hslots by lia.
        destruct (Z.lt_ge_cases k (Z.of_nat (length l))).
        -- rewrite app_nth1 by lia. reflexivity.
        -- assert (k <> Z.of_nat (length l)) by congruence.
           rewrite !nth_overflow; [reflexivity | rewrite length_app; simpl; lia | lia].
  - (* full *)
    assert (Hfull : Z.of_nat (length l) = r_size r) by lia.
    assert (Hocc : slot r (r_producer r) <> NULL).
    { rewrite Hp, Hfull.
      replace (r_consumer r + r_size r) with (r_consumer r + 1 * r_size r) by lia.
      rewrite Z.mod_add, Z.mod_small by lia.
      rewrite (rep_head r l Hrep Hpos).
      destruct l as [|x l']; [simpl in Hfull; lia|]. simpl.
      now inversion Hnn. }
    destruct (Z.eqb_spec (slot r (r_producer r)) NULL); [contradiction|reflexivity].
Qed.

Lemma rep_consume r l :
  rep r l ->
  match l with
  | [] => ptr_ring_consume r = (r, NULL)
  | x :: l' => exists r', ptr_ring_consume r = (r', x) /\ rep r' l'
  end.
Proof.
  intros Hrep.
  pose proof Hrep as (Hs & Hlen & Hc & Hz & Hl & Hnn & Hp & Hslots).
  unfold ptr_ring_consume.
  destruct (Z.eqb_spec (r_size r) 0) as [E0|E0].
  { destruct l; [reflexivity | simpl in Hl; lia]. }
  assert (Hpos : 0 < r_size r) by lia. specialize (Hc Hpos).
  rewrite (rep_head r l Hrep Hpos).
  destruct l as [|x l']; [reflexivity|]. simpl nth.
  inversion Hnn as [|? ? Hx Hnn']; subst.
  destruct (Z.eqb_spec x NULL); [contradiction|].
  eexists; split; [reflexivity|].
  simpl length in *.
  unfold rep; simpl. rewrite length_insert.
  assert (Hadv : advance r (r_consumer r) = (r_consumer r + 1) mod r_size r).
  { rewrite <- advance_mod by lia. now rewrite Z.mod_small by lia. }
  pose proof (Z.mod_pos_bound (r_consumer r + 1) _ Hpos) as Hb.
  split; [lia|]. split; [exact Hlen|]. split; [intros _; rewrite Hadv; lia|].
  split; [lia|]. split; [lia|]. split; [exact Hnn'|].
  split.
  - rewrite Hp, Hadv, Z.add_mod_idemp_l by lia. f_equal. lia.
  - intros k Hk. unfold slot; simpl.
    rewrite Hadv, Z.add_mod_idemp_l by lia.
    pose proof (Z.mod_pos_bound (r_consumer r + 1 + k) _ Hpos) as Hbk.
    rewrite slot_update by lia.
    destruct (Z.eqb_spec (r_consumer r) ((r_consumer r + 1 + k) mod r_size r)) as [Heq|Hne].
    + symmetry. apply nth_overflow.
      rewrite <- (Z.mod_small (r_consumer r) (r_size r)) in Heq at 1 by lia.
      replace (r_consumer r) with (r_consumer r + 0) in Heq at 1 by lia.
      replace (r_consumer r + 1 + k) with (r_consumer r + (1 + k - r_size r) + 1 * r_size r) in Heq by lia.
      rewrite Z.mod_add in Heq by lia.
      destruct (Z.eq_dec k (r_size r - 1)) as [->|]; [lia|].
      exfalso.
      replace (r_consumer r + (1 + k - r_size r)) with (r_consumer r + (1 + k) + (-1) * r_size r) in Heq by lia.
      rewrite Z.mod_add in Heq by lia.
      apply mod_shift_inj in Heq; lia.
    + change (default NULL (r_queue r !! Z.to_nat ((r_consumer r + 1 + k) mod r_size r)))
        with (slot r ((r_consumer r + 1 + k) mod r_size r)).
      destruct (Z.eq_dec k (r_size r - 1)) as [->|].
      { exfalso. apply Hne.
        replace (r_consumer r + 1 + (r_size r - 1)) with (r_consumer r + 1 * r_size r) by lia.
        now rewrite Z.mod_add, Z.mod_small by lia. }
      rewrite <- Z.add_assoc, Hslots by lia.
      replace (Z.to_nat (1 + k)) with (S (Z.to_nat k)) by lia. reflexivity.
Qed.

End Ring_facts.

Section Drain_facts.

Context {W : Type} (destroy : ptr -> W -> W).

(** Draining a ring that holds [l] releases [l], oldest first, and leaves
    the ring empty. *)
Lemma drain_rep (fuel : nat) r l (w : W) :
  rep r l -> (length l <= fuel)%nat ->
  exists r', drain fuel destroy r w = (r', foldl (fun w p => destroy p w) w l)
             /\ rep r' [].
Proof.
  revert r l w. induction fuel as [|fuel IH]; intros r l w Hrep Hlen.
  - destruct l; [|simpl in Hlen; lia]. now exists r.
  - pose proof (rep_consume r l Hrep) as Hc. destruct l as [|x l'].
    + simpl. rewrite Hc. simpl. now exists r.
    + destruct Hc as (r1 & Hc & Hrep1). simpl drain. rewrite Hc.
      destruct Hrep as (_ & _ & _ & _ & _ & Hnn & _). inversion Hnn; subst.
      destruct (Z.eqb_spec x NULL); [contradiction|].
      simpl in Hlen. destruct (IH r1 l' (destroy x w) Hrep1 ltac:(lia)) as (r' & -> & ?).
      now exists r'.
Qed.

Lemma clear_slot_occupied (q : list ptr) (i : nat) (x : ptr) :
  q !! i = Some x -> x <> NULL ->
  S (length (List.filter (fun p => negb (p =? NULL)) (<[i := NULL]> q)))
  = length (List.filter (fun p => negb (p =? NULL)) q).
Proof.
  revert i. induction q as [|y q IH]; intros [|i] Hq Hx; try discriminate.
  - simpl in Hq. injection Hq as ->. simpl.
    destruct (Z.eqb_spec x NULL); [contradiction|]. reflexivity.
  - simpl in Hq. change (<[S i:=NULL]> (y :: q)) with (y :: <[i:=NULL]> q).
    simpl. destruct (negb (y =? NULL)); simpl; rewrite <- (IH i Hq Hx); reflexivity.
Qed.

Lemma consume_occupied r r' p :
  ptr_ring_consume r = (r', p) -> p <> NULL -> S (occupied r') = occupied r.
Proof.
  unfold ptr_ring_consume, slot. destruct (r_size r =? 0); simpl.
  { intros [= <- <-]. contradiction. }
  destruct (r_queue r !! Z.to_nat (r_consumer r)) as [x|] eqn:E; simpl.
  - destruct (Z.eqb_spec x NULL); intros [= <- <-] Hx; [contradiction|].
    unfold occupied; simpl. now apply (clear_slot_occupied _ _ x).
  - intros [= <- <-]. contradiction.
Qed.

(** The fuel of [ptr_ring_cleanup] is enough for any ring: when [drain]
    stops, the next consume finds nothing. *)
Lemma drain_exits (fuel : nat) r (w : W) :
  (occupied r <= fuel)%nat ->
  snd (ptr_ring_consume (fst (drain fuel destroy r w))) = NULL.
Proof.
  revert r w. induction fuel as [|fuel IH]; intros r w Hocc; simpl.
  - destruct (ptr_ring_consume r) as [r' p] eqn:E. simpl.
    destruct (Z.eq_dec p NULL) as [|Hp]; [assumption|].
    pose proof (consume_occupied _ _ _ E Hp). lia.
  - destruct (ptr_ring_consume r) as [r' p] eqn:E.
    destruct (Z.eqb_spec p NULL) as [->|Hp]; simpl.
    + now rewrite E.
    + apply IH. pose proof (consume_occupied _ _ _ E Hp). lia.
Qed.

Lemma drain_fuel_enough r (w : W) :
  snd (ptr_ring_consume (fst (drain (length (r_queue r)) destroy r w))) = NULL.
Proof.
  apply drain_exits. unfold occupied. apply List.filter_length_le.
Qed.

End Drain_facts.

Lemma rep_length_le r l : rep r l -> (length l <= length (r_queue r))%nat.
Proof. intros (? & Hlen & _ & _ & ? & _). lia. Qed.

(** Calls made on a ring that stands for [l]: what was there and what was
    produced is what was consumed and what is left. *)
Lemma run_ops_rep (ops : list qop) : forall r l produced consumed r',
  rep r l ->
  (forall p, In (Produce p) ops -> p <> NULL) ->
  run_ops ops r = (produced, consumed, r') ->
  exists rest, rep r' rest /\ l ++ produced = consumed ++ rest.
Proof.
  induction ops as [|op ops IH]; intros r l produced consumed r' Hrep Hnn Hrun.
  - injection Hrun as <- <- <-. exists l. split; [assumption|]. now rewrite app_nil_r.
  - destruct op as [p|]; simpl in Hrun.
    + assert (Hp : p <> NULL) by (apply Hnn; now left).
      pose proof (rep_produce r l p Hrep Hp) as Hprod.
      destruct (run_ops ops (fst (ptr_ring_produce r p))) as [[pr co] rf] eqn:E.
      destruct (Z.of_nat (length l) <? r_size r).
      * destruct Hprod as (r1 & Hr1 & Hrep1). rewrite Hr1 in Hrun, E. simpl in E.
        rewrite E in Hrun. simpl in Hrun. injection Hrun as <- <- <-.
        destruct (IH _ _ _ _ _ Hrep1 (fun q Hq => Hnn q (or_intror Hq)) E) as (rest & ? & Heq).
        exists rest. split; [assumption|]. rewrite <- Heq, <- app_assoc. reflexivity.
      * rewrite Hprod in Hrun, E. simpl in E. rewrite E in Hrun. simpl in Hrun.
        injection Hrun as <- <- <-.
        exact (IH _ _ _ _ _ Hrep (fun q Hq => Hnn q (or_intror Hq)) E).
    + pose proof (rep_consume r l Hrep) as Hcons.
      destruct (run_ops ops (fst (ptr_ring_consume r))) as [[pr co] rf] eqn:E.
      destruct l as [|x l'].
      * rewrite Hcons in Hrun, E. simpl in E. rewrite E in Hrun. simpl in Hrun.
        injection Hrun as <- <- <-.
        exact (IH _ _ _ _ _ Hrep (fun q Hq => Hnn q (or_intror Hq)) E).
      * destruct Hcons as (r1 & Hr1 & Hrep1). rewrite Hr1 in Hrun, E. simpl in E.
        rewrite E in Hrun.
        destruct Hrep as (_ & _ & _ & _ & _ & Hall & _). inversion Hall; subst.
        destruct (Z.eqb_spec x NULL); [contradiction|].
        injection Hrun as <- <- <-.
        destruct (IH _ _ _ _ _ Hrep1 (fun q Hq => Hnn q (or_intror Hq)) E) as (rest & ? & Heq).
        exists rest. split; [assumption|]. simpl. now rewrite Heq.
Qed.

(** ** What each function adds to the log *)

Section Log_facts.

Implicit Types (w : world) (P Q : event -> Prop).

Lemma adds_refl P w : adds P w w.
Proof. repeat split. now exists []. Qed.

Lemma adds_trans P w1 w2 w3 : adds P w1 w2 -> adds P w2 w3 -> adds P w1 w3.
Proof.
  intros ((e1 & T1 & F1) & A1 & K1 & S1) ((e2 & T2 & F2) & A2 & K2 & S2).
  repeat split; try congruence.
  exists (e2 ++ e1). split.
  - now rewrite T2, T1, app_assoc.
  - now apply Forall_app.
Qed.

Lemma adds_weaken P Q w w' : (forall e, P e -> Q e) -> adds P w w' -> adds Q w w'.
Proof.
  intros HPQ ((evs & T & F) & ?). split; [|assumption].
  exists evs. split; [assumption|]. eapply Forall_impl; eauto.
Qed.

Lemma adds_emit P e w : P e -> adds P w (emit e w).
Proof. intros He. repeat split. exists [e]. split; [reflexivity|]. now repeat constructor. Qed.

Lemma adds_pr_err P m w : P (Ev_pr_err m) -> adds P w (pr_err m w).
Proof. apply adds_emit. Qed.

Lemma adds_alloc P w : (forall p, P (Ev_alloc_pages p)) -> adds P w (snd (alloc_pages w)).
Proof.
  intros HP. repeat split. exists [Ev_alloc_pages (fst (alloc_pages w))].
  split; [reflexivity|]. repeat constructor. apply HP.
Qed.

Lemma adds_clock P w : adds P w (snd (read_clock w)).
Proof. repeat split. now exists []. Qed.

Lemma adds_pick P w : adds P w (snd (next_pick w)).
Proof. repeat split. now exists []. Qed.

Lemma adds_start P rec w : adds P w (snd (time_bench_start rec w)).
Proof. apply adds_clock. Qed.

Lemma adds_stop P rec cnt w : adds P w (snd (time_bench_stop rec cnt w)).
Proof. apply adds_clock. Qed.

Lemma adds_entry cpu rec data w :
  adds is_log w (snd (worker_entry cpu rec data w)).
Proof.
  unfold worker_entry. destruct data; [destruct (loops_too_big _)|]; simpl.
  - now apply adds_emit.
  - apply adds_clock.
  - now apply adds_emit.
Qed.

Lemma adds_finish P rec cnt (queue : ptr_ring) w0 w :
  adds P w0 w ->
  adds P w0 (snd (let '(p, r, w') := worker_finish rec cnt w in (p, r, queue, w'))).
Proof. intros H. eapply adds_trans; [exact H|]. apply adds_clock. Qed.

Lemma adds_pass func cpu rec queue i cnt w :
  adds (worker_event func) w (snd (pass_of func cpu rec queue i cnt w)).
Proof.
  assert (Herr : forall m, worker_event func (Ev_pr_err m)) by now destruct func.
  destruct func; unfold pass_of, ptr_ring_pass, page_alloc_put_pass.
  - destruct (i <? rec_loops rec); [|apply adds_finish, adds_refl].
    destruct (enq_CPU cpu).
    + destruct (ptr_ring_produce queue fake_page) as [q rc].
      destruct (rc <? 0); [|apply adds_refl].
      apply adds_finish, adds_pr_err, Herr.
    + destruct (ptr_ring_consume queue) as [q np].
      destruct (np =? NULL); [|apply adds_refl].
      apply adds_finish, adds_pr_err, Herr.
  - destruct (i <? rec_loops rec); [|apply adds_finish, adds_refl].
    destruct (enq_CPU cpu).
    + pose proof (adds_alloc is_log_or_page w (fun _ => I)) as Ha.
      destruct (alloc_pages w) as [page w1]. cbn [snd] in Ha.
      destruct (ptr_ring_produce queue page) as [q rc].
      destruct (rc <? 0); [|exact Ha].
      apply adds_finish. eapply adds_trans; [exact Ha|]. apply adds_pr_err, Herr.
    + destruct (ptr_ring_consume queue) as [q np].
      destruct (np =? NULL).
      * apply adds_finish, adds_pr_err, Herr.
      * now apply adds_emit.
Qed.

Lemma is_log_worker_event func e : is_log e -> worker_event func e.
Proof. destruct func, e; simpl; tauto. Qed.

Lemma adds_task_step func t data w :
  adds (worker_event func) w (snd (task_step (pass_of func) t data w)).
Proof.
  unfold task_step. destruct (t_pc t) as [|i cnt|ret].
  - pose proof (adds_entry (t_cpu t) (t_rec t) data w) as H.
    destruct (worker_entry _ _ _ _) as [[p r] w']. simpl in *.
    eapply adds_weaken; [apply is_log_worker_event|exact H].
  - destruct data as [queue|]; [|apply adds_refl].
    pose proof (adds_pass func (t_cpu t) (t_rec t) queue i cnt w) as H.
    destruct (pass_of func _ _ _ _ _ _) as [[[p r] q] w']. exact H.
  - apply adds_refl.
Qed.

Lemma adds_step_pick func ts : forall k data w,
  adds (worker_event func) w (snd (step_pick k (pass_of func) ts data w)).
Proof.
  induction ts as [|t ts IH]; intros k data w; simpl; [apply adds_refl|].
  destruct (finished t).
  - specialize (IH k data w). destruct (step_pick k _ ts data w) as [[? ?] ?]. exact IH.
  - destruct k as [|k].
    + pose proof (adds_task_step func t data w) as H.
      destruct (task_step _ t data w) as [[? ?] ?]. exact H.
    + specialize (IH k data w). destruct (step_pick k _ ts data w) as [[? ?] ?]. exact IH.
Qed.

Lemma adds_run_tasks func fuel : forall ts data w,
  adds (worker_event func) w (snd (run_tasks fuel (pass_of func) ts data w)).
Proof.
  induction fuel as [|fuel IH]; intros ts data w; simpl; [apply adds_refl|].
  destruct (unfinished ts) as [|n]; [apply adds_refl|].
  pose proof (adds_step_pick func ts (w_sched w (w_tick w) mod S n)%nat data (snd (next_pick w))) as H.
  simpl in H.
  destruct (step_pick _ _ ts data _) as [[ts' data'] w'] eqn:E. simpl in H.
  eapply adds_trans; [apply (adds_pick _ w)|].
  eapply adds_trans; [exact H|]. apply IH.
Qed.

Lemma spawn_spec cpumask loops step : forall w,
  spawn cpumask loops step w
  = (map (fun cpu => mk_task cpu Entry (mk_record loops step 0 None None)) cpumask,
     foldl (fun w cpu => emit (Ev_kthread_run cpu) w) w cpumask).
Proof.
  induction cpumask as [|cpu rest IH]; intros w; simpl; [reflexivity|].
  now rewrite IH.
Qed.

Lemma adds_print_stats d cpu rec w : adds is_log w (print_stats d cpu rec w).
Proof.
  unfold print_stats. destruct (_ <? _).
  - eapply adds_trans; apply adds_emit; exact I.
  - now apply adds_emit.
Qed.

Lemma adds_foldl {A : Type} P (f : world -> A -> world) (l : list A) :
  (forall w a, adds P w (f w a)) -> forall w, adds P w (foldl f w l).
Proof.
  intros Hf. induction l as [|a l IH]; intros w; simpl; [apply adds_refl|].
  eapply adds_trans; [apply Hf|apply IH].
Qed.

Lemma adds_print_cpumask d ts w :
  adds is_log w (time_bench_print_stats_cpumask d ts w).
Proof. apply adds_foldl. intros. apply adds_print_stats. Qed.

Lemma adds_prefill_loop n : forall queue q_size prefill (fake_ptr : bool) w,
  adds (if fake_ptr then is_log else is_log_or_alloc) w
       (snd (prefill_loop n queue q_size prefill fake_ptr w)).
Proof.
  induction n as [|n IH]; intros queue q_size prefill fake_ptr w;
    cbn [prefill_loop]; [apply adds_refl|].
  assert (Herr : forall m, (if fake_ptr then is_log else is_log_or_alloc) (Ev_pr_err m))
    by now destruct fake_ptr.
  destruct fake_ptr; cbn [negb andb].
  - destruct (ptr_ring_produce queue fake_ptr_page) as [q rc].
    destruct (rc <? 0); [apply adds_pr_err, Herr|apply (IH _ _ _ true)].
  - pose proof (adds_alloc is_log_or_alloc w (fun _ => I)) as Ha.
    destruct (alloc_pages w) as [page w1]. cbn [snd] in Ha.
    destruct (page =? NULL).
    { eapply adds_trans; [exact Ha|apply adds_pr_err, Herr]. }
    destruct (ptr_ring_produce queue page) as [q rc].
    destruct (rc <? 0).
    { eapply adds_trans; [exact Ha|apply adds_pr_err, Herr]. }
    eapply adds_trans; [exact Ha|apply (IH _ _ _ false)].
Qed.

Lemma adds_init_queue queue q_size prefill (fake_ptr : bool) w :
  adds (if fake_ptr then is_log else is_log_or_alloc) w
       (snd (init_queue queue q_size prefill fake_ptr w)).
Proof.
  unfold init_queue. destruct (ptr_ring_init _ _ _) as [q1 res].
  destruct (res <? 0); [|apply adds_prefill_loop].
  apply adds_emit. now destruct fake_ptr.
Qed.

Lemma spawned_app evs tr :
  Forall no_spawn evs -> spawned (evs ++ tr) = spawned tr.
Proof.
  induction 1 as [|e evs He _ IH]; [reflexivity|].
  destruct e; simpl in *; try assumption. contradiction.
Qed.

Lemma released_app evs tr :
  Forall no_release evs -> released (evs ++ tr) = released tr.
Proof.
  induction 1 as [|e evs He _ IH]; [reflexivity|].
  destruct e; simpl in *; try assumption. contradiction.
Qed.

Lemma adds_spawned w w' : adds no_spawn w w' -> spawned (w_trace w') = spawned (w_trace w).
Proof. intros ((evs & -> & F) & _). now apply spawned_app. Qed.

Lemma adds_released w w' : adds no_release w w' -> released (w_trace w') = released (w_trace w).
Proof. intros ((evs & -> & F) & _). now apply released_app. Qed.

End Log_facts.

(** ** Workers in flight *)

Section Run_facts.

Implicit Types (t : task) (w : world) (data : data_t) (func : bench_func).

Lemma to_int_small (z : Z) : 0 <= z < 2 ^ 31 -> to_int z = z.
Proof. intros H. unfold to_int. rewrite Z.mod_small; lia. Qed.

Lemma guard_passed rec :
  0 <= rec_loops rec < 2 ^ 32 -> loops_too_big rec = false ->
  rec_loops rec < 2 ^ 31.
Proof.
  unfold loops_too_big, to_u64. intros H.
  rewrite Z.mod_small by lia. intros G. apply Z.leb_gt in G. lia.
Qed.

Lemma guard_tripped rec :
  0 <= rec_loops rec < 2 ^ 32 ->
  loops_too_big rec = true <-> 2 ^ 31 <= rec_loops rec.
Proof.
  unfold loops_too_big, to_u64. intros H.
  rewrite Z.mod_small by lia. rewrite Z.leb_le. lia.
Qed.

Lemma task_step_cpu pass t data w :
  t_cpu (task_step pass t data w).1.1 = t_cpu t.
Proof.
  unfold task_step. destruct (t_pc t); [| destruct data |]; try reflexivity.
  - now destruct (worker_entry _ _ _ _) as [[? ?] ?].
  - now destruct (pass _ _ _ _ _ _) as [[[? ?] ?] ?].
Qed.

Lemma task_step_some pass t queue w :
  exists queue', (task_step pass t (Some queue) w).1.2 = Some queue'.
Proof.
  unfold task_step. destruct (t_pc t).
  - destruct (worker_entry _ _ _ _) as [[? ?] ?]. now exists queue.
  - destruct (pass _ _ _ _ _ _) as [[[? ?] q'] ?]. now exists q'.
  - now exists queue.
Qed.

Lemma produce_failed r p r' rc :
  ptr_ring_produce r p = (r', rc) -> (rc <? 0) = true -> r' = r /\ rc = - ENOSPC.
Proof.
  unfold ptr_ring_produce. destruct (_ || _); intros [= <- <-]; [easy|discriminate].
Qed.

Lemma consume_failed r r' :
  ptr_ring_consume r = (r', NULL) -> r' = r.
Proof.
  unfold ptr_ring_consume. cbv zeta.
  match goal with |- context [if ?b then (r, NULL) else _] => destruct b eqn:E end.
  - intros H. now injection H.
  - intros H. injection H as _ H. rewrite H in E. discriminate.
Qed.

Lemma alloc_pages_clock w : w_clock (alloc_pages w).2 = w_clock w.
Proof. reflexivity. Qed.

(** The outcome of one pass of either worker's loop: the loop goes on to
    the next round, or the worker stops its clock, stores its count and
    returns it, leaving the queue as it was. *)
Lemma pass_cases func cpu rec queue i cnt w :
  let out := pass_of func cpu rec queue i cnt w in
  (i < rec_loops rec /\ out.1.1.1 = Loop (i + 1) (cnt + 1) /\ out.1.1.2 = rec)
  \/ (out.1.1.1 = Returned (to_int cnt) /\
      out.1.1.2 = mk_record (rec_loops rec) (rec_step rec) cnt (rec_start rec)
                    (Some (w_clock w)) /\
      out.1.2 = queue).
Proof.
  destruct func; cbn [pass_of]; unfold ptr_ring_pass, page_alloc_put_pass.
  - destruct (Z.ltb_spec i (rec_loops rec)); [|right; now repeat split].
    destruct (enq_CPU cpu).
    + destruct (ptr_ring_produce queue fake_page) as [q rc] eqn:E.
      destruct (rc <? 0) eqn:Erc; [|left; now repeat split].
      apply (produce_failed _ _ _ _ E) in Erc as [-> _]. right. now repeat split.
    + destruct (ptr_ring_consume queue) as [q np] eqn:E.
      destruct (Z.eqb_spec np NULL) as [->|]; [|left; now repeat split].
      apply consume_failed in E as ->. right. now repeat split.
  - destruct (Z.ltb_spec i (rec_loops rec)); [|right; now repeat split].
    destruct (enq_CPU cpu).
    + pose proof (alloc_pages_clock w) as Hc.
      destruct (alloc_pages w) as [page w1]. cbn [snd] in Hc.
      destruct (ptr_ring_produce queue page) as [q rc] eqn:E.
      destruct (rc <? 0) eqn:Erc; [|left; now repeat split].
      apply (produce_failed _ _ _ _ E) in Erc as [-> _]. right.
      cbn. rewrite <- Hc. now repeat split.
    + destruct (ptr_ring_consume queue) as [q np] eqn:E.
      destruct (Z.eqb_spec np NULL) as [->|]; [|left; now repeat split].
      apply consume_failed in E as ->. right. now repeat split.
Qed.

Lemma task_step_inv func t data w :
  task_inv t -> task_inv (task_step (pass_of func) t data w).1.1.
Proof.
  unfold task_step, task_inv.
  destruct (t_pc t) as [|i cnt|ret] eqn:Epc.
  - intros (Hl & Hs & He). unfold worker_entry, time_bench_start, read_clock.
    destruct data as [queue|]; [destruct (loops_too_big _) eqn:G|]; cbn.
    + split; [reflexivity|]. left. auto.
    + pose proof (guard_passed (set_step (t_rec t) (b2z (enq_CPU (t_cpu t)))) Hl G).
      cbn in *. repeat split; try lia. discriminate.
    + split; [reflexivity|]. left. auto.
  - destruct data as [queue|]; [|cbn; now rewrite Epc].
    intros (Hs & -> & Hi & Hl & Hst).
    pose proof (pass_cases func (t_cpu t) (t_rec t) queue i i w) as Hp.
    destruct (pass_of func _ _ _ _ _ _) as [[[p r] q] w']. cbn in Hp |- *.
    destruct Hp as [(Hlt & -> & ->)|(-> & -> & _)]; cbn.
    + repeat split; (assumption || lia).
    + split; [assumption|]. right. rewrite to_int_small by lia.
      repeat split; (assumption || lia || discriminate).
  - cbn. now rewrite Epc.
Qed.

Lemma produce_rep r l p :
  rep r l -> p <> NULL -> exists l', rep (ptr_ring_produce r p).1 l'.
Proof.
  intros Hrep Hp. pose proof (rep_produce r l p Hrep Hp) as H.
  destruct (_ <? _).
  - destruct H as (r' & -> & ?). eauto.
  - rewrite H. eauto.
Qed.

Lemma consume_rep r l : rep r l -> exists l', rep (ptr_ring_consume r).1 l'.
Proof.
  intros Hrep. pose proof (rep_consume r l Hrep) as H. destruct l.
  - rewrite H. eauto.
  - destruct H as (r' & -> & ?). eauto.
Qed.

(** A pass leaves the queue a queue, provided a real page put into it is
    not NULL. *)
Lemma pass_rep func cpu rec queue l i cnt w :
  (func = Time_cross_cpu_page_alloc_put -> alloc_never_fails w) ->
  rep queue l ->
  exists l', rep (pass_of func cpu rec queue i cnt w).1.2 l'.
Proof.
  intros Hnn Hrep.
  destruct func; cbn [pass_of]; unfold ptr_ring_pass, page_alloc_put_pass.
  - destruct (i <? rec_loops rec); [|eauto].
    destruct (enq_CPU cpu).
    + destruct (produce_rep queue l fake_page Hrep ltac:(discriminate)) as (l' & H).
      destruct (ptr_ring_produce queue fake_page) as [q rc].
      destruct (rc <? 0); eauto.
    + destruct (consume_rep queue l Hrep) as (l' & H).
      destruct (ptr_ring_consume queue) as [q np].
      destruct (np =? NULL); eauto.
  - destruct (i <? rec_loops rec); [|eauto].
    destruct (enq_CPU cpu).
    + assert (Hp : (alloc_pages w).1 <> NULL) by apply (Hnn eq_refl).
      destruct (alloc_pages w) as [page w1]. cbn [fst] in Hp.
      destruct (produce_rep queue l page Hrep Hp) as (l' & H).
      destruct (ptr_ring_produce queue page) as [q rc].
      destruct (rc <? 0); eauto.
    + destruct (consume_rep queue l Hrep) as (l' & H).
      destruct (ptr_ring_consume queue) as [q np].
      destruct (np =? NULL); eauto.
Qed.

Lemma adds_never_fails P w w' :
  adds P w w' -> alloc_never_fails w -> alloc_never_fails w'.
Proof. intros (_ & Ha & _) H n. rewrite Ha. apply H. Qed.

Lemma task_step_shared func w0 t data w :
  (func = Time_cross_cpu_page_alloc_put -> alloc_never_fails w0) ->
  shared_inv func w0 data w ->
  shared_inv func w0 (task_step (pass_of func) t data w).1.2
                     (task_step (pass_of func) t data w).2.
Proof.
  intros Hnn ((queue & l & -> & Hrep) & Hadds). split.
  - unfold task_step. destruct (t_pc t) as [|i cnt|ret].
    + destruct (worker_entry _ _ _ _) as [[? ?] ?]. cbn. eauto.
    + assert (Hnn' : func = Time_cross_cpu_page_alloc_put -> alloc_never_fails w)
        by (intros E; eapply adds_never_fails; eauto).
      destruct (pass_rep func (t_cpu t) (t_rec t) queue l i cnt w Hnn' Hrep) as (l' & H).
      destruct (pass_of func _ _ _ _ _ _) as [[[? ?] q'] ?]. cbn in *. eauto.
    + cbn. eauto.
  - eapply adds_trans; [exact Hadds|apply adds_task_step].
Qed.

Section Lifting.

Variables (pass : pass_t) (I : task -> Prop) (J : data_t -> world -> Prop).

Hypothesis step_ok : forall t data w,
  I t -> J data w ->
  I (task_step pass t data w).1.1 /\
  J (task_step pass t data w).1.2 (task_step pass t data w).2.

Hypothesis pick_ok : forall data w, J data w -> J data (next_pick w).2.

Lemma step_pick_preserves ts : forall k data w,
  Forall I ts -> J data w ->
  Forall I (step_pick k pass ts data w).1.1 /\
  J (step_pick k pass ts data w).1.2 (step_pick k pass ts data w).2.
Proof.
  induction ts as [|t ts IH]; intros k data w Hts HJ; cbn [step_pick].
  - now split.
  - inversion Hts as [|? ? Ht Hts']; subst.
    destruct (finished t).
    + destruct (IH k data w Hts' HJ) as [H1 H2].
      destruct (step_pick k pass ts data w) as [[? ?] ?]. cbn in *.
      split; [now constructor|assumption].
    + destruct k as [|k].
      * destruct (step_ok t data w Ht HJ) as [H1 H2].
        destruct (task_step pass t data w) as [[? ?] ?]. cbn in *.
        split; [now constructor|assumption].
      * destruct (IH k data w Hts' HJ) as [H1 H2].
        destruct (step_pick k pass ts data w) as [[? ?] ?]. cbn in *.
        split; [now constructor|assumption].
Qed.

Lemma run_tasks_preserves fuel : forall ts data w,
  Forall I ts -> J data w ->
  Forall I (run_tasks fuel pass ts data w).1.1 /\
  J (run_tasks fuel pass ts data w).1.2 (run_tasks fuel pass ts data w).2.
Proof.
  induction fuel as [|fuel IH]; intros ts data w Hts HJ; cbn [run_tasks].
  - now split.
  - destruct (unfinished ts) as [|n]; [now split|].
    pose proof (pick_ok data w HJ) as HJ'.
    destruct (next_pick w) as [pick w1]. cbn [snd] in HJ'.
    destruct (step_pick_preserves ts (pick mod S n)%nat data w1 Hts HJ') as [H1 H2].
    destruct (step_pick _ pass ts data w1) as [[ts' data'] w']. cbn in H1, H2.
    now apply IH.
Qed.

End Lifting.

(** *** The fuel of the concurrent run is enough *)

Lemma remaining_finished t : remaining t = O <-> finished t = true.
Proof.
  unfold remaining, finished, steps_of. destruct (t_pc t); [|easy|easy].
  destruct (loops_too_big _); easy.
Qed.

Lemma task_step_remaining func t queue w :
  finished t = false ->
  (remaining (task_step (pass_of func) t (Some queue) w).1.1 < remaining t)%nat.
Proof.
  unfold task_step, remaining, finished.
  destruct (t_pc t) as [|i cnt|ret]; [| |discriminate]; intros _.
  - unfold worker_entry, steps_of, time_bench_start, read_clock.
    change (loops_too_big (set_step (t_rec t) (b2z (enq_CPU (t_cpu t)))))
      with (loops_too_big (t_rec t)).
    destruct (loops_too_big (t_rec t)); cbn; [lia|].
    rewrite Z.sub_0_r. lia.
  - pose proof (pass_cases func (t_cpu t) (t_rec t) queue i cnt w) as Hp.
    destruct (pass_of func _ _ _ _ _ _) as [[[p r] q] w']. cbn in Hp |- *.
    destruct Hp as [(Hlt & -> & ->)|(-> & -> & _)]; lia.
Qed.

Lemma unfinished_cons t ts :
  unfinished (t :: ts)
  = if finished t then unfinished ts else S (unfinished ts).
Proof. unfold unfinished. cbn. now destruct (finished t). Qed.

Lemma step_pick_some pass ts : forall k queue w,
  exists queue', (step_pick k pass ts (Some queue) w).1.2 = Some queue'.
Proof.
  induction ts as [|t ts IH]; intros k queue w; cbn [step_pick]; [now exists queue|].
  destruct (finished t); [|destruct k as [|k]].
  - destruct (IH k queue w) as (q' & H).
    destruct (step_pick k pass ts _ w) as [[? ?] ?]. now exists q'.
  - destruct (task_step_some pass t queue w) as (q' & H).
    destruct (task_step pass t _ w) as [[? ?] ?]. now exists q'.
  - destruct (IH k queue w) as (q' & H).
    destruct (step_pick k pass ts _ w) as [[? ?] ?]. now exists q'.
Qed.

Lemma total_remaining_cons t ts :
  total_remaining (t :: ts) = (remaining t + total_remaining ts)%nat.
Proof. reflexivity. Qed.

Lemma step_pick_decreases func ts : forall k queue w,
  (k < unfinished ts)%nat ->
  (total_remaining (step_pick k (pass_of func) ts (Some queue) w).1.1
   < total_remaining ts)%nat.
Proof.
  induction ts as [|t ts IH]; intros k queue w Hk; [cbn in Hk; lia|].
  rewrite unfinished_cons in Hk. cbn [step_pick].
  destruct (finished t) eqn:Ef.
  - specialize (IH k queue w Hk).
    destruct (step_pick k _ ts _ w) as [[? ?] ?]. cbn [fst] in *.
    rewrite !total_remaining_cons. lia.
  - destruct k as [|k].
    + pose proof (task_step_remaining func t queue w Ef) as H.
      destruct (task_step _ t _ w) as [[? ?] ?]. cbn [fst] in *.
      rewrite !total_remaining_cons. lia.
    + specialize (IH k queue w ltac:(lia)).
      destruct (step_pick k _ ts _ w) as [[? ?] ?]. cbn [fst] in *.
      rewrite !total_remaining_cons. lia.
Qed.

Lemma total_remaining_zero ts : total_remaining ts = O -> unfinished ts = O.
Proof.
  induction ts as [|t ts IH]; [reflexivity|].
  rewrite total_remaining_cons, unfinished_cons. intros H.
  assert (Ht : remaining t = O) by lia. apply remaining_finished in Ht as ->.
  apply IH. lia.
Qed.

(** Whatever the schedule, [total_remaining] steps take every worker to
    its return. *)
Lemma run_tasks_all_finished func fuel : forall ts queue w,
  (total_remaining ts <= fuel)%nat ->
  unfinished (run_tasks fuel (pass_of func) ts (Some queue) w).1.1 = O.
Proof.
  induction fuel as [|fuel IH]; intros ts queue w Hfuel; cbn [run_tasks].
  - apply total_remaining_zero. cbn [fst]. lia.
  - destruct (unfinished ts) as [|n] eqn:En; [exact En|].
    destruct (next_pick w) as [pick w1].
    assert (Hk : (pick mod S n < unfinished ts)%nat)
      by (rewrite En; apply Nat.mod_upper_bound; lia).
    pose proof (step_pick_decreases func ts _ queue w1 Hk) as Hd.
    destruct (step_pick_some (pass_of func) ts (pick mod S n)%nat queue w1) as (q' & Hq).
    destruct (step_pick _ _ ts _ w1) as [[ts' data'] w']. cbn [fst snd] in Hd, Hq.
    subst data'.
    apply IH. lia.
Qed.

Lemma unfinished_zero ts : unfinished ts = O -> Forall (fun t => finished t = true) ts.
Proof.
  induction ts as [|t ts IH]; [constructor|]. rewrite unfinished_cons.
  destruct (finished t) eqn:E; [|discriminate]. intros H. constructor; auto.
Qed.

End Run_facts.

(** ** The queue is first in, first out *)

(** C4 (as amended).  One producer and one consumer work on a freshly
    initialised queue, their calls interleaved in any order.  If no
    produced payload is NULL, the successful consumes return, in order,
    exactly the payloads of the first successful produces: what was
    produced is what was consumed followed by what the queue still holds.
    In particular the i-th successful consume returns the payload of the
    i-th successful produce, and there are never more consumes than
    produces. *)
Theorem fifo_order (size : Z) (ok : bool) (r0 : ptr_ring) (ops : list qop)
    (produced consumed : list ptr) (r : ptr_ring) :
  ptr_ring_init zeroed size ok = (r0, 0) ->
  (forall p, In (Produce p) ops -> p <> NULL) ->
  run_ops ops r0 = (produced, consumed, r) ->
  (exists rest, rep r rest /\ produced = consumed ++ rest) /\
  (length consumed <= length produced)%nat /\
  (forall i p, nth_error consumed i = Some p -> nth_error produced i = Some p).
Proof.
  intros Hinit Hnn Hrun.
  destruct (run_ops_rep ops r0 [] produced consumed r (rep_init _ _ _ _ Hinit) Hnn Hrun)
    as (rest & Hrep & Heq).
  cbn in Heq. subst produced. split; [eauto|]. split.
  - rewrite length_app. lia.
  - intros i p Hi. rewrite nth_error_app1; [assumption|].
    apply nth_error_Some. congruence.
Qed.

Lemma fifo_order_witness :
  let ops := [Produce 5; Produce 6; Consume; Produce 7; Produce 8; Consume] in
  let r0 := mk_ptr_ring 0 0 2 [NULL; NULL] in
  (run_ops ops r0).1 = ([5; 6; 7], [5; 6]) /\
  nth_error [5; 6; 7] 1 = Some 6.
Proof.
  intros ops r0. split; [reflexivity|].
  destruct (fifo_order 2 true r0 ops [5; 6; 7] [5; 6] (run_ops ops r0).2)
    as (_ & _ & H).
  - reflexivity.
  - intros p [E|[E|[E|[E|[E|[E|[]]]]]]]; inversion E; discriminate.
  - reflexivity.
  - exact (H 1%nat 6 eq_refl).
Defined.

(** C4 (as stated) fails when a NULL payload is produced: on a queue of one
    slot, producing NULL and then 7 both succeed, and the first successful
    consume returns 7, which is the second produce's payload, not the
    first's. *)
Lemma fifo_null_payload_counterexample :
  ~ (forall (size : Z) (r0 : ptr_ring) (ops : list qop)
            (produced consumed : list ptr) (r : ptr_ring),
       ptr_ring_init zeroed size true = (r0, 0) ->
       run_ops ops r0 = (produced, consumed, r) ->
       forall i p, nth_error consumed i = Some p -> nth_error produced i = Some p).
Proof.
  intros H.
  specialize (H 1 (mk_ptr_ring 0 0 1 [NULL]) [Produce NULL; Produce 7; Consume]
                [NULL; 7] [7] (mk_ptr_ring 0 0 1 [NULL]) eq_refl eq_refl
                0%nat 7 eq_refl).
  discriminate H.
Qed.

(** ** A worker called on its own *)

Section Worker_facts.

Implicit Types (t : task) (w : world) (data : data_t) (func : bench_func).

Lemma run_task_returned fuel pass t data w ret :
  t_pc t = Returned ret -> run_task fuel pass t data w = (t, data, w).
Proof. intros H. destruct fuel; cbn; [reflexivity|]. now rewrite H. Qed.

Lemma steps_of_pos rec : exists n, steps_of rec = S n.
Proof. unfold steps_of. destruct (loops_too_big rec); eauto. Qed.

(** A worker that returns from its entry code. *)
Lemma run_worker_turned_away pass cpu rec data w ret rec' w' :
  worker_entry cpu rec data w = (Returned ret, rec', w') ->
  run_worker pass cpu rec data w = (ret, rec', data, w').
Proof.
  intros H. unfold run_worker. destruct (steps_of_pos rec) as (n & ->).
  cbn [run_task t_pc]. unfold task_step. cbn [t_pc t_cpu t_rec]. rewrite H.
  now rewrite (run_task_returned n pass _ data w' ret).
Qed.

Lemma entry_null_queue cpu rec w :
  worker_entry cpu rec None w
  = (Returned 0, set_step rec (b2z (enq_CPU cpu)), pr_err Need_queue_ptr w).
Proof. reflexivity. Qed.

Lemma entry_guard_tripped cpu rec queue w :
  loops_too_big rec = true ->
  worker_entry cpu rec (Some queue) w
  = (Returned 0, set_step rec (b2z (enq_CPU cpu)), pr_err Loop_cnt_too_big w).
Proof.
  intros H. unfold worker_entry.
  change (loops_too_big (set_step rec (b2z (enq_CPU cpu)))) with (loops_too_big rec).
  now rewrite H.
Qed.


(** The role tag is set by the entry code and kept by every later step. *)
Lemma task_step_role func t data w :
  t_pc t = Entry \/ rec_step (t_rec t) = b2z (enq_CPU (t_cpu t)) ->
  let t' := (task_step (pass_of func) t data w).1.1 in
  (t_pc t = Entry -> t_pc t' <> Entry) /\
  (t_pc t' = Entry \/ rec_step (t_rec t') = b2z (enq_CPU (t_cpu t'))).
Proof.
  intros H. unfold task_step.
  destruct (t_pc t) as [|i cnt|ret] eqn:Epc.
  - unfold worker_entry, time_bench_start, read_clock.
    destruct data; [destruct (loops_too_big _)|]; cbn; split; auto; discriminate.
  - destruct H as [H|H]; [discriminate|]. split; [discriminate|].
    destruct data as [queue|]; [|cbn; now right].
    pose proof (pass_cases func (t_cpu t) (t_rec t) queue i cnt w) as Hp.
    destruct (pass_of func _ _ _ _ _ _) as [[[p r] q] w']. cbn in Hp |- *.
    destruct Hp as [(_ & -> & ->)|(-> & -> & _)]; right; assumption.
  - destruct H as [H|H]; [discriminate|]. split; [discriminate|]. cbn. now right.
Qed.


(** The fuel of [run_worker] is enough: the worker has returned. *)
Lemma run_task_returns func fuel : forall t data w,
  (t_pc t = Entry \/ data <> None) ->
  (remaining t <= fuel)%nat ->
  finished (run_task fuel (pass_of func) t data w).1.1 = true.
Proof.
  induction fuel as [|fuel IH]; intros t data w Hd Hfuel; cbn [run_task].
  - apply remaining_finished. cbn [fst]. lia.
  - destruct (finished t) eqn:Ef.
    { pose proof Ef as Ef'. unfold finished in Ef'.
      destruct (t_pc t); try discriminate. exact Ef. }
    assert (Hstep : (remaining (task_step (pass_of func) t data w).1.1 < remaining t)%nat
                    /\ ((task_step (pass_of func) t data w).1.2 <> None
                        \/ finished (task_step (pass_of func) t data w).1.1 = true)).
    { destruct data as [queue|].
      - split; [now apply task_step_remaining|]. left.
        destruct (task_step_some (pass_of func) t queue w) as (q' & ->). discriminate.
      - destruct Hd as [Hpc|Hd]; [|contradiction].
        unfold task_step, remaining, steps_of. rewrite Hpc.
        rewrite entry_null_queue. cbn.
        split; [destruct (loops_too_big _); lia|now right]. }
    destruct Hstep as [Hlt Hd'].
    assert (Hgo : run_task (S fuel) (pass_of func) t data w
                  = run_task fuel (pass_of func)
                      (task_step (pass_of func) t data w).1.1
                      (task_step (pass_of func) t data w).1.2
                      (task_step (pass_of func) t data w).2).
    { cbn [run_task]. unfold finished in Ef.
      destruct (t_pc t); try discriminate;
        now destruct (task_step (pass_of func) t data w) as [[? ?] ?]. }
    cbn [run_task] in Hgo. rewrite Hgo.
    destruct Hd' as [Hd'|Hfin].
    + apply IH; [now right|lia].
    + unfold finished in Hfin.
      destruct (t_pc (task_step (pass_of func) t data w).1.1) eqn:E;
        try discriminate.
      rewrite (run_task_returned fuel _ _ _ _ ret E). cbn [fst].
      unfold finished. now rewrite E.
Qed.

Lemma run_worker_returns func cpu rec data w :
  finished (run_task (steps_of rec) (pass_of func) (mk_task cpu Entry rec)
              data w).1.1 = true.
Proof. apply run_task_returns; [now left|reflexivity]. Qed.



End Worker_facts.

(** C9.  Called with a NULL queue pointer, either cross-CPU worker returns
    0 at once: it has only tagged the record with its role and logged the
    error.  No start timestamp is taken (the record's timestamps and the
    clock are as before) and no queue operation or allocation is made. *)
Theorem null_queue_returns_zero (func : bench_func) (cpu : Z)
    (rec : time_bench_record) (w : world) :
  run_worker (pass_of func) cpu rec None w
  = (0, set_step rec (b2z (enq_CPU cpu)), None, pr_err Need_queue_ptr w).
Proof.
  apply run_worker_turned_away, entry_null_queue.
Qed.

(** ** Scenarios *)

Section Scenario_facts.

Implicit Types (t : task) (w : world) (data : data_t) (func : bench_func).

Lemma spawn_world_trace cpumask : forall w,
  w_trace (foldl (fun w cpu => emit (Ev_kthread_run cpu) w) w cpumask)
  = rev (map Ev_kthread_run cpumask) ++ w_trace w.
Proof.
  induction cpumask as [|cpu rest IH]; intros w; cbn [foldl map rev]; [reflexivity|].
  rewrite IH, <- app_assoc. reflexivity.
Qed.

Lemma spawn_world_adds cpumask w :
  adds (fun _ => True) w (foldl (fun w cpu => emit (Ev_kthread_run cpu) w) w cpumask).
Proof. apply adds_foldl. intros. now apply adds_emit. Qed.

Lemma spawned_split tr1 tr2 : spawned (tr1 ++ tr2) = spawned tr1 ++ spawned tr2.
Proof.
  induction tr1 as [|e tr1 IH]; [reflexivity|].
  destruct e; cbn; try assumption. now rewrite IH.
Qed.

Lemma spawned_kthread_run (cpus : list Z) : spawned (map Ev_kthread_run cpus) = cpus.
Proof. induction cpus as [|c l IH]; cbn; [reflexivity|now rewrite IH]. Qed.

Lemma spawned_spawn_world cpumask w :
  spawned (w_trace (foldl (fun w cpu => emit (Ev_kthread_run cpu) w) w cpumask))
  = rev cpumask ++ spawned (w_trace w).
Proof.
  now rewrite spawn_world_trace, spawned_split, <- map_rev, spawned_kthread_run.
Qed.

(** What the concurrent phase keeps: a property of the workers and of the
    shared queue that every step keeps holds when all have returned. *)
Lemma run_concurrent_preserves pass (I : task -> Prop) (J : data_t -> world -> Prop)
    loops step data cpumask w :
  (forall t data w, I t -> J data w ->
     I (task_step pass t data w).1.1 /\
     J (task_step pass t data w).1.2 (task_step pass t data w).2) ->
  (forall data w, J data w -> J data (next_pick w).2) ->
  Forall I (spawn cpumask loops step w).1 ->
  J data (spawn cpumask loops step w).2 ->
  let out := time_bench_run_concurrent loops step data cpumask pass w in
  Forall I out.1.1 /\ J out.1.2 out.2.
Proof.
  intros Hstep Hpick HI HJ. unfold time_bench_run_concurrent.
  destruct (spawn cpumask loops step w) as [ts w1]. cbn [fst snd] in HI, HJ.
  now apply run_tasks_preserves.
Qed.

(** Every worker of a concurrent run returns, under every schedule. *)
Lemma run_concurrent_all_finished func loops step queue cpumask w :
  Forall (fun t => finished t = true)
    (time_bench_run_concurrent loops step (Some queue) cpumask (pass_of func) w).1.1.
Proof.
  unfold time_bench_run_concurrent.
  destruct (spawn cpumask loops step w) as [ts w1].
  apply unfinished_zero, run_tasks_all_finished. lia.
Qed.

(** ... and stands as [task_inv] says. *)
Lemma run_concurrent_returns func loops step queue cpumask w :
  0 <= loops < 2 ^ 32 ->
  Forall (fun t => finished t = true /\ task_inv t)
    (time_bench_run_concurrent loops step (Some queue) cpumask (pass_of func) w).1.1.
Proof.
  intros Hl. apply Forall_and. split; [apply run_concurrent_all_finished|].
  destruct (run_concurrent_preserves (pass_of func) task_inv (fun _ _ => True)
              loops step (Some queue) cpumask w) as [Hinv _]; auto.
  - intros t data w' Ht _. split; [|exact I]. now apply task_step_inv.
  - rewrite spawn_spec. cbn [fst]. apply Forall_map, Forall_forall.
    intros c _. unfold task_inv. cbn. auto.
Qed.

(** ... with the role of its CPU in its record, whatever step the runner
    was given. *)
Lemma run_concurrent_roles func loops step queue cpumask w :
  Forall (fun t => rec_step (t_rec t) = b2z (enq_CPU (t_cpu t)))
    (time_bench_run_concurrent loops step (Some queue) cpumask (pass_of func) w).1.1.
Proof.
  pose proof (run_concurrent_all_finished func loops step queue cpumask w) as Hfin.
  destruct (run_concurrent_preserves (pass_of func)
              (fun t => t_pc t = Entry \/ rec_step (t_rec t) = b2z (enq_CPU (t_cpu t)))
              (fun _ _ => True) loops step (Some queue) cpumask w) as [Hinv _]; auto.
  - intros t data w' Ht _. split; [|exact I]. now apply task_step_role.
  - rewrite spawn_spec. cbn [fst]. apply Forall_map, Forall_forall.
    intros c _. now left.
  - cbv zeta in Hinv. rewrite Forall_forall in *. intros t Ht.
    specialize (Hfin t Ht). destruct (Hinv t Ht) as [E|E]; [|exact E].
    unfold finished in Hfin. rewrite E in Hfin. discriminate.
Qed.

Lemma run_concurrent_adds func loops step data cpumask w :
  adds (worker_event func)
    (foldl (fun w cpu => emit (Ev_kthread_run cpu) w) w cpumask)
    (time_bench_run_concurrent loops step data cpumask (pass_of func) w).2.
Proof.
  unfold time_bench_run_concurrent. rewrite spawn_spec. apply adds_run_tasks.
Qed.

Lemma run_parallel_adds func d loops cpumask step data w :
  adds (worker_event func)
    (foldl (fun w cpu => emit (Ev_kthread_run cpu) w) w cpumask)
    (run_parallel d loops cpumask step data (pass_of func) w).2.
Proof.
  unfold run_parallel.
  pose proof (run_concurrent_adds func loops step data cpumask w) as H.
  destruct (time_bench_run_concurrent _ _ _ _ _ _) as [[ts data'] w1]. cbn [snd] in *.
  eapply adds_trans; [exact H|].
  eapply adds_weaken; [apply is_log_worker_event|apply adds_print_cpumask].
Qed.

Lemma run_parallel_data func d loops cpumask step data w :
  (run_parallel d loops cpumask step data (pass_of func) w).1
  = (time_bench_run_concurrent loops step data cpumask (pass_of func) w).1.2.
Proof.
  unfold run_parallel.
  now destruct (time_bench_run_concurrent _ _ _ _ _ _) as [[ts data'] w1].
Qed.

Lemma worker_event_no_spawn func e : worker_event func e -> no_spawn e.
Proof. destruct func, e; cbn; tauto. Qed.

Lemma prefill_event_no_spawn (fake_ptr : bool) e :
  (if fake_ptr then is_log else is_log_or_alloc) e -> no_spawn e.
Proof. destruct fake_ptr, e; cbn; tauto. Qed.

(** Workers are spawned exactly when [init_queue] has succeeded, one on
    CPU 0 and one on CPU 1. *)
Lemma cross_cpu_run_spawned d func (fake_ptr : bool) loops q_size prefill w :
  spawned (w_trace (cross_cpu_run d func fake_ptr loops q_size prefill w).2)
  = if (init_queue zeroed q_size prefill fake_ptr (emit Ev_kzalloc_queue w)).1.1
    then 1 :: 0 :: spawned (w_trace w)
    else spawned (w_trace w).
Proof.
  unfold cross_cpu_run.
  pose proof (adds_init_queue zeroed q_size prefill fake_ptr (emit Ev_kzalloc_queue w))
    as Hi.
  apply (adds_weaken _ no_spawn) in Hi; [|apply prefill_event_no_spawn].
  apply adds_spawned in Hi.
  destruct (init_queue _ _ _ _ _) as [[ok queue] w1]. cbn [fst snd] in *.
  change (spawned (w_trace (emit Ev_kzalloc_queue w))) with (spawned (w_trace w)) in Hi.
  destruct ok; [|exact Hi].
  pose proof (run_parallel_adds func d loops cpumask01 0 (Some queue) w1) as Hp.
  apply (adds_weaken _ no_spawn) in Hp; [|apply worker_event_no_spawn].
  apply adds_spawned in Hp. rewrite spawned_spawn_world in Hp.
  destruct (run_parallel _ _ _ _ _ _ _) as [data' w2]. cbn [snd] in *.
  rewrite Hp, Hi. reflexivity.
Qed.

(** When the guard on the loop count trips, no worker touches the queue,
    whatever the schedule: at the label [fail:] the queue is as
    [init_queue] left it. *)
Lemma guard_keeps_queue d func (fake_ptr : bool) loops q_size prefill w :
  0 <= loops < 2 ^ 32 -> 2 ^ 32 - 1 <= loops * 2 ->
  (cross_cpu_run d func fake_ptr loops q_size prefill w).1
  = (init_queue zeroed q_size prefill fake_ptr (emit Ev_kzalloc_queue w)).1.2.
Proof.
  intros Hl Hbig. unfold cross_cpu_run.
  destruct (init_queue _ _ _ _ _) as [[ok queue] w1]. cbn [fst snd].
  destruct ok; [|reflexivity].
  rewrite (surjective_pairing (run_parallel _ _ _ _ _ _ _)). cbn [fst].
  rewrite run_parallel_data.
  destruct (run_concurrent_preserves (pass_of func)
    (fun t => rec_loops (t_rec t) = loops /\ (t_pc t = Entry \/ t_pc t = Returned 0))
    (fun data _ => data = Some queue) loops 0 (Some queue) cpumask01 w1)
    as (_ & ->); try reflexivity.
  - intros t data w' [Hloops Hpc] ->. unfold task_step.
    destruct Hpc as [Hpc|Hpc]; rewrite Hpc; [|cbn; auto].
    rewrite entry_guard_tripped.
    + cbn. auto.
    + apply guard_tripped; rewrite Hloops; lia.
  - auto.
  - rewrite spawn_spec. cbn. repeat constructor; cbn; auto.
Qed.

End Scenario_facts.

(** ** Roles *)


(** ** The guard on the loop count *)

(** C1 (as amended).  When the loop count times 2 reaches 2^32 - 1, the run
    is turned away by each worker at its own guard, not before the workers
    are spawned: (1) a worker called with such a count and a queue logs the
    error and returns 0, having only tagged its record with its role: no
    timestamp is taken, the queue is not touched and nothing is allocated;
    (2) so under every schedule the queue reaches the teardown as
    [init_queue] left it; (3) the workers have been spawned all the same,
    on CPU 0 and CPU 1, whenever [init_queue] succeeded. *)
Theorem loop_count_guard (func : bench_func) (loops : Z) :
  0 <= loops < 2 ^ 32 -> 2 ^ 32 - 1 <= loops * 2 ->
  (forall cpu rec queue w, rec_loops rec = loops ->
     run_worker (pass_of func) cpu rec (Some queue) w
     = (0, set_step rec (b2z (enq_CPU cpu)), Some queue,
        pr_err Loop_cnt_too_big w)) /\
  (forall d fake_ptr q_size prefill w,
     (cross_cpu_run d func fake_ptr loops q_size prefill w).1
     = (init_queue zeroed q_size prefill fake_ptr (emit Ev_kzalloc_queue w)).1.2) /\
  (forall d fake_ptr q_size prefill w,
     spawned (w_trace (cross_cpu_run d func fake_ptr loops q_size prefill w).2)
     = if (init_queue zeroed q_size prefill fake_ptr (emit Ev_kzalloc_queue w)).1.1
       then 1 :: 0 :: spawned (w_trace w)
       else spawned (w_trace w)).
Proof.
  intros Hl Hbig. split; [|split].
  - intros cpu rec queue w Hloops.
    apply run_worker_turned_away, entry_guard_tripped.
    apply guard_tripped; rewrite Hloops; lia.
  - intros. now apply guard_keeps_queue.
  - intros. apply cross_cpu_run_spawned.
Qed.

Lemma loop_count_guard_witness :
  run_worker (pass_of Time_cross_cpu_ptr_ring) 0
    (mk_record (2 ^ 31) 0 0 None None)
    (Some (mk_ptr_ring 2 0 4 [42; 42; NULL; NULL])) example_world
  = (0, mk_record (2 ^ 31) 1 0 None None,
     Some (mk_ptr_ring 2 0 4 [42; 42; NULL; NULL]),
     pr_err Loop_cnt_too_big example_world).
Proof.
  destruct (loop_count_guard Time_cross_cpu_ptr_ring (2 ^ 31)) as (H & _ & _);
    [lia | lia |].
  apply H. reflexivity.
Defined.

(** C1 (as stated) fails: with [loops] = 2^31 the baseline scenario has
    built and prefilled its queue and spawned both workers before the guard
    is met. *)
Lemma loop_count_guard_counterexample :
  ~ (forall run_flags loops q_size prefill w,
       0 <= loops < 2 ^ 32 -> 2 ^ 32 - 1 <= loops * 2 ->
       spawned (w_trace (run_bench_baseline_ptr_ring_cross_cpu
                           run_flags loops q_size prefill w))
       = spawned (w_trace w)).
Proof.
  intros H.
  specialize (H (2 ^ 32 - 1) (2 ^ 31) 4 2 example_world ltac:(lia) ltac:(lia)).
  vm_compute in H. discriminate H.
Qed.

(** ** Building and tearing down the queue *)

Section Queue_lifecycle.

Implicit Types (w : world) (r queue : ptr_ring) (l : list ptr).

Lemma rep_zeroed : rep zeroed [].
Proof.
  unfold rep, zeroed; cbn.
  split; [lia|]. split; [reflexivity|]. split; [lia|]. split; [auto|].
  split; [lia|]. split; [constructor|]. split; [reflexivity|]. intros k Hk. lia.
Qed.

Lemma produce_size r p : r_size (ptr_ring_produce r p).1 = r_size r.
Proof. unfold ptr_ring_produce. now destruct (_ || _). Qed.

(** Every round of the prefill puts a payload that is not NULL. *)
Lemma prefill_loop_rep n : forall queue l q_size prefill (fake_ptr : bool) w,
  rep queue l ->
  exists l', rep (prefill_loop n queue q_size prefill fake_ptr w).1.2 l'.
Proof.
  induction n as [|n IH]; intros queue l q_size prefill fake_ptr w Hrep;
    cbn [prefill_loop]; [eauto|].
  destruct fake_ptr; cbn [negb andb].
  - destruct (produce_rep queue l fake_ptr_page Hrep ltac:(discriminate)) as (l' & H).
    destruct (ptr_ring_produce queue fake_ptr_page) as [q rc]. cbn [fst] in H.
    destruct (rc <? 0); [eauto|]. eapply IH; eauto.
  - destruct (alloc_pages w) as [page w1].
    destruct (Z.eqb_spec page NULL) as [|Hp]; [eauto|].
    destruct (produce_rep queue l page Hrep Hp) as (l' & H).
    destruct (ptr_ring_produce queue page) as [q rc]. cbn [fst] in H.
    destruct (rc <? 0); [eauto|]. eapply IH; eauto.
Qed.

(** A prefill that succeeds has found room for every payload. *)
Lemma prefill_loop_true n : forall queue l q_size prefill (fake_ptr : bool) w,
  rep queue l ->
  (prefill_loop n queue q_size prefill fake_ptr w).1.1 = true ->
  Z.of_nat (length l) + Z.of_nat n <= r_size queue.
Proof.
  induction n as [|n IH]; intros queue l q_size prefill fake_ptr w Hrep;
    cbn [prefill_loop].
  - intros _. destruct Hrep as (_ & _ & _ & _ & ? & _). lia.
  - set (pw := if fake_ptr then (fake_ptr_page, w) else alloc_pages w).
    destruct pw as [page w1] eqn:Epw.
    destruct (negb fake_ptr && (page =? NULL)) eqn:Enull; [discriminate|].
    assert (Hp : page <> NULL).
    { destruct fake_ptr; cbn in Enull, Epw.
      - injection Epw as <- _. discriminate.
      - now apply Z.eqb_neq. }
    pose proof (rep_produce queue l page Hrep Hp) as Hprod.
    destruct (Z.ltb_spec (Z.of_nat (length l)) (r_size queue)) as [Hlt|Hge].
    + destruct Hprod as (r' & Hr' & Hrep'). rewrite Hr'.
      change (0 <? 0) with false. cbv iota.
      intros H. apply (IH _ _ _ _ _ _ Hrep') in H.
      assert (Hsz : r_size r' = r_size queue)
        by (rewrite <- (produce_size queue page), Hr'; reflexivity).
      rewrite length_app in H. cbn [length] in H. lia.
    + rewrite Hprod. cbn. discriminate.
Qed.

(** With room for every payload and pages to be had, the prefill
    succeeds. *)
Lemma prefill_loop_ok n : forall queue l q_size prefill (fake_ptr : bool) w,
  rep queue l ->
  (fake_ptr = false -> alloc_never_fails w) ->
  Z.of_nat (length l) + Z.of_nat n <= r_size queue ->
  (prefill_loop n queue q_size prefill fake_ptr w).1.1 = true.
Proof.
  induction n as [|n IH]; intros queue l q_size prefill fake_ptr w Hrep Hnn Hroom;
    cbn [prefill_loop]; [reflexivity|].
  assert (Hpw : exists page w1,
             (if fake_ptr then (fake_ptr_page, w) else alloc_pages w) = (page, w1)
             /\ page <> NULL /\ (fake_ptr = false -> alloc_never_fails w1)).
  { destruct fake_ptr.
    - exists fake_ptr_page, w. repeat split; [discriminate|assumption].
    - exists (alloc_pages w).1, (alloc_pages w).2. split; [now destruct (alloc_pages w)|].
      split; [apply (Hnn eq_refl)|]. intros _ k. apply (Hnn eq_refl). }
  destruct Hpw as (page & w1 & -> & Hp & Hnn1).
  destruct (Z.eqb_spec page NULL); [contradiction|]. rewrite andb_false_r.
  pose proof (rep_produce queue l page Hrep Hp) as Hprod.
  destruct (Z.ltb_spec (Z.of_nat (length l)) (r_size queue)); [|lia].
  destruct Hprod as (r' & Hr' & Hrep'). rewrite Hr'.
  change (0 <? 0) with false. cbv iota.
  apply (IH _ _ _ _ _ _ Hrep' Hnn1).
  assert (Hsz : r_size r' = r_size queue)
    by (rewrite <- (produce_size queue page), Hr'; reflexivity).
  rewrite length_app. cbn [length]. lia.
Qed.

Lemma init_queue_rep q_size prefill (fake_ptr : bool) w :
  exists l, rep (init_queue zeroed q_size prefill fake_ptr w).1.2 l.
Proof.
  unfold init_queue.
  destruct (ptr_ring_init zeroed q_size (w_kmalloc_ok w q_size)) as [r rc] eqn:E.
  assert (Hr : rc = 0 /\ rep r [] \/ rc = - ENOMEM /\ r = zeroed).
  { pose proof (rep_init q_size (w_kmalloc_ok w q_size) zeroed r) as Hi.
    unfold ptr_ring_init in E, Hi. destruct (_ && _).
    - injection E as <- <-. left. split; [reflexivity|]. now apply Hi.
    - injection E as <- <-. now right. }
  destruct Hr as [[-> Hrep]|[-> ->]].
  - change (0 <? 0) with false. cbv iota. now apply (prefill_loop_rep _ _ []).
  - cbn. exists []. apply rep_zeroed.
Qed.

(** [init_queue] fails whenever more payloads are to be prefilled than
    the queue has slots. *)
Lemma init_queue_too_many q_size prefill (fake_ptr : bool) w :
  q_size < prefill -> (init_queue zeroed q_size prefill fake_ptr w).1.1 = false.
Proof.
  intros Hlt. unfold init_queue.
  destruct (ptr_ring_init zeroed q_size (w_kmalloc_ok w q_size)) as [r rc] eqn:E.
  unfold ptr_ring_init in E. destruct (Z.leb_spec 0 q_size) as [Hq|Hq]; cbn [andb] in E.
  - destruct (w_kmalloc_ok w q_size); injection E as <- <-; [|reflexivity].
    change (0 <? 0) with false. cbv iota.
    destruct (prefill_loop _ _ _ _ _ _).1.1 eqn:Eok; [|reflexivity].
    apply (prefill_loop_true _ _ []) in Eok.
    + cbn in Eok. lia.
    + eapply (rep_init q_size true zeroed). unfold ptr_ring_init.
      destruct (Z.leb_spec 0 q_size); [reflexivity|lia].
  - injection E as <- <-. reflexivity.
Qed.

(** [init_queue] succeeds when the payloads fit, the slot array can be
    allocated and pages are to be had. *)
Lemma init_queue_fits q_size prefill (fake_ptr : bool) w :
  0 <= q_size -> w_kmalloc_ok w q_size = true ->
  (fake_ptr = false -> alloc_never_fails w) ->
  prefill <= q_size ->
  (init_queue zeroed q_size prefill fake_ptr w).1.1 = true.
Proof.
  intros Hq Hk Hnn Hle. unfold init_queue, ptr_ring_init. rewrite Hk.
  destruct (Z.leb_spec 0 q_size); [|lia]. cbn [andb].
  change (0 <? 0) with false. cbv iota.
  apply (prefill_loop_ok _ _ []); [|assumption|cbn; lia].
  eapply (rep_init q_size true zeroed). unfold ptr_ring_init.
  destruct (Z.leb_spec 0 q_size); [reflexivity|lia].
Qed.

(** *** Teardown *)

Lemma trace_emit e w : w_trace (emit e w) = e :: w_trace w.
Proof. reflexivity. Qed.

Lemma released_trace l : forall w,
  w_trace (foldl (fun w p => destructor_put_page p w) w l)
  = map Ev_put_page (rev l) ++ w_trace w.
Proof.
  induction l as [|p l IH]; intros w; cbn [foldl rev]; [reflexivity|].
  rewrite IH, map_app, <- app_assoc. reflexivity.
Qed.

(** Tearing down a queue that holds [l] with the page destructor puts
    every page of [l], oldest first, then frees the slot array and the
    queue. *)
Lemma teardown_put_page queue l w :
  rep queue l ->
  w_trace (cross_cpu_teardown (Some destructor_put_page) queue w)
  = Ev_kfree_queue :: Ev_kfree_slots :: map Ev_put_page (rev l) ++ w_trace w.
Proof.
  intros Hrep. unfold cross_cpu_teardown, ptr_ring_cleanup.
  destruct (drain_rep destructor_put_page (length (r_queue queue)) queue l w Hrep
              (rep_length_le _ _ Hrep)) as (r' & -> & _).
  cbn [snd]. rewrite !trace_emit. now rewrite released_trace.
Qed.

Lemma teardown_no_destructor queue w :
  w_trace (cross_cpu_teardown None queue w)
  = Ev_kfree_queue :: Ev_kfree_slots :: w_trace w.
Proof. reflexivity. Qed.

Lemma drain_adds P fuel : forall r w,
  (forall p, P (Ev_put_page p)) ->
  adds P w (drain fuel destructor_put_page r w).2.
Proof.
  induction fuel as [|fuel IH]; intros r w HP; cbn [drain]; [apply adds_refl|].
  destruct (ptr_ring_consume r) as [r' p].
  destruct (p =? NULL); [apply adds_refl|].
  eapply adds_trans; [apply adds_emit, HP|now apply IH].
Qed.

Lemma teardown_adds func queue w :
  adds no_spawn w (cross_cpu_teardown (destroy_of func) queue w).
Proof.
  unfold cross_cpu_teardown, ptr_ring_cleanup. destruct func; cbn [destroy_of].
  - eapply adds_trans; now apply adds_emit.
  - pose proof (drain_adds no_spawn (length (r_queue queue)) queue w (fun _ => I)) as H.
    destruct (drain _ _ _ _) as [r' w']. cbn [snd] in *.
    eapply adds_trans; [exact H|]. eapply adds_trans; now apply adds_emit.
Qed.

Lemma teardown_trace func queue w :
  exists evs,
    w_trace (cross_cpu_teardown (destroy_of func) queue w)
    = Ev_kfree_queue :: evs ++ w_trace w.
Proof.
  unfold cross_cpu_teardown, ptr_ring_cleanup. destruct func; cbn [destroy_of].
  - now exists [Ev_kfree_slots].
  - pose proof (drain_adds (fun _ => True) (length (r_queue queue)) queue w (fun _ => I))
      as ((evs & H & _) & _).
    destruct (drain _ _ _ _) as [r' w']. cbn [snd] in *.
    exists (Ev_kfree_slots :: evs). rewrite !trace_emit, H. reflexivity.
Qed.

(** *** From [kzalloc] to the label [fail:] *)

Lemma cross_cpu_run_adds (P : event -> Prop) d func (fake_ptr : bool)
    loops q_size prefill w :
  (forall e, worker_event func e -> P e) ->
  (forall e, (if fake_ptr then is_log else is_log_or_alloc) e -> P e) ->
  (forall cpu, P (Ev_kthread_run cpu)) ->
  adds P (emit Ev_kzalloc_queue w)
    (cross_cpu_run d func fake_ptr loops q_size prefill w).2.
Proof.
  intros Hw Hi Hs. unfold cross_cpu_run.
  pose proof (adds_init_queue zeroed q_size prefill fake_ptr (emit Ev_kzalloc_queue w))
    as Hinit.
  apply (adds_weaken _ P _ _ Hi) in Hinit.
  destruct (init_queue _ _ _ _ _) as [[ok queue] w1]. cbn [snd] in Hinit.
  destruct ok; [|exact Hinit].
  pose proof (run_parallel_adds func d loops cpumask01 0 (Some queue) w1) as Hp.
  apply (adds_weaken _ P _ _ Hw) in Hp.
  destruct (run_parallel _ _ _ _ _ _ _) as [data' w2]. cbn [snd] in *.
  eapply adds_trans; [exact Hinit|].
  eapply adds_trans; [|exact Hp].
  apply adds_foldl. intros. apply adds_emit, Hs.
Qed.

(** With pages to be had, the queue is a queue when the teardown meets
    it, whatever the schedule. *)
Lemma cross_cpu_run_rep d func (fake_ptr : bool) loops q_size prefill w :
  (func = Time_cross_cpu_page_alloc_put -> alloc_never_fails w) ->
  exists l, rep (cross_cpu_run d func fake_ptr loops q_size prefill w).1 l.
Proof.
  intros Hnn. unfold cross_cpu_run.
  pose proof (adds_init_queue zeroed q_size prefill fake_ptr (emit Ev_kzalloc_queue w))
    as Hinit.
  destruct (init_queue_rep q_size prefill fake_ptr (emit Ev_kzalloc_queue w))
    as (l & Hrep).
  destruct (init_queue _ _ _ _ _) as [[ok queue] w1]. cbn [fst snd] in *.
  destruct ok; [|eauto].
  rewrite (surjective_pairing (run_parallel _ _ _ _ _ _ _)). cbn [fst].
  rewrite run_parallel_data.
  assert (Hnn1 : func = Time_cross_cpu_page_alloc_put -> alloc_never_fails w1).
  { intros E. eapply adds_never_fails; [exact Hinit|]. exact (Hnn E). }
  set (ws := foldl (fun w cpu => emit (Ev_kthread_run cpu) w) w1 cpumask01).
  assert (Hnns : func = Time_cross_cpu_page_alloc_put -> alloc_never_fails ws).
  { intros E. eapply adds_never_fails; [apply spawn_world_adds|]. exact (Hnn1 E). }
  destruct (run_concurrent_preserves (pass_of func) (fun _ => True)
              (shared_inv func ws) loops 0 (Some queue) cpumask01 w1)
    as (_ & (q' & l' & -> & Hrep') & _).
  - intros t data w2 _ HJ. split; [exact I|]. now apply task_step_shared.
  - intros data w2 [HJ1 HJ2]. split; [exact HJ1|].
    eapply adds_trans; [exact HJ2|apply adds_pick].
  - rewrite spawn_spec. cbn. repeat constructor.
  - rewrite spawn_spec. cbn [snd]. split; [eauto|]. apply adds_refl.
  - cbn. eauto.
Qed.

Lemma scenario_unfold func run_flags loops q_size prefill w :
  scenario func run_flags loops q_size prefill w
  = if run_enabled run_flags (bit_of func)
    then cross_cpu_body (description_of func) func (fake_ptr_of func)
           (destroy_of func) loops q_size prefill w
    else w.
Proof. now destruct func. Qed.

Lemma body_unfold d func (fake_ptr : bool) destroy loops q_size prefill w :
  cross_cpu_body d func fake_ptr destroy loops q_size prefill w
  = cross_cpu_teardown destroy
      (cross_cpu_run d func fake_ptr loops q_size prefill w).1
      (cross_cpu_run d func fake_ptr loops q_size prefill w).2.
Proof. unfold cross_cpu_body. now destruct (cross_cpu_run _ _ _ _ _ _ _). Qed.

(** A scenario that is enabled runs from the [kzalloc] of its queue to the
    [kfree] of it, in whatever world it is started. *)
Lemma scenario_runs func run_flags loops q_size prefill w :
  run_enabled run_flags (bit_of func) = true ->
  exists evs,
    w_trace (scenario func run_flags loops q_size prefill w)
    = Ev_kfree_queue :: evs ++ Ev_kzalloc_queue :: w_trace w.
Proof.
  intros Hen. rewrite scenario_unfold, Hen, body_unfold.
  destruct (cross_cpu_run_adds (fun _ => True) (description_of func) func
              (fake_ptr_of func) loops q_size prefill w) as ((evs & Hr & _) & _); auto.
  destruct (teardown_trace func
              (cross_cpu_run (description_of func) func (fake_ptr_of func)
                 loops q_size prefill w).1
              (cross_cpu_run (description_of func) func (fake_ptr_of func)
                 loops q_size prefill w).2) as (evs' & Ht).
  exists (evs' ++ evs). rewrite Ht, Hr, trace_emit, <- app_assoc. reflexivity.
Qed.

(** Workers are spawned by a scenario exactly when it is enabled and its
    [init_queue] succeeds. *)
Lemma scenario_spawned func run_flags loops q_size prefill w :
  spawned (w_trace (scenario func run_flags loops q_size prefill w))
  = if run_enabled run_flags (bit_of func)
       && (init_queue zeroed q_size prefill (fake_ptr_of func)
             (emit Ev_kzalloc_queue w)).1.1
    then 1 :: 0 :: spawned (w_trace w)
    else spawned (w_trace w).
Proof.
  rewrite scenario_unfold. destruct (run_enabled _ _); [|reflexivity].
  rewrite body_unfold, (adds_spawned _ _ (teardown_adds func _ _)).
  apply cross_cpu_run_spawned.
Qed.

End Queue_lifecycle.

(** ** The release callback *)

Lemma baseline_never_releases (run_flags loops q_size prefill : Z) (w : world) :
  released (w_trace (run_bench_baseline_ptr_ring_cross_cpu
                       run_flags loops q_size prefill w))
  = released (w_trace w).
Proof.
  unfold run_bench_baseline_ptr_ring_cross_cpu.
  destruct (run_enabled _ _); [|reflexivity].
  rewrite body_unfold, teardown_no_destructor. cbn [released].
  rewrite (adds_released (emit Ev_kzalloc_queue w)); [reflexivity|].
  apply cross_cpu_run_adds.
  - intros []; cbn; tauto.
  - intros []; cbn; tauto.
  - intros cpu. exact I.
Qed.

(** ** The run_flags gate *)

Section Gate_facts.

Implicit Types (w : world).

Lemma run_enabled_testbit (run_flags b : Z) :
  0 <= b -> run_enabled run_flags b = Z.testbit run_flags b.
Proof.
  intros Hb. unfold run_enabled, bit. rewrite Z.shiftl_1_l.
  assert (Hland : Z.land run_flags (2 ^ b)
                  = if Z.testbit run_flags b then 2 ^ b else 0).
  { apply Z.bits_inj'. intros n Hn.
    rewrite Z.land_spec, Z.pow2_bits_eqb by assumption.
    destruct (Z.eqb_spec b n) as [->|Hne].
    - destruct (Z.testbit run_flags n) eqn:E; cbn.
      + now rewrite Z.pow2_bits_eqb, Z.eqb_refl.
      + now rewrite Z.bits_0.
    - rewrite andb_false_r. destruct (Z.testbit run_flags b).
      + rewrite Z.pow2_bits_eqb by assumption. symmetry. now apply Z.eqb_neq.
      + now rewrite Z.bits_0. }
  rewrite Hland. destruct (Z.testbit run_flags b); [|reflexivity].
  assert (0 < 2 ^ b) by (apply Z.pow_pos_nonneg; lia).
  destruct (Z.eqb_spec (2 ^ b) 0); [lia|reflexivity].
Qed.

Lemma longer_trace_differs w w' e evs :
  w_trace w' = e :: evs ++ w_trace w -> w' <> w.
Proof.
  intros H ->. apply (f_equal (@length event)) in H.
  cbn in H. rewrite length_app in H. lia.
Qed.

Lemma single_cpu_loop_adds n : forall i w,
  adds (fun _ => True) w (single_cpu_loop n i w).2.
Proof.
  induction n as [|n IH]; intros i w; cbn [single_cpu_loop]; [apply adds_refl|].
  pose proof (adds_alloc (fun _ => True) w (fun _ => I)) as Ha.
  destruct (alloc_pages w) as [page w1]. cbn [snd] in Ha.
  destruct (page =? NULL); [exact Ha|].
  eapply adds_trans; [exact Ha|]. eapply adds_trans; [|apply IH]. now apply adds_emit.
Qed.

Lemma time_single_cpu_adds rec w :
  adds (fun _ => True) w (time_single_cpu_page_alloc_put rec w).2.
Proof.
  unfold time_single_cpu_page_alloc_put.
  pose proof (adds_start (fun _ => True) rec w) as Hs.
  destruct (time_bench_start rec w) as [rec1 w1]. cbn [snd] in Hs.
  pose proof (single_cpu_loop_adds (Z.to_nat (rec_loops rec1)) 0 w1) as Hl.
  destruct (single_cpu_loop _ 0 w1) as [[i|] w2]; cbn [snd] in Hl.
  - pose proof (adds_stop (fun _ => True) rec1 (to_u64 (to_int i)) w2) as Hp.
    destruct (time_bench_stop _ _ w2) as [rec2 w3]. cbn [snd] in *.
    eapply adds_trans; [exact Hs|]. eapply adds_trans; eassumption.
  - eapply adds_trans; eassumption.
Qed.

(** [time_bench_loop] always reports. *)
Lemma time_bench_loop_reports loops step d w :
  exists e evs,
    w_trace (time_bench_loop loops step d time_single_cpu_page_alloc_put w)
    = e :: evs ++ w_trace w.
Proof.
  unfold time_bench_loop.
  pose proof (time_single_cpu_adds (mk_record loops step 0 None None) w)
    as ((evs & Ht & _) & _).
  destruct (time_single_cpu_page_alloc_put _ w) as [[ret rec] w1]. cbn [snd] in Ht.
  unfold print_stats. destruct (_ <? _).
  - eexists _, (_ :: evs). unfold pr_err. rewrite !trace_emit, Ht. reflexivity.
  - exists (Ev_stats d 0 rec), evs. now rewrite trace_emit, Ht.
Qed.

End Gate_facts.

(** ** Leaving the timed loop *)

Section Loop_exit_facts.

Implicit Types (w : world) (func : bench_func).

(** One round of the loop, in full: what it leaves depends only on
    whether the queue operation of the round fails. *)
Lemma pass_round func cpu rec queue i cnt w :
  i < rec_loops rec ->
  pass_of func cpu rec queue i cnt w
  = if round_fails func cpu queue w then
      (Returned (to_int cnt),
       mk_record (rec_loops rec) (rec_step rec) cnt (rec_start rec)
         (Some (w_clock w)),
       queue,
       (pass_of func cpu rec queue i cnt w).2)
    else
      (Loop (i + 1) (cnt + 1), rec,
       if enq_CPU cpu then (ptr_ring_produce queue (payload_of func w)).1
       else (ptr_ring_consume queue).1,
       (pass_of func cpu rec queue i cnt w).2).
Proof.
  intros Hlt. apply Z.ltb_lt in Hlt. unfold round_fails.
  destruct func; cbn [pass_of payload_of]; unfold ptr_ring_pass, page_alloc_put_pass;
    rewrite Hlt; destruct (enq_CPU cpu).
  - destruct (ptr_ring_produce queue fake_page) as [q rc] eqn:E. cbn [fst snd].
    destruct (rc <? 0) eqn:Erc; [|reflexivity].
    now destruct (produce_failed _ _ _ _ E Erc) as [-> _].
  - destruct (ptr_ring_consume queue) as [q np] eqn:E. cbn [fst snd].
    destruct (Z.eqb_spec np NULL) as [->|]; [|reflexivity].
    now rewrite (consume_failed _ _ E).
  - destruct (alloc_pages w) as [page w1] eqn:Ea. cbn [fst].
    assert (Hc : w_clock w1 = w_clock w)
      by (rewrite <- (alloc_pages_clock w), Ea; reflexivity).
    destruct (ptr_ring_produce queue page) as [q rc] eqn:E. cbn [fst snd].
    destruct (rc <? 0) eqn:Erc; [|reflexivity].
    destruct (produce_failed _ _ _ _ E Erc) as [-> _].
    unfold worker_finish, time_bench_stop, read_clock, pr_err, emit. cbn.
    now rewrite Hc.
  - destruct (ptr_ring_consume queue) as [q np] eqn:E. cbn [fst snd].
    destruct (Z.eqb_spec np NULL) as [->|]; [|reflexivity].
    now rewrite (consume_failed _ _ E).
Qed.

(** The pass that finds the requested count reached. *)
Lemma pass_done func cpu rec queue i cnt w :
  rec_loops rec <= i ->
  pass_of func cpu rec queue i cnt w
  = (Returned (to_int cnt),
     mk_record (rec_loops rec) (rec_step rec) cnt (rec_start rec)
       (Some (w_clock w)),
     queue, (read_clock w).2).
Proof.
  intros Hge. apply Z.ltb_ge in Hge.
  destruct func; cbn [pass_of]; unfold ptr_ring_pass, page_alloc_put_pass;
    now rewrite Hge.
Qed.

End Loop_exit_facts.

(** C2.  In a round [i] of either worker's loop (counters agreeing, as
    they do in every run): (1) if the queue operation of the round fails,
    that is the produce on an even CPU or the consume on an odd one, the
    worker stops its clock, stores the count [i] of the rounds done so
    far, which is below the requested count, returns it and leaves the
    queue as it was; otherwise it goes on to round [i + 1]; (2) on
    reaching the requested count it stops its clock, stores that count and
    returns it; (3) a worker that has returned takes no further step;
    (4) under every schedule every worker of a run returns, and one that
    got past its entry checks has its stop timestamp, a completed count
    equal to what it returned and not above the requested count. *)
Theorem worker_loop_exit (func : bench_func) (cpu : Z) (rec : time_bench_record)
    (queue : ptr_ring) (i : Z) (w : world) :
  0 <= i < rec_loops rec -> rec_loops rec < 2 ^ 31 ->
  (let out := pass_of func cpu rec queue i i w in
   out.1.1.1
     = (if round_fails func cpu queue w then Returned i else Loop (i + 1) (i + 1)) /\
   out.1.1.2
     = (if round_fails func cpu queue w
        then mk_record (rec_loops rec) (rec_step rec) i (rec_start rec)
               (Some (w_clock w))
        else rec) /\
   out.1.2
     = (if round_fails func cpu queue w then queue
        else if enq_CPU cpu then (ptr_ring_produce queue (payload_of func w)).1
        else (ptr_ring_consume queue).1)) /\
  (let out := pass_of func cpu rec queue (rec_loops rec) (rec_loops rec) w in
   out.1.1.1 = Returned (rec_loops rec) /\
   out.1.1.2
     = mk_record (rec_loops rec) (rec_step rec) (rec_loops rec) (rec_start rec)
         (Some (w_clock w)) /\
   out.1.2 = queue) /\
  (forall ret data w',
     task_step (pass_of func) (mk_task cpu (Returned ret) rec) data w'
     = (mk_task cpu (Returned ret) rec, data, w')) /\
  (forall step cpumask w0,
     Forall (fun t => finished t = true /\ task_inv t)
       (time_bench_run_concurrent (rec_loops rec) step (Some queue) cpumask
          (pass_of func) w0).1.1).
Proof.
  intros Hi Hl. split; [|split; [|split]].
  - cbv zeta. rewrite pass_round by lia.
    destruct (round_fails func cpu queue w); cbn [fst snd];
      [rewrite to_int_small by lia|]; auto.
  - cbv zeta. rewrite pass_done by lia. cbn [fst snd].
    rewrite to_int_small by lia. auto.
  - reflexivity.
  - intros. apply run_concurrent_returns. lia.
Qed.

Lemma worker_loop_exit_witness :
  (pass_of Time_cross_cpu_ptr_ring 1 (mk_record 5 0 0 (Some 0) None)
     (mk_ptr_ring 1 1 2 [NULL; NULL]) 3 3 example_world).1.1
  = (Returned 3, mk_record 5 0 3 (Some 0) (Some 0)).
Proof.
  destruct (worker_loop_exit Time_cross_cpu_ptr_ring 1
              (mk_record 5 0 0 (Some 0) None) (mk_ptr_ring 1 1 2 [NULL; NULL])
              3 example_world) as ((H1 & H2 & _) & _).
  - cbn. lia.
  - cbn. lia.
  - rewrite (surjective_pairing (pass_of _ _ _ _ _ _ _).1.1), H1, H2. reflexivity.
Defined.

(** ** A failed allocation in the timed loop *)

(** C6: what the code does.  The producer of the real-payload worker does
    not look at what [alloc_pages] returned: with the first allocation of
    the timed loop failing, the NULL is produced into the queue, the round
    counts as done and the loop goes on; the worker returns the full count
    of 2 and the slot the NULL went into reads as empty. *)
Lemma timed_loop_alloc_failure_goes_on :
  let w := mk_world [] (fun n => match n with O => NULL | _ => 4096 end)
             0 (fun _ => true) 0 (fun n => n) 0 in
  let out := time_cross_cpu_page_alloc_put 0 (mk_record 2 0 0 None None)
               (Some (mk_ptr_ring 0 0 4 [NULL; NULL; NULL; NULL])) w in
  out.1.1.1 = 2 /\
  out.1.2 = Some (mk_ptr_ring 2 0 4 [NULL; 4096; NULL; NULL]) /\
  w_trace out.2 = [Ev_alloc_pages 4096; Ev_alloc_pages NULL].
Proof. vm_compute. auto. Qed.

(** * Further properties *)

(** ** The single-CPU loop *)

Section Single_cpu_facts.

Implicit Types (w : world) (rec : time_bench_record).

Lemma next_pages_S w n :
  next_pages w (S n)
  = w_alloc w (w_nalloc w) :: next_pages (put_page (alloc_pages w).1 (alloc_pages w).2) n.
Proof. reflexivity. Qed.

Lemma next_pages_alloc w n :
  next_pages w (S n) = w_alloc w (w_nalloc w) :: next_pages (alloc_pages w).2 n.
Proof. reflexivity. Qed.

Lemma alloc_put_log_cons p pages :
  alloc_put_log (p :: pages)
  = alloc_put_log pages ++ [Ev_put_page p; Ev_alloc_pages p].
Proof. unfold alloc_put_log. cbn [flat_map app rev]. now rewrite <- app_assoc. Qed.

Lemma single_cpu_loop_S n i w :
  single_cpu_loop (S n) i w
  = if w_alloc w (w_nalloc w) =? NULL then (None, (alloc_pages w).2)
    else single_cpu_loop n (i + 1)
           (put_page (w_alloc w (w_nalloc w)) (alloc_pages w).2).
Proof. reflexivity. Qed.

(** The loop with every allocation succeeding. *)
Lemma single_cpu_loop_ok n : forall i w,
  Forall (fun p => p <> NULL) (next_pages w n) ->
  single_cpu_loop n i w
  = (Some (i + Z.of_nat n),
     mk_world (alloc_put_log (next_pages w n) ++ w_trace w) (w_alloc w)
       (w_nalloc w + n) (w_kmalloc_ok w) (w_clock w) (w_sched w) (w_tick w)).
Proof.
  induction n as [|n IH]; intros i w Hnn.
  - cbn. rewrite Z.add_0_r, Nat.add_0_r. now destruct w.
  - rewrite next_pages_S in Hnn |- *. inversion Hnn as [|? ? Hp Hrest]; subst.
    rewrite single_cpu_loop_S.
    destruct (Z.eqb_spec (w_alloc w (w_nalloc w)) NULL); [contradiction|].
    cbn [fst] in Hrest |- *.
    rewrite (IH _ _ Hrest), alloc_put_log_cons, <- app_assoc.
    unfold put_page, emit, alloc_pages. cbn.
    do 2 f_equal; [lia|]. f_equal. lia.
Qed.

(** The loop with the allocation of round [k] failing. *)
Lemma single_cpu_loop_fails n : forall k i w,
  (k < n)%nat ->
  Forall (fun p => p <> NULL) (next_pages w k) ->
  w_alloc w (w_nalloc w + k) = NULL ->
  single_cpu_loop n i w
  = (None,
     mk_world (Ev_alloc_pages NULL :: alloc_put_log (next_pages w k) ++ w_trace w)
       (w_alloc w) (w_nalloc w + S k) (w_kmalloc_ok w) (w_clock w) (w_sched w)
       (w_tick w)).
Proof.
  induction n as [|n IH]; intros k i w Hk Hnn Hnull; [lia|].
  rewrite single_cpu_loop_S.
  destruct k as [|k].
  - rewrite Nat.add_0_r in Hnull. rewrite Hnull. cbn [Z.eqb NULL].
    unfold alloc_pages. rewrite Hnull. cbn. do 2 f_equal. lia.
  - rewrite next_pages_S in Hnn |- *. inversion Hnn as [|? ? Hp Hrest]; subst.
    destruct (Z.eqb_spec (w_alloc w (w_nalloc w)) NULL); [contradiction|].
    cbn [fst] in Hrest |- *.
    rewrite (IH k _ _ ltac:(lia) Hrest).
    + rewrite alloc_put_log_cons, <- app_assoc.
      unfold put_page, emit, alloc_pages. cbn. do 2 f_equal. lia.
    + unfold put_page, emit, alloc_pages. cbn. rewrite <- Hnull. f_equal. lia.
Qed.

End Single_cpu_facts.

(** X1.  [time_single_cpu_page_alloc_put] with every allocation
    succeeding: it returns the requested count, the record has both
    timestamps and the requested count as completed count, and the log
    shows each of the pages allocated and put at once, one after the
    other, so that no page is left out. *)
Theorem single_cpu_all_rounds (rec : time_bench_record) (w : world) :
  0 <= rec_loops rec < 2 ^ 31 ->
  Forall (fun p => p <> NULL) (next_pages w (Z.to_nat (rec_loops rec))) ->
  time_single_cpu_page_alloc_put rec w
  = (rec_loops rec,
     mk_record (rec_loops rec) (rec_step rec) (rec_loops rec)
       (Some (w_clock w)) (Some (w_clock w + 1)),
     mk_world
       (alloc_put_log (next_pages w (Z.to_nat (rec_loops rec))) ++ w_trace w)
       (w_alloc w) (w_nalloc w + Z.to_nat (rec_loops rec)) (w_kmalloc_ok w)
       (w_clock w + 2) (w_sched w) (w_tick w)).
Proof.
  intros Hl Hnn. unfold time_single_cpu_page_alloc_put, time_bench_start, read_clock.
  cbn [rec_loops]. rewrite single_cpu_loop_ok by exact Hnn.
  rewrite Z.add_0_l, Z2Nat.id by lia.
  rewrite to_int_small by lia. unfold to_u64. rewrite Z.mod_small by lia.
  replace (w_clock w + 2) with (w_clock w + 1 + 1) by lia. reflexivity.
Qed.

Lemma single_cpu_all_rounds_witness :
  (time_single_cpu_page_alloc_put (mk_record 3 0 0 None None) example_world).1
  = (3, mk_record 3 0 3 (Some 0) (Some 1)).
Proof.
  rewrite (single_cpu_all_rounds (mk_record 3 0 0 None None) example_world).
  - reflexivity.
  - cbn. lia.
  - repeat constructor; discriminate.
Defined.

(** X2.  [time_single_cpu_page_alloc_put] with the allocation of round
    [k] failing: it returns 0 at once, without stopping the clock: the
    record keeps the completed count and the stop timestamp it came with.
    The [k] pages allocated before have each been put. *)
Theorem single_cpu_alloc_failure (rec : time_bench_record) (w : world) (k : nat) :
  (k < Z.to_nat (rec_loops rec))%nat ->
  Forall (fun p => p <> NULL) (next_pages w k) ->
  w_alloc w (w_nalloc w + k) = NULL ->
  time_single_cpu_page_alloc_put rec w
  = (0,
     mk_record (rec_loops rec) (rec_step rec) (rec_invoked_cnt rec)
       (Some (w_clock w)) (rec_stop rec),
     mk_world
       (Ev_alloc_pages NULL :: alloc_put_log (next_pages w k) ++ w_trace w)
       (w_alloc w) (w_nalloc w + S k) (w_kmalloc_ok w)
       (w_clock w + 1) (w_sched w) (w_tick w)).
Proof.
  intros Hk Hnn Hnull.
  unfold time_single_cpu_page_alloc_put, time_bench_start, read_clock.
  cbn [rec_loops]. now rewrite (single_cpu_loop_fails _ k) by assumption.
Qed.

Lemma single_cpu_alloc_failure_witness :
  let w := mk_world [] (fun n => if (n <? 2)%nat then 4096 * (Z.of_nat n + 1) else NULL)
             0 (fun _ => true) 0 (fun n => n) 0 in
  (time_single_cpu_page_alloc_put (mk_record 5 0 0 None None) w).1
  = (0, mk_record 5 0 0 (Some 0) None).
Proof.
  intros w.
  rewrite (single_cpu_alloc_failure (mk_record 5 0 0 None None) w 2).
  - reflexivity.
  - cbn. lia.
  - repeat constructor; discriminate.
  - reflexivity.
Defined.

(** ** What [init_queue] leaves in the queue *)

Section Prefill_facts.

Implicit Types (w : world) (queue : ptr_ring) (l : list ptr).

Lemma prefill_pages_S (fake_ptr : bool) w n :
  prefill_pages fake_ptr w (S n)
  = (if fake_ptr then (fake_ptr_page, w) else alloc_pages w).1
    :: prefill_pages fake_ptr
         (if fake_ptr then (fake_ptr_page, w) else alloc_pages w).2 n.
Proof. now destruct fake_ptr. Qed.

Lemma prefill_loop_contents n : forall queue l q_size prefill (fake_ptr : bool) w,
  rep queue l ->
  exists k, (k <= n)%nat /\
    rep (prefill_loop n queue q_size prefill fake_ptr w).1.2
        (l ++ take k (prefill_pages fake_ptr w n)) /\
    r_size (prefill_loop n queue q_size prefill fake_ptr w).1.2 = r_size queue /\
    ((prefill_loop n queue q_size prefill fake_ptr w).1.1 = true -> k = n).
Proof.
  induction n as [|n IH]; intros queue l q_size prefill fake_ptr w Hrep;
    cbn [prefill_loop].
  - exists O. rewrite take_0, app_nil_r. auto.
  - rewrite prefill_pages_S.
    destruct (if fake_ptr then (fake_ptr_page, w) else alloc_pages w)
      as [page w1] eqn:Epw. cbn [fst snd].
    destruct (negb fake_ptr && (page =? NULL)) eqn:Enull.
    { exists O. rewrite take_0, app_nil_r. cbn [fst snd].
      split; [lia|]. split; [exact Hrep|]. split; [reflexivity|discriminate]. }
    assert (Hp : page <> NULL).
    { destruct fake_ptr; cbn in Enull.
      - injection Epw as <- _. discriminate.
      - now apply Z.eqb_neq. }
    pose proof (rep_produce queue l page Hrep Hp) as Hprod.
    destruct (Z.of_nat (length l) <? r_size queue).
    + destruct Hprod as (r' & Hr' & Hrep'). rewrite Hr'.
      change (0 <? 0) with false. cbv iota.
      destruct (IH r' (l ++ [page]) q_size prefill fake_ptr w1 Hrep')
        as (k & Hk & Hrepk & Hsz & Hok).
      exists (S k). split; [lia|]. split; [|split].
      * cbn [take]. now rewrite <- app_assoc in Hrepk.
      * rewrite Hsz, <- (produce_size queue page), Hr'. reflexivity.
      * intros H. now rewrite (Hok H).
    + rewrite Hprod. exists O. rewrite take_0, app_nil_r.
      change (- ENOSPC <? 0) with true. cbv iota. cbn [fst snd].
      split; [lia|]. split; [exact Hrep|]. split; [reflexivity|discriminate].
Qed.

End Prefill_facts.

(** X3.  Whatever the outcome of [init_queue], the queue it leaves holds,
    in order, the first payloads of those it was to prefill (the fake
    pointer each time, or the pages in the order [alloc_pages] returned
    them), and nothing else; when it succeeds the queue holds all of them
    and has the capacity asked for. *)
Theorem init_queue_contents (q_size prefill : Z) (fake_ptr : bool) (w : world) :
  let out := init_queue zeroed q_size prefill fake_ptr w in
  exists k, (k <= Z.to_nat prefill)%nat /\
    rep out.1.2 (take k (prefill_pages fake_ptr w (Z.to_nat prefill))) /\
    (out.1.1 = true -> k = Z.to_nat prefill /\ r_size out.1.2 = q_size).
Proof.
  cbv zeta. unfold init_queue.
  destruct (ptr_ring_init zeroed q_size (w_kmalloc_ok w q_size)) as [r rc] eqn:E.
  assert (Hr : rc = 0 /\ rep r [] /\ r_size r = q_size \/ rc = - ENOMEM /\ r = zeroed).
  { pose proof (rep_init q_size (w_kmalloc_ok w q_size) zeroed r) as Hi.
    unfold ptr_ring_init in E, Hi. destruct (_ && _).
    - injection E as <- <-. left. split; [reflexivity|]. split; [now apply Hi|reflexivity].
    - injection E as <- <-. now right. }
  destruct Hr as [(-> & Hrep & Hsz)|[-> ->]].
  - change (0 <? 0) with false. cbv iota.
    destruct (prefill_loop_contents (Z.to_nat prefill) r [] q_size prefill fake_ptr w Hrep)
      as (k & Hk & Hrepk & Hsz' & Hok).
    exists k. split; [exact Hk|]. split; [exact Hrepk|].
    intros H. split; [now apply Hok|]. now rewrite Hsz'.
  - cbn. exists O. rewrite take_0. split; [lia|]. split; [apply rep_zeroed|discriminate].
Qed.

(** ** Workers and queue together *)

Section Joint_facts.

Variables (pass : pass_t) (I : task -> Prop) (m : task -> Z)
          (G : Z -> data_t -> world -> Prop).

Hypothesis step_ok : forall t data w c,
  I t -> G (m t + c) data w ->
  I (task_step pass t data w).1.1 /\
  G (m (task_step pass t data w).1.1 + c)
    (task_step pass t data w).1.2 (task_step pass t data w).2.

Hypothesis pick_ok : forall c data w, G c data w -> G c data (next_pick w).2.

Lemma sum_over_cons t ts : sum_over m (t :: ts) = m t + sum_over m ts.
Proof. reflexivity. Qed.

Lemma step_pick_joint ts : forall k data w c,
  Forall I ts -> G (sum_over m ts + c) data w ->
  Forall I (step_pick k pass ts data w).1.1 /\
  G (sum_over m (step_pick k pass ts data w).1.1 + c)
    (step_pick k pass ts data w).1.2 (step_pick k pass ts data w).2.
Proof.
  induction ts as [|t ts IH]; intros k data w c Hts HG; cbn [step_pick].
  - now split.
  - inversion Hts as [|? ? Ht Hts']; subst. rewrite sum_over_cons in HG.
    assert (Hrest : forall k', 
      Forall I (t :: (step_pick k' pass ts data w).1.1) /\
      G (sum_over m (t :: (step_pick k' pass ts data w).1.1) + c)
        (step_pick k' pass ts data w).1.2 (step_pick k' pass ts data w).2).
    { intros k'. destruct (IH k' data w (m t + c) Hts') as [H1 H2].
      - now replace (sum_over m ts + (m t + c)) with (m t + sum_over m ts + c) by lia.
      - split; [now constructor|]. rewrite sum_over_cons.
        now replace (m t + sum_over m (step_pick k' pass ts data w).1.1 + c)
          with (sum_over m (step_pick k' pass ts data w).1.1 + (m t + c)) by lia. }
    destruct (finished t).
    + specialize (Hrest k). now destruct (step_pick k pass ts data w) as [[? ?] ?].
    + destruct k as [|k].
      * destruct (step_ok t data w (sum_over m ts + c) Ht) as [H1 H2].
        { now replace (m t + (sum_over m ts + c)) with (m t + sum_over m ts + c) by lia. }
        destruct (task_step pass t data w) as [[t' d'] w']. cbn [fst snd] in *.
        split; [now constructor|]. rewrite sum_over_cons.
        now replace (m t' + sum_over m ts + c) with (m t' + (sum_over m ts + c)) by lia.
      * specialize (Hrest k). now destruct (step_pick k pass ts data w) as [[? ?] ?].
Qed.

Lemma run_tasks_joint fuel : forall ts data w c,
  Forall I ts -> G (sum_over m ts + c) data w ->
  Forall I (run_tasks fuel pass ts data w).1.1 /\
  G (sum_over m (run_tasks fuel pass ts data w).1.1 + c)
    (run_tasks fuel pass ts data w).1.2 (run_tasks fuel pass ts data w).2.
Proof.
  induction fuel as [|fuel IH]; intros ts data w c Hts HG; cbn [run_tasks].
  - now split.
  - destruct (unfinished ts) as [|n]; [now split|].
    pose proof (pick_ok _ data w HG) as HG'.
    destruct (next_pick w) as [pick w1]. cbn [snd] in HG'.
    destruct (step_pick_joint ts (pick mod S n)%nat data w1 c Hts HG') as [H1 H2].
    destruct (step_pick _ pass ts data w1) as [[ts' data'] w']. cbn [fst snd] in H1, H2.
    now apply IH.
Qed.

End Joint_facts.

Section Queue_length_facts.

Implicit Types (t : task) (w : world) (func : bench_func) (l : list ptr).

Lemma payload_not_null func w :
  (func = Time_cross_cpu_page_alloc_put -> alloc_never_fails w) ->
  payload_of func w <> NULL.
Proof.
  intros Hnn. destruct func; cbn [payload_of]; [discriminate|].
  apply (Hnn eq_refl).
Qed.

(** A round whose queue operation succeeds changes the length of the
    queue by one: up for a producer, down for a consumer. *)
Lemma round_length func cpu queue l w :
  rep queue l ->
  (func = Time_cross_cpu_page_alloc_put -> alloc_never_fails w) ->
  round_fails func cpu queue w = false ->
  exists l',
    rep (if enq_CPU cpu then (ptr_ring_produce queue (payload_of func w)).1
         else (ptr_ring_consume queue).1) l' /\
    Z.of_nat (length l') = Z.of_nat (length l) + (if enq_CPU cpu then 1 else -1).
Proof.
  intros Hrep Hnn. unfold round_fails. destruct (enq_CPU cpu).
  - pose proof (rep_produce queue l (payload_of func w) Hrep (payload_not_null _ _ Hnn))
      as Hprod.
    destruct (Z.of_nat (length l) <? r_size queue).
    + destruct Hprod as (r' & -> & Hrep'). intros _. exists (l ++ [payload_of func w]).
      split; [exact Hrep'|]. rewrite length_app. cbn [length]. lia.
    + rewrite Hprod. cbn. discriminate.
  - pose proof (rep_consume queue l Hrep) as Hcons. destruct l as [|x l'].
    + rewrite Hcons. cbn. discriminate.
    + destruct Hcons as (r' & -> & Hrep'). intros _. exists l'.
      split; [exact Hrep'|]. cbn [length]. lia.
Qed.

(** A step of a worker either leaves the queue and the worker's progress
    as they are, or is a round whose queue operation succeeds. *)
Lemma task_step_progress func t queue w :
  task_inv t ->
  let out := task_step (pass_of func) t (Some queue) w in
  (out.1.2 = Some queue /\ done_of out.1.1 = done_of t)
  \/ (round_fails func (t_cpu t) queue w = false /\
      out.1.2 = Some (if enq_CPU (t_cpu t)
                      then (ptr_ring_produce queue (payload_of func w)).1
                      else (ptr_ring_consume queue).1) /\
      done_of out.1.1 = done_of t + 1).
Proof.
  intros Hinv. cbv zeta. unfold task_step, done_of, task_inv in *.
  destruct (t_pc t) as [|i cnt|ret] eqn:Epc.
  - left. unfold worker_entry, time_bench_start, read_clock.
    destruct (loops_too_big _); cbn [fst snd t_pc]; split; reflexivity.
  - destruct Hinv as (_ & -> & Hi & Hl & _).
    destruct (Z.lt_ge_cases i (rec_loops (t_rec t))) as [Hlt|Hge].
    + rewrite pass_round by exact Hlt.
      destruct (round_fails func (t_cpu t) queue w); cbn [fst snd t_pc t_cpu].
      * left. rewrite to_int_small by lia. split; reflexivity.
      * right. repeat split; reflexivity.
    + left. rewrite pass_done by lia. cbn [fst snd t_pc t_cpu].
      rewrite to_int_small by lia. split; reflexivity.
  - left. cbn [fst snd]. rewrite Epc. split; reflexivity.
Qed.

Lemma task_step_queue_length func t data w c :
  task_inv t -> queue_length_is func (signed_done t + c) data w ->
  task_inv (task_step (pass_of func) t data w).1.1 /\
  queue_length_is func (signed_done (task_step (pass_of func) t data w).1.1 + c)
    (task_step (pass_of func) t data w).1.2 (task_step (pass_of func) t data w).2.
Proof.
  intros Hinv [(queue & l & -> & Hrep & Hlen) Hnn].
  split; [now apply task_step_inv|].
  split; [|intros E; eapply adds_never_fails; [apply adds_task_step|exact (Hnn E)]].
  pose proof (task_step_cpu (pass_of func) t (Some queue) w) as Hcpu.
  unfold signed_done in *. rewrite Hcpu.
  destruct (task_step_progress func t queue w Hinv) as [[-> ->]|(Hok & -> & ->)].
  - exists queue, l. auto.
  - destruct (round_length func (t_cpu t) queue l w Hrep Hnn Hok) as (l' & Hrep' & Hlen').
    eexists _, l'. split; [reflexivity|]. split; [exact Hrep'|].
    rewrite Hlen'. destruct (enq_CPU (t_cpu t)); lia.
Qed.

Lemma sum_signed_spawned cpumask loops step :
  sum_over signed_done
    (map (fun c => mk_task c Entry (mk_record loops step 0 None None)) cpumask) = 0.
Proof.
  induction cpumask as [|c l IH]; [reflexivity|].
  cbn [map]. rewrite sum_over_cons, IH. unfold signed_done, done_of. cbn.
  now destruct (enq_CPU c).
Qed.

Lemma sum_signed_completed ts :
  Forall (fun t => finished t = true) ts ->
  sum_over signed_done ts = completed true ts - completed false ts.
Proof.
  induction 1 as [|t ts Ht _ IH]; [reflexivity|].
  unfold completed in *. rewrite !sum_over_cons, IH.
  unfold signed_done, done_of, ret_of, finished in *.
  destruct (t_pc t); try discriminate.
  destruct (enq_CPU (t_cpu t)); cbn; lia.
Qed.

End Queue_length_facts.

(** X4.  Entries are conserved by a concurrent run of either worker
    function, under every schedule: when all workers have returned, the
    queue holds as many entries as before the run, plus the counts the
    producers (even CPUs) returned, minus the counts the consumers (odd
    CPUs) returned.  For the real-payload worker this takes an allocator
    that does not fail. *)
Theorem queue_length_after_run (func : bench_func) (loops step : Z)
    (queue : ptr_ring) (l : list ptr) (cpumask : list Z) (w : world) :
  0 <= loops < 2 ^ 32 ->
  rep queue l ->
  (func = Time_cross_cpu_page_alloc_put -> alloc_never_fails w) ->
  let out := time_bench_run_concurrent loops step (Some queue) cpumask
               (pass_of func) w in
  exists queue' l',
    out.1.2 = Some queue' /\ rep queue' l' /\
    Z.of_nat (length l')
    = Z.of_nat (length l) + completed true out.1.1 - completed false out.1.1.
Proof.
  intros Hl Hrep Hnn out.
  pose proof (run_concurrent_all_finished func loops step queue cpumask w) as Hfin.
  fold out in Hfin. subst out. unfold time_bench_run_concurrent in *.
  rewrite spawn_spec in *.
  destruct (run_tasks_joint (pass_of func) task_inv signed_done (queue_length_is func)
              (task_step_queue_length func)
              (fun c data w' H => H)
              (total_remaining
                 (map (fun c => mk_task c Entry (mk_record loops step 0 None None)) cpumask))
              (map (fun c => mk_task c Entry (mk_record loops step 0 None None)) cpumask)
              (Some queue)
              (foldl (fun w cpu => emit (Ev_kthread_run cpu) w) w cpumask)
              (Z.of_nat (length l)))
    as (_ & (queue' & l' & Hd & Hrep' & Hlen) & _).
  - apply Forall_map, Forall_forall. intros c _. unfold task_inv. cbn. auto.
  - rewrite sum_signed_spawned. split; [exists queue, l; auto|].
    intros E. eapply adds_never_fails; [apply spawn_world_adds|exact (Hnn E)].
  - exists queue', l'. split; [exact Hd|]. split; [exact Hrep'|].
    rewrite Hlen, (sum_signed_completed _ Hfin). lia.
Qed.

Lemma queue_length_after_run_witness :
  let out := time_bench_run_concurrent 3 0
               (Some (mk_ptr_ring 2 0 4 [42; 42; NULL; NULL])) cpumask01
               (pass_of Time_cross_cpu_ptr_ring) example_world in
  exists queue' l',
    out.1.2 = Some queue' /\ rep queue' l' /\
    Z.of_nat (length l') = 2 + completed true out.1.1 - completed false out.1.1.
Proof.
  apply (queue_length_after_run Time_cross_cpu_ptr_ring 3 0
           (mk_ptr_ring 2 0 4 [42; 42; NULL; NULL]) [42; 42]).
  - lia.
  - unfold rep. cbn. split; [lia|]. split; [reflexivity|]. split; [lia|].
    split; [lia|]. split; [lia|]. split; [repeat constructor; discriminate|].
    split; [reflexivity|]. intros k Hk.
    assert (Hc : k = 0 \/ k = 1 \/ k = 2 \/ k = 3) by lia.
    destruct Hc as [->|[->|[->| ->]]]; reflexivity.
  - discriminate.
Defined.

(** ** Page accounting *)

Section Page_facts.

Implicit Types (t : task) (w : world) (l : list ptr) (queue : ptr_ring).

Lemma no_page_app evs tr :
  Forall no_page evs ->
  released (evs ++ tr) = released tr /\ allocated (evs ++ tr) = allocated tr.
Proof.
  induction 1 as [|e evs He _ IH]; [now split|].
  destruct e; cbn in *; try exact IH; contradiction.
Qed.

Lemma is_log_no_page e : is_log e -> no_page e.
Proof. destruct e; cbn; tauto. Qed.

(** Events that are no page events leave the accounting as it is. *)
Lemma pages_accounted_quiet w0 b data w w' :
  adds no_page w w' -> pages_accounted w0 b data w -> pages_accounted w0 b data w'.
Proof.
  intros Hadds (queue & l & evs & Hd & Hrep & Ht & Hsub & Hlen & Hnn).
  pose proof (adds_never_fails _ _ _ Hadds Hnn) as Hnn'.
  destruct Hadds as ((new & Hnew & Hall) & _).
  destruct (no_page_app new evs Hall) as [Hr Ha].
  exists queue, l, (new ++ evs). rewrite Hr, Ha.
  split; [exact Hd|]. split; [exact Hrep|].
  split; [now rewrite Hnew, Ht, app_assoc|]. auto.
Qed.

Lemma pages_accounted_mono w0 b b' data w :
  b <= b' -> pages_accounted w0 b data w -> pages_accounted w0 b' data w.
Proof.
  intros Hb (queue & l & evs & Hd & Hrep & Ht & Hsub & Hlen & Hnn).
  exists queue, l, evs.
  split; [exact Hd|]. split; [exact Hrep|]. split; [exact Ht|].
  split; [exact Hsub|]. split; [lia|exact Hnn].
Qed.

Lemma trace_alloc w :
  w_trace (alloc_pages w).2 = Ev_alloc_pages (alloc_pages w).1 :: w_trace w.
Proof. reflexivity. Qed.

(** A page allocated and not put into the queue goes astray. *)
Lemma pages_accounted_astray w0 b queue w :
  pages_accounted w0 b (Some queue) w ->
  pages_accounted w0 (b + 1) (Some queue) (alloc_pages w).2.
Proof.
  intros (q & l & evs & Hd & Hrep & Ht & Hsub & Hlen & Hnn).
  exists q, l, (Ev_alloc_pages (alloc_pages w).1 :: evs).
  split; [exact Hd|]. split; [exact Hrep|].
  split; [now rewrite trace_alloc, Ht|]. cbn [released allocated length].
  split; [now apply sublist_cons|]. split; [lia|].
  intros n. apply Hnn.
Qed.

(** A page allocated and produced into the queue. *)
Lemma pages_accounted_produce w0 b queue queue' w :
  pages_accounted w0 b (Some queue) w ->
  ptr_ring_produce queue (alloc_pages w).1 = (queue', 0) ->
  pages_accounted w0 b (Some queue') (alloc_pages w).2.
Proof.
  intros (q & l & evs & Hd & Hrep & Ht & Hsub & Hlen & Hnn) Hprod.
  injection Hd as <-.
  pose proof (rep_produce queue l (alloc_pages w).1 Hrep (Hnn _)) as Hp.
  destruct (Z.of_nat (length l) <? r_size queue).
  - destruct Hp as (r' & Hr' & Hrep'). rewrite Hr' in Hprod. injection Hprod as ->.
    exists queue', (l ++ [(alloc_pages w).1]), (Ev_alloc_pages (alloc_pages w).1 :: evs).
    split; [reflexivity|]. split; [exact Hrep'|].
    split; [now rewrite trace_alloc, Ht|]. cbn [released allocated length].
    rewrite rev_app_distr, length_app. cbn [rev app length].
    split; [now apply sublist_skip|]. split; [lia|].
    intros n. apply Hnn.
  - rewrite Hp in Hprod. discriminate.
Qed.

(** A page consumed from the queue and put. *)
Lemma pages_accounted_consume w0 b queue queue' x w :
  pages_accounted w0 b (Some queue) w ->
  ptr_ring_consume queue = (queue', x) -> x <> NULL ->
  pages_accounted w0 b (Some queue') (put_page x w).
Proof.
  intros (q & l & evs & Hd & Hrep & Ht & Hsub & Hlen & Hnn) Hcons Hx.
  injection Hd as <-.
  pose proof (rep_consume queue l Hrep) as Hc. destruct l as [|y l'].
  - rewrite Hc in Hcons. injection Hcons as _ <-. contradiction.
  - destruct Hc as (r' & Hr' & Hrep'). rewrite Hr' in Hcons.
    injection Hcons as -> ->.
    exists queue', l', (Ev_put_page x :: evs).
    split; [reflexivity|]. split; [exact Hrep'|].
    split; [unfold put_page; rewrite trace_emit, Ht; reflexivity|].
    cbn [released allocated length] in *.
    split; [|split; [lia|exact Hnn]].
    cbn [rev] in Hsub. now rewrite <- app_assoc in Hsub.
Qed.

Lemma produce_result queue p queue' rc :
  ptr_ring_produce queue p = (queue', rc) -> (rc <? 0) = false -> rc = 0.
Proof.
  unfold ptr_ring_produce. destruct (_ || _); intros [= <- <-]; [discriminate|reflexivity].
Qed.

(** One pass of the real-payload worker keeps the accounts; a producer
    that returns may have left one page astray. *)
Lemma page_pass_accounted w0 cpu rec queue i cnt w b :
  pages_accounted w0 b (Some queue) w ->
  let out := page_alloc_put_pass cpu rec queue i cnt w in
  pages_accounted w0
    (b + if enq_CPU cpu && match out.1.1.1 with Returned _ => true | _ => false end
         then 1 else 0)
    (Some out.1.2) out.2.
Proof.
  intros Hacc. cbv zeta. unfold page_alloc_put_pass, worker_finish.
  destruct (i <? rec_loops rec).
  - destruct (enq_CPU cpu); cbn [andb].
    + pose proof (pages_accounted_astray w0 b queue w Hacc) as Hastray.
      pose proof (fun q' => pages_accounted_produce w0 b queue q' w Hacc) as Hprod.
      destruct (alloc_pages w) as [page w1]. cbn [fst snd] in *.
      destruct (ptr_ring_produce queue page) as [q rc] eqn:E.
      destruct (rc <? 0) eqn:Erc.
      * destruct (produce_failed _ _ _ _ E Erc) as [-> _].
        pose proof (adds_stop no_page rec cnt (pr_err (Enq_fullq cpu i) w1)) as Hq.
        destruct (time_bench_stop rec cnt _) as [r w']. cbn [fst snd] in *.
        eapply pages_accounted_quiet; [|exact Hastray].
        eapply adds_trans; [apply adds_pr_err; exact I|exact Hq].
      * cbn [fst snd]. rewrite Z.add_0_r. apply Hprod.
        now rewrite (produce_result _ _ _ _ E Erc).
    + destruct (ptr_ring_consume queue) as [q np] eqn:E.
      destruct (Z.eqb_spec np NULL) as [->|Hnp].
      * apply consume_failed in E as ->.
        pose proof (adds_stop no_page rec cnt (pr_err (Deq_emptyq cpu i) w)) as Hq.
        destruct (time_bench_stop rec cnt _) as [r w']. cbn [fst snd] in *.
        rewrite Z.add_0_r.
        eapply pages_accounted_quiet; [|exact Hacc].
        eapply adds_trans; [apply adds_pr_err; exact I|exact Hq].
      * cbn [fst snd]. rewrite Z.add_0_r.
        now apply (pages_accounted_consume w0 b queue q np w).
  - pose proof (adds_stop no_page rec cnt w) as Hq.
    destruct (time_bench_stop rec cnt w) as [r w']. cbn [fst snd] in *.
    eapply pages_accounted_mono; [|eapply pages_accounted_quiet; [exact Hq|exact Hacc]].
    destruct (_ && _); lia.
Qed.

End Page_facts.

Section Page_run_facts.

Implicit Types (t : task) (w : world) (l : list ptr) (queue : ptr_ring).

Lemma task_step_accounted w0 t data w c :
  pages_accounted w0 (returned_producer t + c) data w ->
  pages_accounted w0
    (returned_producer (task_step page_alloc_put_pass t data w).1.1 + c)
    (task_step page_alloc_put_pass t data w).1.2
    (task_step page_alloc_put_pass t data w).2.
Proof.
  intros Hacc. pose proof Hacc as (queue & _ & _ & -> & _).
  revert Hacc. unfold task_step, returned_producer, finished.
  destruct (t_pc t) as [|i cnt|ret] eqn:Epc.
  - rewrite andb_false_r. intros Hacc.
    pose proof (adds_entry (t_cpu t) (t_rec t) (Some queue) w) as Hq.
    destruct (worker_entry _ _ _ _) as [[p r] w']. cbn [fst snd t_cpu t_pc] in *.
    eapply pages_accounted_mono;
      [|eapply pages_accounted_quiet;
         [eapply adds_weaken; [apply is_log_no_page|exact Hq]|exact Hacc]].
    destruct (_ && _); lia.
  - rewrite andb_false_r. intros Hacc.
    pose proof (page_pass_accounted w0 (t_cpu t) (t_rec t) queue i cnt w (0 + c) Hacc)
      as H.
    cbv zeta in H.
    destruct (page_alloc_put_pass _ _ _ _ _ _) as [[[p r] q] w'].
    cbn [fst snd t_cpu t_pc] in *.
    eapply pages_accounted_mono; [|exact H]. destruct (_ && _); lia.
  - cbn [fst snd]. rewrite Epc. auto.
Qed.

Lemma step_pick_cpus pass ts : forall k data w,
  map t_cpu (step_pick k pass ts data w).1.1 = map t_cpu ts.
Proof.
  induction ts as [|t ts IH]; intros k data w; cbn [step_pick]; [reflexivity|].
  destruct (finished t); [|destruct k as [|k]].
  - specialize (IH k data w). destruct (step_pick k pass ts data w) as [[? ?] ?].
    cbn [fst map] in *. now rewrite IH.
  - pose proof (task_step_cpu pass t data w) as H.
    destruct (task_step pass t data w) as [[? ?] ?]. cbn [fst map] in *. now rewrite H.
  - specialize (IH k data w). destruct (step_pick k pass ts data w) as [[? ?] ?].
    cbn [fst map] in *. now rewrite IH.
Qed.

Lemma run_tasks_cpus pass fuel : forall ts data w,
  map t_cpu (run_tasks fuel pass ts data w).1.1 = map t_cpu ts.
Proof.
  induction fuel as [|fuel IH]; intros ts data w; cbn [run_tasks]; [reflexivity|].
  destruct (unfinished ts); [reflexivity|].
  destruct (next_pick w) as [pick w1].
  pose proof (step_pick_cpus pass ts (pick mod S n)%nat data w1) as H.
  destruct (step_pick _ pass ts data w1) as [[ts' d'] w']. cbn [fst] in H.
  now rewrite IH.
Qed.

(** On CPUs 0 and 1 there is one producer. *)
Lemma one_producer ts :
  map t_cpu ts = cpumask01 -> 0 <= sum_over returned_producer ts <= 1.
Proof.
  destruct ts as [|t0 [|t1 [|t2 ts]]]; try discriminate.
  intros [= E0 E1]. unfold sum_over, returned_producer. cbn [foldr].
  rewrite E0, E1. cbn [enq_CPU andb]. change (enq_CPU 1) with false.
  change (enq_CPU 0) with true. cbn [andb]. destruct (finished t0); lia.
Qed.

(** The prefill with real pages keeps the accounts; a page whose produce
    failed is astray. *)
Lemma prefill_loop_accounted w0 n : forall queue q_size prefill w,
  pages_accounted w0 0 (Some queue) w ->
  let out := prefill_loop n queue q_size prefill false w in
  pages_accounted w0 (if out.1.1 then 0 else 1) (Some out.1.2) out.2.
Proof.
  induction n as [|n IH]; intros queue q_size prefill w Hacc; cbv zeta;
    cbn [prefill_loop negb andb]; [exact Hacc|].
  pose proof (pages_accounted_astray w0 0 queue w Hacc) as Hastray.
  pose proof (fun q' => pages_accounted_produce w0 0 queue q' w Hacc) as Hprod.
  destruct (alloc_pages w) as [page w1]. cbn [fst snd] in *.
  destruct (page =? NULL).
  { cbn [fst snd]. eapply pages_accounted_quiet; [|exact Hastray].
    now apply adds_pr_err. }
  destruct (ptr_ring_produce queue page) as [q rc] eqn:E.
  destruct (rc <? 0) eqn:Erc.
  - destruct (produce_failed _ _ _ _ E Erc) as [-> _]. cbn [fst snd].
    eapply pages_accounted_quiet; [|exact Hastray]. now apply adds_pr_err.
  - apply IH, Hprod. now rewrite (produce_result _ _ _ _ E Erc).
Qed.

Lemma released_put_pages pages tr :
  released (map Ev_put_page pages ++ tr) = pages ++ released tr /\
  allocated (map Ev_put_page pages ++ tr) = allocated tr.
Proof.
  induction pages as [|p pages [IH1 IH2]]; [now split|].
  cbn. now rewrite IH1, IH2.
Qed.

End Page_run_facts.

(** The pages of the real-payload scenario, from start to return. *)
Lemma page_scenario_accounted (run_flags loops q_size prefill : Z) (w : world) :
  alloc_never_fails w ->
  exists evs,
    w_trace (run_bench_cross_cpu_page_alloc_put run_flags loops q_size prefill w)
    = evs ++ w_trace w /\
    sublist (released evs) (allocated evs) /\
    (length (allocated evs) <= length (released evs) + 1)%nat.
Proof.
  intros Hnn. unfold run_bench_cross_cpu_page_alloc_put.
  destruct (run_enabled _ _); [|exists []; cbn; repeat split; [constructor|lia]].
  rewrite body_unfold.
  assert (Hrun : pages_accounted w 1
            (Some (cross_cpu_run cross_cpu_page_alloc_put Time_cross_cpu_page_alloc_put
                     false loops q_size prefill w).1)
            (cross_cpu_run cross_cpu_page_alloc_put Time_cross_cpu_page_alloc_put
               false loops q_size prefill w).2).
  { unfold cross_cpu_run, init_queue.
    assert (H0 : forall queue, rep queue [] ->
              pages_accounted w 0 (Some queue) (emit Ev_kzalloc_queue w)).
    { intros queue Hrep. exists queue, [], [Ev_kzalloc_queue].
      split; [reflexivity|]. split; [exact Hrep|]. split; [reflexivity|].
      split; [cbn; constructor|]. split; [cbn; lia|exact Hnn]. }
    destruct (ptr_ring_init zeroed q_size _) as [r rc] eqn:E.
    assert (Hr : rc = 0 /\ rep r [] \/ rc = - ENOMEM /\ r = zeroed).
    { pose proof (rep_init q_size (w_kmalloc_ok (emit Ev_kzalloc_queue w) q_size)
                    zeroed r) as Hi.
      unfold ptr_ring_init in E, Hi. destruct (_ && _).
      - injection E as <- <-. left. split; [reflexivity|]. now apply Hi.
      - injection E as <- <-. now right. }
    destruct Hr as [[-> Hrep]|[-> ->]].
    - change (0 <? 0) with false. cbv iota.
      pose proof (prefill_loop_accounted w (Z.to_nat prefill) r q_size prefill _
                    (H0 r Hrep)) as Hpre. cbv zeta in Hpre.
      destruct (prefill_loop _ r q_size prefill false _) as [[ok queue] w1].
      cbn [fst snd] in *. destruct ok; [|exact Hpre].
      rewrite (surjective_pairing (run_parallel _ _ _ _ _ _ _)). cbn [fst snd].
      unfold run_parallel, time_bench_run_concurrent. rewrite spawn_spec.
      set (ts := map (fun c => mk_task c Entry (mk_record loops 0 0 None None)) cpumask01).
      set (ws := foldl (fun w cpu => emit (Ev_kthread_run cpu) w) w1 cpumask01).
      destruct (run_tasks_joint page_alloc_put_pass (fun _ => True) returned_producer
                  (pages_accounted w)
                  (fun t data w' c _ H => conj I (task_step_accounted w t data w' c H))
                  (fun c data w' H =>
                     pages_accounted_quiet w c data w' _ (adds_pick no_page w') H)
                  (total_remaining ts) ts (Some queue) ws 0)
        as (_ & Hfin).
      + subst ts. repeat constructor.
      + subst ts ws. eapply pages_accounted_quiet; [|exact Hpre].
        eapply adds_trans; apply adds_emit; exact I.
      + pose proof (run_tasks_cpus page_alloc_put_pass (total_remaining ts) ts
                      (Some queue) ws) as Hcpus.
        change (pass_of Time_cross_cpu_page_alloc_put) with page_alloc_put_pass.
        destruct (run_tasks _ page_alloc_put_pass ts (Some queue) ws)
          as [[ts' data'] w2]. cbn [fst snd] in *.
        pose proof (one_producer ts' Hcpus) as Hone.
        pose proof Hfin as (q' & _ & _ & -> & _). cbn [default].
        eapply pages_accounted_quiet;
          [eapply adds_weaken; [apply is_log_no_page|apply adds_print_cpumask]|].
        eapply pages_accounted_mono; [|exact Hfin]. lia.
    - cbn [fst snd]. change (- ENOMEM <? 0) with true. cbv iota.
      eapply pages_accounted_quiet; [now apply adds_pr_err|].
      eapply pages_accounted_mono; [|apply (H0 zeroed rep_zeroed)]. lia. }
  destruct Hrun as (queue & l & evs & Hd & Hrep & Ht & Hsub & Hlen & _).
  injection Hd as <-.
  rewrite (teardown_put_page _ l _ Hrep), Ht.
  exists (Ev_kfree_queue :: Ev_kfree_slots :: map Ev_put_page (rev l) ++ evs).
  split; [now rewrite <- !app_comm_cons, <- app_assoc|].
  cbn [released allocated].
  destruct (released_put_pages (rev l) evs) as [-> ->].
  split; [exact Hsub|]. rewrite length_app, length_rev. lia.
Qed.

(** ** The memory of the queue *)

Section Queue_memory_facts.

Implicit Types (w : world) (func : bench_func).

Lemma worker_event_no_queue_memory func e : worker_event func e -> no_queue_memory e.
Proof. destruct func, e; cbn; tauto. Qed.

Lemma prefill_event_no_queue_memory (fake_ptr : bool) e :
  (if fake_ptr then is_log else is_log_or_alloc) e -> no_queue_memory e.
Proof. destruct fake_ptr, e; cbn; tauto. Qed.

(** The teardown drains, frees the slot array and frees the queue, in
    this order. *)
Lemma teardown_shape func queue w :
  exists evs,
    w_trace (cross_cpu_teardown (destroy_of func) queue w)
    = Ev_kfree_queue :: Ev_kfree_slots :: evs ++ w_trace w /\
    Forall (fun e => exists p, e = Ev_put_page p) evs /\
    (func = Time_cross_cpu_ptr_ring -> evs = []).
Proof.
  unfold cross_cpu_teardown, ptr_ring_cleanup. destruct func; cbn [destroy_of].
  - exists []. now repeat split.
  - pose proof (drain_adds (fun e => exists p, e = Ev_put_page p)
                  (length (r_queue queue)) queue w (fun p => ex_intro _ p eq_refl))
      as ((evs & H & Hall) & _).
    destruct (drain _ _ _ _) as [r' w']. cbn [snd] in *.
    exists evs. rewrite !trace_emit, H. split; [reflexivity|]. split; [exact Hall|].
    discriminate.
Qed.

Lemma queue_memory_shape func run_flags loops q_size prefill w :
  run_enabled run_flags (bit_of func) = true ->
  exists evs,
    w_trace (scenario func run_flags loops q_size prefill w)
    = Ev_kfree_queue :: Ev_kfree_slots :: evs ++ Ev_kzalloc_queue :: w_trace w /\
    Forall no_queue_memory evs.
Proof.
  intros Hen. rewrite scenario_unfold, Hen, body_unfold.
  destruct (cross_cpu_run_adds no_queue_memory (description_of func) func
              (fake_ptr_of func) loops q_size prefill w) as ((evs & Hr & Hall) & _).
  - apply worker_event_no_queue_memory.
  - apply prefill_event_no_queue_memory.
  - intros cpu. exact I.
  - destruct (teardown_shape func
                (cross_cpu_run (description_of func) func (fake_ptr_of func)
                   loops q_size prefill w).1
                (cross_cpu_run (description_of func) func (fake_ptr_of func)
                   loops q_size prefill w).2) as (evs' & Ht & Hput & _).
    exists (evs' ++ evs). rewrite Ht, Hr, trace_emit, <- app_assoc.
    split; [reflexivity|]. apply Forall_app. split; [|exact Hall].
    eapply Forall_impl; [exact Hput|]. now intros e (p & ->).
Qed.

End Queue_memory_facts.

(** X6.  An enabled cross-CPU scenario allocates its queue first and frees
    it last, on every path: whether [ptr_ring_init] fails, the prefill
    fails or the workers run, under every schedule and whatever the page
    allocator answers, the log of the scenario opens with the [kzalloc]
    of the queue and closes with the [kfree] of the slot array followed by
    the [kfree] of the queue, and nothing in between allocates or frees
    queue memory.  So the queue is freed once, and no worker, prefill,
    report or page release comes after it. *)
Theorem queue_memory_lifecycle (func : bench_func)
    (run_flags loops q_size prefill : Z) (w : world) :
  run_enabled run_flags (bit_of func) = true ->
  exists evs,
    w_trace (scenario func run_flags loops q_size prefill w)
    = Ev_kfree_queue :: Ev_kfree_slots :: evs ++ Ev_kzalloc_queue :: w_trace w /\
    Forall no_queue_memory evs.
Proof. apply queue_memory_shape. Qed.

Lemma queue_memory_lifecycle_witness :
  exists evs,
    w_trace (scenario Time_cross_cpu_page_alloc_put 4 3 2 5 example_world)
    = Ev_kfree_queue :: Ev_kfree_slots :: evs ++ Ev_kzalloc_queue :: w_trace example_world /\
    Forall no_queue_memory evs.
Proof.
  apply (queue_memory_lifecycle Time_cross_cpu_page_alloc_put 4 3 2 5 example_world).
  reflexivity.
Defined.

(** ** The whole run *)

Section Module_run_facts.

Implicit Types (w : world) (func : bench_func).

Lemma released_split tr1 tr2 : released (tr1 ++ tr2) = released tr1 ++ released tr2.
Proof.
  induction tr1 as [|e tr1 IH]; [reflexivity|].
  destruct e; cbn; now rewrite ?IH.
Qed.

Lemma allocated_split tr1 tr2 : allocated (tr1 ++ tr2) = allocated tr1 ++ allocated tr2.
Proof.
  induction tr1 as [|e tr1 IH]; [reflexivity|].
  destruct e; cbn; now rewrite ?IH.
Qed.

Lemma no_spawn_spawned evs : Forall no_spawn evs -> spawned evs = [].
Proof.
  induction 1 as [|e evs He _ IH]; [reflexivity|].
  destruct e; cbn in *; try exact IH; contradiction.
Qed.

Lemma alloc_put_log_pages pages :
  released (alloc_put_log pages) = rev pages /\
  allocated (alloc_put_log pages) = rev pages.
Proof.
  induction pages as [|p pages [IH1 IH2]]; [now split|].
  rewrite alloc_put_log_cons, released_split, allocated_split, IH1, IH2.
  now split.
Qed.

Lemma alloc_put_log_spawned pages : spawned (alloc_put_log pages) = [].
Proof.
  induction pages as [|p pages IH]; [reflexivity|].
  now rewrite alloc_put_log_cons, spawned_split, IH.
Qed.

Lemma never_fails_next_pages w n :
  alloc_never_fails w -> Forall (fun p => p <> NULL) (next_pages w n).
Proof.
  intros Hnn. unfold next_pages. apply List.Forall_forall. intros p Hin.
  apply in_map_iff in Hin as (k & <- & _). apply Hnn.
Qed.

(** The single-CPU comparison, with pages to be had: every page allocated
    is put, and no worker is spawned. *)
Lemma order0_accounted run_flags loops w :
  alloc_never_fails w ->
  exists evs,
    w_trace (run_bench_order0_compare run_flags loops w) = evs ++ w_trace w /\
    released evs = allocated evs /\ spawned evs = [] /\
    alloc_never_fails (run_bench_order0_compare run_flags loops w).
Proof.
  intros Hnn. unfold run_bench_order0_compare.
  destruct (run_enabled _ _); [|now exists []].
  unfold time_bench_loop, time_single_cpu_page_alloc_put, time_bench_start, read_clock.
  cbn [rec_loops].
  rewrite single_cpu_loop_ok by (apply never_fails_next_pages; exact Hnn).
  unfold time_bench_stop, read_clock. cbn [w_trace w_alloc w_nalloc w_clock].
  match goal with
  | |- context [alloc_put_log ?ps] => set (pages := ps)
  end.
  destruct (alloc_put_log_pages pages) as [Hr Ha].
  match goal with
  | |- context [print_stats ?d ?c ?r ?w3] =>
      pose proof (adds_print_stats d c r w3) as ((evs & Ht & Hall) & Ha' & _);
      cbn [w_trace w_alloc] in Ht, Ha'
  end.
  exists (evs ++ alloc_put_log pages).
  split; [rewrite Ht, <- app_assoc; reflexivity|].
  assert (Hq : Forall no_page evs)
    by (eapply Forall_impl; [exact Hall|apply is_log_no_page]).
  assert (Hs : Forall no_spawn evs)
    by (eapply Forall_impl; [exact Hall|]; intros e; destruct e; cbn; tauto).
  destruct (no_page_app evs (alloc_put_log pages) Hq) as [-> ->].
  split; [now rewrite Hr, Ha|]. split.
  - rewrite spawned_split, (no_spawn_spawned _ Hs). apply alloc_put_log_spawned.
  - intros n. rewrite Ha'. apply Hnn.
Qed.

(** The baseline scenario touches no page. *)
Lemma baseline_no_page run_flags loops q_size prefill w :
  adds no_page w (run_bench_baseline_ptr_ring_cross_cpu run_flags loops q_size prefill w).
Proof.
  unfold run_bench_baseline_ptr_ring_cross_cpu.
  destruct (run_enabled _ _); [|apply adds_refl].
  rewrite body_unfold.
  pose proof (cross_cpu_run_adds no_page baseline_ptr_ring_cross_cpu
                Time_cross_cpu_ptr_ring true loops q_size prefill w
                is_log_no_page is_log_no_page (fun _ => I)) as Hr.
  eapply adds_trans; [apply (adds_emit no_page Ev_kzalloc_queue w I)|].
  eapply adds_trans; [exact Hr|].
  unfold cross_cpu_teardown, ptr_ring_cleanup.
  eapply adds_trans; now apply adds_emit.
Qed.

(** What a scenario spawns, read off its own part of the log. *)
Lemma scenario_spawns func run_flags loops q_size prefill w evs :
  w_trace (scenario func run_flags loops q_size prefill w) = evs ++ w_trace w ->
  spawned evs = [] \/ spawned evs = [1; 0].
Proof.
  intros Ht.
  pose proof (scenario_spawned func run_flags loops q_size prefill w) as Hs.
  rewrite Ht, spawned_split in Hs.
  destruct (_ && _); [right|left].
  - change (1 :: 0 :: spawned (w_trace w)) with ([1; 0] ++ spawned (w_trace w)) in Hs.
    now apply app_inv_tail in Hs.
  - change (spawned (w_trace w)) with ([] ++ spawned (w_trace w)) in Hs at 2.
    now apply app_inv_tail in Hs.
Qed.

Lemma module_run_accounted run_flags loops w :
  alloc_never_fails w ->
  let out := run_timing_tests run_flags loops w in
  out.1 = 0 /\
  exists evs,
    w_trace out.2 = evs ++ w_trace w /\
    sublist (released evs) (allocated evs) /\
    (length (allocated evs) <= length (released evs) + 1)%nat /\
    exists k, (k <= 2)%nat /\ spawned evs = concat (replicate k [1; 0]).
Proof.
  intros Hnn. cbv zeta. unfold run_timing_tests. cbn [fst snd].
  split; [reflexivity|].
  destruct (order0_accounted run_flags loops w Hnn) as (evs1 & Ht1 & Hp1 & Hs1 & Hnn1).
  set (w1 := run_bench_order0_compare run_flags loops w) in *.
  pose proof (baseline_no_page run_flags loops 32000 8000 w1) as Hb.
  pose proof (adds_never_fails _ _ _ Hb Hnn1) as Hnn2.
  destruct Hb as ((evs2 & Ht2 & Hq2) & _).
  pose proof (scenario_spawns Time_cross_cpu_ptr_ring run_flags loops 32000 8000 w1
                evs2 Ht2) as Hs2.
  set (w2 := run_bench_baseline_ptr_ring_cross_cpu run_flags loops 32000 8000 w1) in *.
  destruct (page_scenario_accounted run_flags loops 32000 8000 w2 Hnn2)
    as (evs3 & Ht3 & Hsub3 & Hlen3).
  pose proof (scenario_spawns Time_cross_cpu_page_alloc_put run_flags loops 32000 8000
                w2 evs3 Ht3) as Hs3.
  exists (evs3 ++ evs2 ++ evs1).
  split; [cbn [scenario] in Ht3; rewrite Ht3, Ht2, Ht1, <- !app_assoc; reflexivity|].
  rewrite !released_split, !allocated_split, !spawned_split, !length_app.
  destruct (no_page_app evs2 [] Hq2) as [Hr2 Ha2]. rewrite !app_nil_r in Hr2, Ha2.
  cbn [released allocated] in Hr2, Ha2. rewrite Hr2, Ha2, Hp1, Hs1. cbn [app length].
  split; [apply sublist_app; [exact Hsub3|reflexivity]|]. split; [lia|].
  rewrite app_nil_r.
  destruct Hs2 as [-> | ->], Hs3 as [-> | ->].
  - exists 0%nat. split; [lia|reflexivity].
  - exists 1%nat. split; [lia|reflexivity].
  - exists 1%nat. split; [lia|reflexivity].
  - exists 2%nat. split; [lia|reflexivity].
Qed.

End Module_run_facts.

(** X7.  [run_timing_tests], with a page allocator that does not fail,
    whatever the run flags, the loop count and the schedule: it returns
    0; the pages it puts are, in order, pages it allocated, each
    allocation answering for at most one put, and all the pages it
    allocated but at most one are put when it returns; workers are
    started on CPU 0 and CPU 1 only, together, and at most twice. *)
Theorem run_timing_tests_accounts (run_flags loops : Z) (w : world) :
  alloc_never_fails w ->
  let out := run_timing_tests run_flags loops w in
  out.1 = 0 /\
  exists evs,
    w_trace out.2 = evs ++ w_trace w /\
    sublist (released evs) (allocated evs) /\
    (length (allocated evs) <= length (released evs) + 1)%nat /\
    exists k, (k <= 2)%nat /\ spawned evs = concat (replicate k [1; 0]).
Proof. apply module_run_accounted. Qed.

Lemma run_timing_tests_accounts_witness :
  let out := run_timing_tests 7 3 example_world in
  out.1 = 0 /\
  exists evs,
    w_trace out.2 = evs ++ w_trace example_world /\
    sublist (released evs) (allocated evs) /\
    (length (allocated evs) <= length (released evs) + 1)%nat /\
    exists k, (k <= 2)%nat /\ spawned evs = concat (replicate k [1; 0]).
Proof.
  apply (run_timing_tests_accounts 7 3 example_world).
  intros n. unfold example_world, NULL. cbn. lia.
Defined.

(** ** A worker with nobody on the other side *)

Section Worker_alone_facts.

Implicit Types (w : world) (func : bench_func) (l : list ptr).

Lemma room_nonneg cpu queue l : rep queue l -> 0 <= room cpu queue l.
Proof. intros (_ & _ & _ & _ & Hl & _). unfold room. destruct (enq_CPU cpu); lia. Qed.

(** A round succeeds exactly when there is room for it. *)
Lemma round_outcome func cpu queue l w :
  rep queue l ->
  (func = Time_cross_cpu_page_alloc_put -> alloc_never_fails w) ->
  if 0 <? room cpu queue l then
    round_fails func cpu queue w = false /\
    exists l',
      rep (if enq_CPU cpu then (ptr_ring_produce queue (payload_of func w)).1
           else (ptr_ring_consume queue).1) l' /\
      room cpu (if enq_CPU cpu then (ptr_ring_produce queue (payload_of func w)).1
                else (ptr_ring_consume queue).1) l'
      = room cpu queue l - 1 /\
      (if enq_CPU cpu then l' = l ++ [payload_of func w] else l' = drop 1 l)
  else round_fails func cpu queue w = true.
Proof.
  intros Hrep Hnn. unfold round_fails, room.
  pose proof Hrep as (_ & _ & _ & _ & Hl & Hall & _).
  destruct (enq_CPU cpu).
  - pose proof (rep_produce queue l (payload_of func w) Hrep (payload_not_null func w Hnn))
      as Hp.
    destruct (Z.ltb_spec (Z.of_nat (length l)) (r_size queue)) as [Hlt|Hge].
    + pose proof (produce_size queue (payload_of func w)) as Hs.
      destruct Hp as (r' & Hp & Hrep'). rewrite Hp in Hs |- *. cbn [fst snd] in Hs |- *.
      destruct (Z.ltb_spec 0 (r_size queue - Z.of_nat (length l))); [|lia].
      split; [reflexivity|]. exists (l ++ [payload_of func w]).
      split; [exact Hrep'|]. split; [|reflexivity].
      rewrite length_app. cbn [length]. lia.
    + rewrite Hp. cbn [fst snd].
      destruct (Z.ltb_spec 0 (r_size queue - Z.of_nat (length l))); [lia|reflexivity].
  - pose proof (rep_consume queue l Hrep) as Hc. destruct l as [|x l'].
    + rewrite Hc. reflexivity.
    + destruct Hc as (r' & -> & Hrep'). cbn [fst snd length].
      destruct (Z.ltb_spec 0 (Z.of_nat (S (length l')))); [|lia].
      inversion Hall as [|? ? Hx _]; subst.
      split; [now apply Z.eqb_neq|]. exists l'. split; [exact Hrep'|].
      split; [lia|reflexivity].
Qed.

Lemma run_task_S fuel pass t data w :
  run_task (S fuel) pass t data w
  = match t_pc t with
    | Returned _ => (t, data, w)
    | _ => run_task fuel pass (task_step pass t data w).1.1
             (task_step pass t data w).1.2 (task_step pass t data w).2
    end.
Proof.
  cbn [run_task]. destruct (t_pc t); try reflexivity;
    now destruct (task_step pass t data w) as [[? ?] ?].
Qed.

(** The loop from round [i] on, with [k] rounds left to go. *)
Lemma run_task_loop func cpu : forall (k : nat) i rec queue l w,
  0 <= i -> i + Z.of_nat k = rec_loops rec -> rec_loops rec < 2 ^ 31 ->
  rep queue l ->
  (func = Time_cross_cpu_page_alloc_put -> alloc_never_fails w) ->
  exists t' queue' l' w',
    run_task (S k) (pass_of func) (mk_task cpu (Loop i i) rec) (Some queue) w
    = (t', Some queue', w') /\
    t_pc t' = Returned (i + Z.min (Z.of_nat k) (room cpu queue l)) /\
    rec_invoked_cnt (t_rec t') = i + Z.min (Z.of_nat k) (room cpu queue l) /\
    rep queue' l' /\
    after_rounds cpu l l' (Z.to_nat (Z.min (Z.of_nat k) (room cpu queue l))).
Proof.
  induction k as [|k IH]; intros i rec queue l w Hi Hk Hl Hrep Hnn;
    pose proof (room_nonneg cpu queue l Hrep) as Hroom;
    rewrite run_task_S; cbn [t_pc]; unfold task_step; cbn [t_pc t_cpu t_rec].
  - rewrite pass_done by lia. cbn [fst snd].
    eexists _, queue, l, _. split; [reflexivity|]. cbn [t_pc t_rec rec_invoked_cnt].
    rewrite to_int_small by lia.
    replace (Z.min (Z.of_nat 0) (room cpu queue l)) with 0 by lia.
    split; [f_equal; lia|]. split; [lia|]. split; [exact Hrep|].
    unfold after_rounds. destruct (enq_CPU cpu); [|reflexivity].
    exists []. now rewrite app_nil_r.
  - rewrite pass_round by lia.
    pose proof (round_outcome func cpu queue l w Hrep Hnn) as Hout.
    destruct (Z.ltb_spec 0 (room cpu queue l)) as [Hpos|Hnone].
    + destruct Hout as (-> & l1 & Hrep1 & Hroom1 & Hl1). cbn [fst snd].
      set (queue1 := if enq_CPU cpu then _ else _) in *.
      set (w1 := (pass_of func cpu rec queue i i w).2).
      assert (Hnn1 : func = Time_cross_cpu_page_alloc_put -> alloc_never_fails w1).
      { intros E. eapply adds_never_fails; [apply adds_pass|exact (Hnn E)]. }
      destruct (IH (i + 1) rec queue1 l1 w1 ltac:(lia) ltac:(lia) Hl Hrep1 Hnn1)
        as (t' & queue' & l' & w' & Hrun & Hpc & Hcnt & Hrep' & Hafter).
      exists t', queue', l', w'. split; [exact Hrun|].
      rewrite Hroom1 in Hpc, Hcnt, Hafter.
      split; [rewrite Hpc; f_equal; lia|]. split; [lia|]. split; [exact Hrep'|].
      unfold after_rounds in *. destruct (enq_CPU cpu).
      * destruct Hafter as (added & -> & Hlen). subst l1.
        exists (payload_of func w :: added). rewrite <- app_assoc.
        split; [reflexivity|]. cbn [length]. lia.
      * subst l1 l'. rewrite drop_drop. f_equal. lia.
    + rewrite Hout. cbn [fst snd]. rewrite run_task_S. cbn [t_pc].
      eexists _, queue, l, _. split; [reflexivity|]. cbn [t_pc t_rec rec_invoked_cnt].
      rewrite to_int_small by lia.
      replace (Z.min (Z.of_nat (S k)) (room cpu queue l)) with 0 by lia.
      split; [f_equal; lia|]. split; [lia|]. split; [exact Hrep|].
      unfold after_rounds. destruct (enq_CPU cpu); [|reflexivity].
      exists []. now rewrite app_nil_r.
Qed.

Lemma worker_alone_counts func cpu rec queue l w :
  0 <= rec_loops rec < 2 ^ 31 ->
  rep queue l ->
  (func = Time_cross_cpu_page_alloc_put -> alloc_never_fails w) ->
  let out := run_worker (pass_of func) cpu rec (Some queue) w in
  let n := Z.min (rec_loops rec) (room cpu queue l) in
  out.1.1.1 = n /\ rec_invoked_cnt out.1.1.2 = n /\
  exists queue' l',
    out.1.2 = Some queue' /\ rep queue' l' /\ after_rounds cpu l l' (Z.to_nat n).
Proof.
  intros Hl Hrep Hnn. cbv zeta.
  assert (Hg : loops_too_big rec = false).
  { destruct (loops_too_big rec) eqn:E; [|reflexivity].
    apply guard_tripped in E; lia. }
  assert (Hrun : exists t' queue' l' w',
            run_task (steps_of rec) (pass_of func) (mk_task cpu Entry rec)
              (Some queue) w = (t', Some queue', w') /\
            t_pc t' = Returned (Z.min (rec_loops rec) (room cpu queue l)) /\
            rec_invoked_cnt (t_rec t') = Z.min (rec_loops rec) (room cpu queue l) /\
            rep queue' l' /\
            after_rounds cpu l l'
              (Z.to_nat (Z.min (rec_loops rec) (room cpu queue l)))).
  { unfold steps_of. rewrite Hg, run_task_S. cbn [t_pc]. unfold task_step.
    cbn [t_pc t_cpu t_rec]. unfold worker_entry.
    change (loops_too_big (set_step rec (b2z (enq_CPU cpu)))) with (loops_too_big rec).
    rewrite Hg. unfold time_bench_start, read_clock. cbn [fst snd].
    match goal with
    | |- context [run_task _ _ (mk_task cpu (Loop 0 0) ?r) (Some queue) ?w1] =>
        destruct (run_task_loop func cpu (Z.to_nat (rec_loops rec)) 0 r queue l w1)
          as (t' & queue' & l' & w' & Hrun & Hpc & Hcnt & Hrep' & Hafter)
    end.
    - lia.
    - cbn [rec_loops set_step]. lia.
    - cbn [rec_loops set_step]. lia.
    - exact Hrep.
    - exact Hnn.
    - rewrite Z2Nat.id in Hpc, Hcnt, Hafter by lia. rewrite Z.add_0_l in Hpc, Hcnt.
      exists t', queue', l', w'. auto. }
  destruct Hrun as (t' & queue' & l' & w' & Hrun & Hpc & Hcnt & Hrep' & Hafter).
  unfold run_worker. rewrite Hrun. cbn [fst snd]. unfold ret_of. rewrite Hpc.
  split; [reflexivity|]. split; [exact Hcnt|]. exists queue', l'. auto.
Qed.

End Worker_alone_facts.

(** X8.  A worker of either kind called with nobody on the other side
    stops when it has caught up with the queue (for the real-payload
    worker, with an allocator that never returns NULL): with a loop count
    that passes the guard and a queue that stands for [l], a consumer (odd
    CPU) returns the smaller of the loop count and the number of entries
    and leaves the queue without its oldest entries, that many; a
    producer (even CPU) returns the smaller of the loop count and the
    number of free slots and leaves the queue with that many payloads
    appended.  The count returned is the completed count stored in the
    record. *)
Theorem worker_alone (func : bench_func) (cpu : Z) (rec : time_bench_record)
    (queue : ptr_ring) (l : list ptr) (w : world) :
  0 <= rec_loops rec < 2 ^ 31 ->
  rep queue l ->
  (func = Time_cross_cpu_page_alloc_put -> alloc_never_fails w) ->
  let out := run_worker (pass_of func) cpu rec (Some queue) w in
  let n := Z.min (rec_loops rec) (room cpu queue l) in
  out.1.1.1 = n /\ rec_invoked_cnt out.1.1.2 = n /\
  exists queue' l',
    out.1.2 = Some queue' /\ rep queue' l' /\ after_rounds cpu l l' (Z.to_nat n).
Proof. apply worker_alone_counts. Qed.

Lemma worker_alone_witness :
  let out := run_worker (pass_of Time_cross_cpu_ptr_ring) 1
               (mk_record 5 0 0 None None)
               (Some (mk_ptr_ring 2 0 4 [42; 42; NULL; NULL])) example_world in
  out.1.1.1 = 2 /\ rec_invoked_cnt out.1.1.2 = 2 /\
  exists queue' l',
    out.1.2 = Some queue' /\ rep queue' l' /\ l' = [].
Proof.
  destruct (worker_alone Time_cross_cpu_ptr_ring 1 (mk_record 5 0 0 None None)
              (mk_ptr_ring 2 0 4 [42; 42; NULL; NULL]) [42; 42] example_world)
    as (H1 & H2 & queue' & l' & Hq & Hrep & Hafter).
  - cbn. lia.
  - unfold rep. cbn. split; [lia|]. split; [reflexivity|]. split; [lia|].
    split; [lia|]. split; [lia|]. split; [repeat constructor; discriminate|].
    split; [reflexivity|]. intros k Hk.
    assert (Hc : k = 0 \/ k = 1 \/ k = 2 \/ k = 3) by lia.
    destruct Hc as [->|[->|[->| ->]]]; reflexivity.
  - discriminate.
  - split; [exact H1|]. split; [exact H2|]. exists queue', l'.
    split; [exact Hq|]. split; [exact Hrep|exact Hafter].
Defined.

(** * Scenarios from end to end *)

(** ** Prefill against capacity *)

Section Prefill_bound_facts.

Implicit Types (w : world) (queue : ptr_ring) (l : list ptr).

Lemma prefill_pages_length (fake_ptr : bool) w n :
  length (prefill_pages fake_ptr w n) = n.
Proof.
  unfold prefill_pages, next_pages. destruct fake_ptr.
  - apply length_replicate.
  - now rewrite length_map, length_seq.
Qed.

(** A failing prefill logs why, right before it returns. *)
Lemma prefill_loop_failure_logged n : forall queue q_size prefill (fake_ptr : bool) w,
  (prefill_loop n queue q_size prefill fake_ptr w).1.1 = false ->
  exists m evs,
    w_trace (prefill_loop n queue q_size prefill fake_ptr w).2
    = Ev_pr_err m :: evs ++ w_trace w /\
    (m = Alloc_cannot_prefill prefill q_size \/ m = Queue_cannot_prefill prefill q_size) /\
    Forall no_spawn evs.
Proof.
  induction n as [|n IH]; intros queue q_size prefill fake_ptr w; cbn [prefill_loop];
    [discriminate|].
  assert (Hpw : exists evs0,
            w_trace (if fake_ptr then (fake_ptr_page, w) else alloc_pages w).2
            = evs0 ++ w_trace w /\ Forall no_spawn evs0).
  { destruct fake_ptr; [now exists []|].
    exists [Ev_alloc_pages (alloc_pages w).1]. split; [reflexivity|].
    now repeat constructor. }
  destruct Hpw as (evs0 & Ht0 & Hall0).
  destruct (if fake_ptr then (fake_ptr_page, w) else alloc_pages w) as [page w1].
  cbn [snd] in Ht0.
  destruct (negb fake_ptr && (page =? NULL)).
  - intros _. exists (Alloc_cannot_prefill prefill q_size), evs0.
    cbn [snd]. unfold pr_err. rewrite trace_emit, Ht0. auto.
  - destruct (ptr_ring_produce queue page) as [queue' rc].
    destruct (rc <? 0).
    + intros _. exists (Queue_cannot_prefill prefill q_size), evs0.
      cbn [snd]. unfold pr_err. rewrite trace_emit, Ht0. auto.
    + intros Hf. destruct (IH queue' q_size prefill fake_ptr w1 Hf)
        as (m & evs & Ht & Hm & Hall).
      exists m, (evs ++ evs0). rewrite Ht, Ht0, <- app_assoc.
      split; [reflexivity|]. split; [exact Hm|]. now apply Forall_app.
Qed.

Lemma init_queue_failure_logged q_size prefill (fake_ptr : bool) w :
  (init_queue zeroed q_size prefill fake_ptr w).1.1 = false ->
  exists m evs,
    w_trace (init_queue zeroed q_size prefill fake_ptr w).2
    = Ev_pr_err m :: evs ++ w_trace w /\
    (m = Err_creating_queue q_size \/ m = Alloc_cannot_prefill prefill q_size \/
     m = Queue_cannot_prefill prefill q_size) /\
    Forall no_spawn evs.
Proof.
  unfold init_queue.
  destruct (ptr_ring_init zeroed q_size (w_kmalloc_ok w q_size)) as [r rc].
  destruct (rc <? 0).
  - intros _. exists (Err_creating_queue q_size), []. cbn [snd app].
    unfold pr_err. rewrite trace_emit. auto.
  - intros Hf.
    destruct (prefill_loop_failure_logged _ r q_size prefill fake_ptr w Hf)
      as (m & evs & Ht & Hm & Hall).
    exists m, evs. split; [exact Ht|]. split; [tauto|exact Hall].
Qed.

(** A successful [init_queue] leaves the queue with exactly the payloads
    it was to prefill, at the size asked for. *)
Lemma init_queue_filled q_size prefill (fake_ptr : bool) w :
  (init_queue zeroed q_size prefill fake_ptr w).1.1 = true ->
  r_size (init_queue zeroed q_size prefill fake_ptr w).1.2 = q_size /\
  rep (init_queue zeroed q_size prefill fake_ptr w).1.2
    (prefill_pages fake_ptr w (Z.to_nat prefill)).
Proof.
  unfold init_queue.
  destruct (ptr_ring_init zeroed q_size (w_kmalloc_ok w q_size)) as [r rc] eqn:E.
  assert (Hr : rc = 0 /\ rep r [] /\ r_size r = q_size \/ rc = - ENOMEM).
  { pose proof (rep_init q_size (w_kmalloc_ok w q_size) zeroed r) as Hi.
    unfold ptr_ring_init in E, Hi. destruct (_ && _).
    - injection E as <- <-. left. split; [reflexivity|]. split; [now apply Hi|reflexivity].
    - injection E as <- <-. now right. }
  destruct Hr as [(-> & Hrep & Hsz)| ->].
  - change (0 <? 0) with false. cbv iota. intros Hok.
    destruct (prefill_loop_contents (Z.to_nat prefill) r [] q_size prefill fake_ptr w Hrep)
      as (k & Hk & Hrepk & Hsz' & Hall).
    specialize (Hall Hok). subst k.
    rewrite firstn_all2 in Hrepk by (rewrite prefill_pages_length; lia).
    split; [now rewrite Hsz'|exact Hrepk].
  - change (- ENOMEM <? 0) with true. cbv iota. discriminate.
Qed.

End Prefill_bound_facts.

(** C5 (as amended).  The prefill count must not exceed the queue
    capacity.  A scenario whose prefill count exceeds it fails in
    [init_queue], whatever the allocator does: [init_queue] returns false
    with an error logged as its last act, and the scenario spawns no
    worker.  A prefill count equal to the capacity, or below it, is
    accepted: provided the slot array can be allocated and, for real
    payloads, the page allocator does not fail, [init_queue] succeeds and
    leaves the queue, of the size asked for, holding exactly the payloads
    to prefill, so that with a prefill count equal to the capacity the
    queue is full and a further produce fails; an enabled scenario then
    goes on to spawn its two workers. *)
Theorem prefill_bound (func : bench_func) (run_flags loops q_size prefill : Z)
    (w : world) :
  let w0 := emit Ev_kzalloc_queue w in
  let out := init_queue zeroed q_size prefill (fake_ptr_of func) w0 in
  (q_size < prefill ->
     out.1.1 = false /\
     (exists m evs,
        w_trace out.2 = Ev_pr_err m :: evs ++ w_trace w0 /\
        (m = Err_creating_queue q_size \/ m = Alloc_cannot_prefill prefill q_size \/
         m = Queue_cannot_prefill prefill q_size) /\
        Forall no_spawn evs) /\
     spawned (w_trace (scenario func run_flags loops q_size prefill w))
     = spawned (w_trace w)) /\
  (prefill <= q_size -> 0 <= q_size -> w_kmalloc_ok w q_size = true ->
   (func = Time_cross_cpu_page_alloc_put -> alloc_never_fails w) ->
     out.1.1 = true /\
     r_size out.1.2 = q_size /\
     rep out.1.2 (prefill_pages (fake_ptr_of func) w0 (Z.to_nat prefill)) /\
     (prefill = q_size ->
        forall p, p <> NULL -> ptr_ring_produce out.1.2 p = (out.1.2, - ENOSPC)) /\
     spawned (w_trace (scenario func run_flags loops q_size prefill w))
     = if run_enabled run_flags (bit_of func)
       then 1 :: 0 :: spawned (w_trace w)
       else spawned (w_trace w)).
Proof.
  cbv zeta. split.
  - intros Hlt. pose proof (init_queue_too_many q_size prefill (fake_ptr_of func)
                              (emit Ev_kzalloc_queue w) Hlt) as Hf.
    split; [exact Hf|]. split; [now apply init_queue_failure_logged|].
    rewrite scenario_spawned, Hf, andb_false_r. reflexivity.
  - intros Hle Hq Hk Hnn.
    assert (Ht : (init_queue zeroed q_size prefill (fake_ptr_of func)
                    (emit Ev_kzalloc_queue w)).1.1 = true).
    { apply init_queue_fits; try assumption.
      intros Ef. apply Hnn. now destruct func. }
    destruct (init_queue_filled q_size prefill (fake_ptr_of func)
                (emit Ev_kzalloc_queue w) Ht) as [Hsz Hrep].
    split; [exact Ht|]. split; [exact Hsz|]. split; [exact Hrep|]. split.
    + intros -> p Hp. pose proof (rep_produce _ _ p Hrep Hp) as Hprod.
      rewrite prefill_pages_length, Hsz, Z2Nat.id, Z.ltb_irrefl in Hprod by lia.
      exact Hprod.
    + rewrite scenario_spawned, Ht, andb_true_r. reflexivity.
Qed.

Lemma prefill_bound_witness :
  (init_queue zeroed 2 2 true (emit Ev_kzalloc_queue example_world)).1.1 = true /\
  rep (init_queue zeroed 2 2 true (emit Ev_kzalloc_queue example_world)).1.2 [42; 42] /\
  spawned (w_trace (scenario Time_cross_cpu_ptr_ring (2 ^ 32 - 1) 1 2 2
                      example_world)) = [1; 0] /\
  (exists m evs,
     w_trace (init_queue zeroed 2 3 true (emit Ev_kzalloc_queue example_world)).2
     = Ev_pr_err m :: evs ++ [Ev_kzalloc_queue]) /\
  spawned (w_trace (scenario Time_cross_cpu_ptr_ring (2 ^ 32 - 1) 1 2 3
                      example_world)) = [].
Proof.
  destruct (prefill_bound Time_cross_cpu_ptr_ring (2 ^ 32 - 1) 1 2 2 example_world)
    as [_ H].
  destruct H as (H1 & _ & H2 & _ & H3); [lia | lia | reflexivity | discriminate |].
  destruct (prefill_bound Time_cross_cpu_ptr_ring (2 ^ 32 - 1) 1 2 3 example_world)
    as [H _].
  destruct H as (_ & (m & evs & H4 & _) & H5); [lia|].
  split; [exact H1|]. split; [exact H2|]. split; [exact H3|].
  split; [exists m, evs; exact H4|exact H5].
Defined.

(** C5 (as stated) fails at prefill = capacity: with 2 slots and 2 payloads
    to prefill, [init_queue] succeeds and both workers are spawned. *)
Lemma prefill_bound_counterexample :
  ~ (forall run_flags loops q_size prefill w,
       q_size <= prefill ->
       (init_queue zeroed q_size prefill true (emit Ev_kzalloc_queue w)).1.1 = false /\
       spawned (w_trace (run_bench_baseline_ptr_ring_cross_cpu
                           run_flags loops q_size prefill w))
       = spawned (w_trace w)).
Proof.
  intros H.
  destruct (H (2 ^ 32 - 1) 1 2 2 example_world ltac:(lia)) as [H1 _].
  vm_compute in H1. discriminate H1.
Qed.

(** ** Runs that go the whole way *)

Section Full_run_facts.

Implicit Types (w : world) (func : bench_func) (t : task) (l : list ptr)
  (queue : ptr_ring).

Lemma consume_size r : r_size (ptr_ring_consume r).1 = r_size r.
Proof. unfold ptr_ring_consume. now destruct (_ =? NULL). Qed.

Lemma guard_not_tripped rec : 0 <= rec_loops rec < 2 ^ 31 -> loops_too_big rec = false.
Proof.
  intros Hl. destruct (loops_too_big rec) eqn:E; [|reflexivity].
  apply guard_tripped in E; lia.
Qed.

Lemma done_of_bounds loops t : on_course loops t -> 0 <= loops -> 0 <= done_of t <= loops.
Proof.
  unfold on_course, done_of. intros [_ H] Hl.
  destruct (t_pc t); [lia| |]; destruct H as (? & ? & ?); lia.
Qed.

(** One step of a worker that is on course and finds room for its round. *)
Lemma step_on_course func loops t queue l w :
  0 <= loops < 2 ^ 31 ->
  on_course loops t -> rep queue l ->
  (func = Time_cross_cpu_page_alloc_put -> alloc_never_fails w) ->
  (done_of t < loops -> 0 < room (t_cpu t) queue l) ->
  let out := task_step (pass_of func) t (Some queue) w in
  on_course loops out.1.1 /\
  t_cpu out.1.1 = t_cpu t /\
  (func = Time_cross_cpu_page_alloc_put -> alloc_never_fails out.2) /\
  exists queue' l',
    out.1.2 = Some queue' /\ rep queue' l' /\ r_size queue' = r_size queue /\
    Z.of_nat (length l')
    = Z.of_nat (length l)
      + (if enq_CPU (t_cpu t) then 1 else -1) * (done_of out.1.1 - done_of t).
Proof.
  intros Hl [Hloops Hpc] Hrep Hnn Hroom. cbv zeta.
  split; [|split; [apply task_step_cpu|]].
  all: revert Hpc Hroom; unfold task_step, done_of, on_course;
    destruct (t_pc t) as [|i cnt|ret] eqn:Epc; intros Hpc Hroom.
  - unfold worker_entry.
    change (loops_too_big (set_step (t_rec t) (b2z (enq_CPU (t_cpu t)))))
      with (loops_too_big (t_rec t)).
    rewrite guard_not_tripped by lia.
    unfold time_bench_start, read_clock. cbn.
    split; [exact Hloops|]. split; [reflexivity|]. split; [lia|discriminate].
  - destruct Hpc as (-> & Hi & Hs).
    destruct (Z.ltb_spec i loops) as [Hlt|Hge].
    + rewrite pass_round by lia.
      pose proof (round_outcome func (t_cpu t) queue l w Hrep Hnn) as Hout.
      destruct (Z.ltb_spec 0 (room (t_cpu t) queue l)) as [_|Hno];
        [|specialize (Hroom Hlt); lia].
      destruct Hout as (-> & _). cbn [fst snd t_pc t_rec].
      split; [exact Hloops|]. split; [reflexivity|]. split; [lia|exact Hs].
    + rewrite pass_done by lia. cbn [fst snd t_pc t_rec rec_loops rec_invoked_cnt
                                       rec_start rec_stop].
      rewrite to_int_small by lia.
      split; [exact Hloops|]. split; [lia|]. split; [lia|].
      split; [exact Hs|discriminate].
  - cbn [fst snd]. rewrite Epc. split; [exact Hloops|exact Hpc].
  - split.
    + intros E. eapply adds_never_fails; [|exact (Hnn E)].
      pose proof (adds_entry (t_cpu t) (t_rec t) (Some queue) w) as H.
      destruct (worker_entry _ _ _ _) as [[? ?] ?]. exact H.
    + exists queue, l.
      destruct (worker_entry _ _ _ _) as [[p ?] ?] eqn:E. cbn [fst snd t_pc].
      assert (p = Loop 0 0) as ->.
      { revert E. unfold worker_entry.
        change (loops_too_big (set_step (t_rec t) (b2z (enq_CPU (t_cpu t)))))
          with (loops_too_big (t_rec t)).
        rewrite guard_not_tripped by lia.
        unfold time_bench_start, read_clock. now intros [= <- _ _]. }
      split; [reflexivity|]. split; [exact Hrep|]. split; [reflexivity|lia].
  - destruct Hpc as (-> & Hi & Hs). split.
    + intros E. eapply adds_never_fails; [|exact (Hnn E)].
      pose proof (adds_pass func (t_cpu t) (t_rec t) queue i i w) as H.
      destruct (pass_of func _ _ _ _ _ _) as [[[? ?] ?] ?]. exact H.
    + destruct (Z.ltb_spec i loops) as [Hlt|Hge].
      * rewrite pass_round by lia.
        pose proof (round_outcome func (t_cpu t) queue l w Hrep Hnn) as Hout.
        destruct (Z.ltb_spec 0 (room (t_cpu t) queue l)) as [_|Hno];
          [|specialize (Hroom Hlt); lia].
        destruct Hout as (-> & l' & Hrep' & _ & Hl'). cbn [fst snd t_pc].
        eexists _, l'. split; [reflexivity|]. split; [exact Hrep'|].
        specialize (Hroom Hlt). unfold room in Hroom.
        destruct (enq_CPU (t_cpu t)); subst l'.
        -- split; [apply produce_size|]. rewrite length_app. cbn [length]. lia.
        -- split; [apply consume_size|]. rewrite length_drop. lia.
      * rewrite pass_done by lia. cbn [fst snd t_pc]. rewrite to_int_small by lia.
        exists queue, l. split; [reflexivity|]. split; [exact Hrep|].
        split; [reflexivity|]. nia.
  - cbn [fst snd]. rewrite Epc. split; [exact Hnn|]. exists queue, l.
    split; [reflexivity|]. split; [exact Hrep|]. split; [reflexivity|lia].
Qed.

(** With two workers a scheduling step moves the one or the other, if
    it has not returned, or nobody. *)
Lemma step_pick_pair pass (k : nat) t0 t1 data w :
  step_pick k pass [t0; t1] data w = ([t0; t1], data, w)
  \/ (finished t0 = false /\
      step_pick k pass [t0; t1] data w
      = ([(task_step pass t0 data w).1.1; t1],
         (task_step pass t0 data w).1.2, (task_step pass t0 data w).2))
  \/ (finished t1 = false /\
      step_pick k pass [t0; t1] data w
      = ([t0; (task_step pass t1 data w).1.1],
         (task_step pass t1 data w).1.2, (task_step pass t1 data w).2)).
Proof.
  cbn [step_pick].
  destruct (finished t0) eqn:E0; [|destruct k as [|k]].
  - destruct (finished t1) eqn:E1; [now left|].
    destruct k as [|k]; [|now left].
    right. right. split; [reflexivity|].
    now destruct (task_step pass t1 data w) as [[? ?] ?].
  - right. left. split; [reflexivity|].
    now destruct (task_step pass t0 data w) as [[? ?] ?].
  - destruct (finished t1) eqn:E1; [now left|].
    destruct k as [|k]; [|now left].
    right. right. split; [reflexivity|].
    now destruct (task_step pass t1 data w) as [[? ?] ?].
Qed.

(** With at least [loops] payloads prefilled and room for [loops] more,
    no round of either worker fails: the two stay in step. *)
Lemma in_step_step_pick func loops prefill (k : nat) ts data w :
  0 <= loops < 2 ^ 31 -> loops <= prefill ->
  in_step func loops prefill ts data w ->
  in_step func loops prefill
    (step_pick k (pass_of func) ts data w).1.1
    (step_pick k (pass_of func) ts data w).1.2
    (step_pick k (pass_of func) ts data w).2.
Proof.
  intros Hl Hpre (t0 & t1 & queue & l & -> & Hc0 & Hc1 & Ht0 & Ht1 & -> & Hrep
                  & Hsz & Hlen & Hnn).
  pose proof (done_of_bounds loops t0 Ht0 ltac:(lia)) as Hd0.
  pose proof (done_of_bounds loops t1 Ht1 ltac:(lia)) as Hd1.
  destruct (step_pick_pair (pass_of func) k t0 t1 (Some queue) w)
    as [-> | [[_ ->] | [_ ->]]]; cbn [fst snd].
  - exists t0, t1, queue, l. auto 10.
  - destruct (step_on_course func loops t0 queue l w Hl Ht0 Hrep Hnn)
      as (Ht0' & Hcpu & Hnn' & queue' & l' & Hq & Hrep' & Hsz' & Hlen').
    { intros Hlt. unfold room. rewrite Hc0. change (enq_CPU 0) with true. lia. }
    rewrite Hc0 in Hlen'. change (enq_CPU 0) with true in Hlen'.
    exists (task_step (pass_of func) t0 (Some queue) w).1.1, t1, queue', l'.
    split; [reflexivity|]. split; [congruence|]. split; [exact Hc1|].
    split; [exact Ht0'|]. split; [exact Ht1|]. split; [exact Hq|].
    split; [exact Hrep'|]. split; [lia|]. split; [lia|exact Hnn'].
  - destruct (step_on_course func loops t1 queue l w Hl Ht1 Hrep Hnn)
      as (Ht1' & Hcpu & Hnn' & queue' & l' & Hq & Hrep' & Hsz' & Hlen').
    { intros Hlt. unfold room. rewrite Hc1. change (enq_CPU 1) with false. lia. }
    rewrite Hc1 in Hlen'. change (enq_CPU 1) with false in Hlen'.
    exists t0, (task_step (pass_of func) t1 (Some queue) w).1.1, queue', l'.
    split; [reflexivity|]. split; [exact Hc0|]. split; [congruence|].
    split; [exact Ht0|]. split; [exact Ht1'|]. split; [exact Hq|].
    split; [exact Hrep'|]. split; [lia|]. split; [lia|exact Hnn'].
Qed.

Lemma in_step_run_tasks func loops prefill fuel : forall ts data w,
  0 <= loops < 2 ^ 31 -> loops <= prefill ->
  in_step func loops prefill ts data w ->
  in_step func loops prefill
    (run_tasks fuel (pass_of func) ts data w).1.1
    (run_tasks fuel (pass_of func) ts data w).1.2
    (run_tasks fuel (pass_of func) ts data w).2.
Proof.
  induction fuel as [|fuel IH]; intros ts data w Hl Hpre Hin; cbn [run_tasks];
    [exact Hin|].
  destruct (unfinished ts) as [|n]; [exact Hin|].
  assert (Hin1 : in_step func loops prefill ts data (next_pick w).2).
  { destruct Hin as (t0 & t1 & queue & l & H). exists t0, t1, queue, l.
    repeat (destruct H as [? H]). repeat (split; [assumption|]).
    intros E. eapply adds_never_fails; [apply (adds_pick (fun _ => True))|auto]. }
  destruct (next_pick w) as [pick w1]. cbn [snd] in Hin1.
  pose proof (in_step_step_pick func loops prefill (pick mod S n)%nat ts data w1
                Hl Hpre Hin1) as Hin2.
  destruct (step_pick _ _ ts data w1) as [[ts' data'] w']. cbn [fst snd] in Hin2.
  now apply IH.
Qed.

(** The concurrent run of the two workers on a queue prefilled with
    [prefill] payloads, with [loops] of them to spare and room for
    [loops] more: under every schedule both workers return [loops] and
    the queue holds [prefill] payloads again. *)
Lemma run_concurrent_in_step func loops prefill queue l w :
  0 <= loops < 2 ^ 31 -> loops <= prefill ->
  rep queue l -> Z.of_nat (length l) = prefill ->
  prefill + loops <= r_size queue ->
  (func = Time_cross_cpu_page_alloc_put -> alloc_never_fails w) ->
  let out := time_bench_run_concurrent loops 0 (Some queue) cpumask01 (pass_of func) w in
  exists t0 t1 queue' l',
    out.1.1 = [t0; t1] /\ t_cpu t0 = 0 /\ t_cpu t1 = 1 /\
    t_pc t0 = Returned loops /\ t_pc t1 = Returned loops /\
    full_record loops 1 (t_rec t0) /\ full_record loops 0 (t_rec t1) /\
    out.1.2 = Some queue' /\ rep queue' l' /\ Z.of_nat (length l') = prefill.
Proof.
  intros Hl Hpre Hrep Hlen Hsz Hnn. cbv zeta.
  pose proof (run_concurrent_all_finished func loops 0 queue cpumask01 w) as Hfin.
  pose proof (run_concurrent_roles func loops 0 queue cpumask01 w) as Hroles.
  revert Hfin Hroles. unfold time_bench_run_concurrent. rewrite spawn_spec.
  set (ts := map _ cpumask01). set (ws := foldl _ w cpumask01).
  intros Hfin Hroles.
  assert (Hin : in_step func loops prefill ts (Some queue) ws).
  { eexists _, _, queue, l. split; [reflexivity|]. cbn [t_cpu].
    split; [reflexivity|]. split; [reflexivity|].
    split; [now split|]. split; [now split|]. split; [reflexivity|].
    split; [exact Hrep|]. split; [exact Hsz|]. split; [cbn; lia|].
    intros E. eapply adds_never_fails; [apply spawn_world_adds|auto]. }
  pose proof (in_step_run_tasks func loops prefill (total_remaining ts) ts
                (Some queue) ws Hl Hpre Hin) as Hout.
  destruct (run_tasks _ _ ts (Some queue) ws) as [[ts' data'] w']. cbn [fst snd] in *.
  destruct Hout as (t0 & t1 & queue' & l' & -> & Hc0 & Hc1 & [Hl0 Ht0] & [Hl1 Ht1] & ->
                    & Hrep' & _ & Hlen' & _).
  pose proof (Forall_inv Hfin) as Hf0.
  pose proof (Forall_inv (Forall_inv_tail Hfin)) as Hf1.
  pose proof (Forall_inv Hroles) as Hr0.
  pose proof (Forall_inv (Forall_inv_tail Hroles)) as Hr1.
  cbv beta in Hf0, Hf1, Hr0, Hr1.
  rewrite Hc0 in Hr0. rewrite Hc1 in Hr1.
  unfold finished in Hf0, Hf1. unfold done_of in Hlen'.
  destruct (t_pc t0) as [| |r0] eqn:E0; try discriminate.
  destruct (t_pc t1) as [| |r1] eqn:E1; try discriminate.
  destruct Ht0 as (-> & Hi0 & Hs0 & He0). destruct Ht1 as (-> & Hi1 & Hs1 & He1).
  exists t0, t1, queue', l'.
  split; [reflexivity|]. split; [exact Hc0|]. split; [exact Hc1|].
  split; [exact E0|]. split; [exact E1|].
  split; [now repeat split|]. split; [now repeat split|].
  split; [reflexivity|]. split; [exact Hrep'|lia].
Qed.

(** *** Reports *)

Lemma print_stats_reports d cpu rec w :
  exists evs,
    w_trace (print_stats d cpu rec w) = Ev_stats d cpu rec :: evs ++ w_trace w /\
    Forall is_log evs.
Proof.
  unfold print_stats. destruct (_ <? _).
  - eexists [_]. unfold pr_err. rewrite !trace_emit. split; [reflexivity|].
    now repeat constructor.
  - exists []. rewrite trace_emit. now split.
Qed.

Lemma print_cpumask_reports d ts : forall w,
  exists evs,
    w_trace (time_bench_print_stats_cpumask d ts w) = evs ++ w_trace w /\
    Forall is_log evs /\
    forall t, In t ts -> In (Ev_stats d (t_cpu t) (t_rec t)) evs.
Proof.
  unfold time_bench_print_stats_cpumask.
  induction ts as [|t ts IH]; intros w; cbn [foldl].
  - exists []. repeat split; [constructor|intros t []].
  - destruct (print_stats_reports d (t_cpu t) (t_rec t) w) as (evs1 & Ht1 & Hall1).
    destruct (IH (print_stats d (t_cpu t) (t_rec t) w)) as (evs & Ht & Hall & Hin).
    exists (evs ++ Ev_stats d (t_cpu t) (t_rec t) :: evs1).
    rewrite Ht, Ht1, <- app_assoc. split; [reflexivity|]. split.
    + apply Forall_app. split; [exact Hall|]. now constructor.
    + intros t' [<-|Ht']; apply in_or_app; [right; now left|left; now apply Hin].
Qed.

(** *** The scenario *)

(** A cross-CPU scenario that is enabled, gets its memory, and has at
    least [loops] payloads prefilled and room for [loops] more: under
    every schedule it runs in full. *)
Lemma scenario_completes func run_flags loops q_size prefill w :
  run_enabled run_flags (bit_of func) = true ->
  0 <= loops < 2 ^ 31 -> loops <= prefill -> prefill + loops <= q_size ->
  w_kmalloc_ok w q_size = true ->
  (func = Time_cross_cpu_page_alloc_put -> alloc_never_fails w) ->
  exists evs,
    w_trace (scenario func run_flags loops q_size prefill w) = evs ++ w_trace w /\
    ran_in_full func loops evs.
Proof.
  intros Hen Hl Hpre Hroom Hk Hnn.
  assert (Hok : (init_queue zeroed q_size prefill (fake_ptr_of func)
                   (emit Ev_kzalloc_queue w)).1.1 = true).
  { apply init_queue_fits; [lia|exact Hk| |lia].
    intros Ef. apply Hnn. now destruct func. }
  destruct (init_queue_filled q_size prefill (fake_ptr_of func)
              (emit Ev_kzalloc_queue w) Hok) as [Hsz Hrep].
  pose proof (scenario_spawned func run_flags loops q_size prefill w) as Hsp.
  rewrite Hen, Hok in Hsp. cbn [andb] in Hsp.
  pose proof (adds_init_queue zeroed q_size prefill (fake_ptr_of func)
                (emit Ev_kzalloc_queue w)) as Hinit.
  revert Hsp. rewrite scenario_unfold, Hen, body_unfold. unfold cross_cpu_run.
  destruct (init_queue zeroed q_size prefill (fake_ptr_of func)
              (emit Ev_kzalloc_queue w)) as [[ok queue] w1].
  cbn [fst snd] in Hok, Hsz, Hrep, Hinit. subst ok.
  assert (Hnn1 : func = Time_cross_cpu_page_alloc_put -> alloc_never_fails w1).
  { intros E. eapply adds_never_fails; [exact Hinit|]. exact (Hnn E). }
  destruct (run_concurrent_in_step func loops prefill queue _ w1 Hl Hpre Hrep)
    as (t0 & t1 & queue' & l' & Hts & Hc0 & Hc1 & _ & _ & Hr0 & Hr1 & Hq & _).
  { rewrite prefill_pages_length. lia. }
  { lia. }
  { exact Hnn1. }
  pose proof (run_concurrent_adds func loops 0 (Some queue) cpumask01 w1)
    as ((evs_run & Hrun & _) & _).
  unfold run_parallel.
  destruct (time_bench_run_concurrent loops 0 (Some queue) cpumask01 (pass_of func) w1)
    as [[ts data'] w2]. cbn [fst snd] in *. subst ts data'.
  destruct (print_cpumask_reports (description_of func) [t0; t1] w2)
    as (evs_rep & Hrep_t & _ & Hin).
  destruct (teardown_trace func queue'
              (time_bench_print_stats_cpumask (description_of func) [t0; t1] w2))
    as (evs_td & Htd).
  destruct Hinit as ((evs_init & Hinit & _) & _).
  cbn [default]. intros Hsp.
  set (spawn_evs := w_trace (foldl (fun w cpu => emit (Ev_kthread_run cpu) w) w1
                               cpumask01)) in *.
  assert (Hspawn : spawn_evs = Ev_kthread_run 1 :: Ev_kthread_run 0 :: w_trace w1)
    by reflexivity.
  exists (Ev_kfree_queue :: evs_td ++ evs_rep ++ evs_run
          ++ Ev_kthread_run 1 :: Ev_kthread_run 0 :: evs_init ++ [Ev_kzalloc_queue]).
  assert (Htrace :
    w_trace (cross_cpu_teardown (destroy_of func) queue'
               (time_bench_print_stats_cpumask (description_of func) [t0; t1] w2))
    = (Ev_kfree_queue :: evs_td ++ evs_rep ++ evs_run
       ++ Ev_kthread_run 1 :: Ev_kthread_run 0 :: evs_init ++ [Ev_kzalloc_queue])
      ++ w_trace w).
  { rewrite Htd, Hrep_t, Hrun, Hspawn, Hinit, trace_emit.
    cbn [app]. rewrite <- !app_assoc. cbn [app]. rewrite <- !app_assoc. reflexivity. }
  split; [exact Htrace|]. split.
  - change (id queue') with queue' in Hsp. rewrite Htrace, spawned_split in Hsp.
    change (1 :: 0 :: spawned (w_trace w)) with ([1; 0] ++ spawned (w_trace w)) in Hsp.
    now apply app_inv_tail in Hsp.
  - exists (t_rec t0), (t_rec t1).
    assert (H0 : In (Ev_stats (description_of func) 0 (t_rec t0)) evs_rep)
      by (rewrite <- Hc0; apply Hin; now left).
    assert (H1 : In (Ev_stats (description_of func) 1 (t_rec t1)) evs_rep)
      by (rewrite <- Hc1; apply Hin; right; now left).
    split; [right; apply in_or_app; right; apply in_or_app; now left|].
    split; [right; apply in_or_app; right; apply in_or_app; now left|].
    split; assumption.
Qed.

(** A cross-CPU scenario that is enabled and whose [init_queue] succeeds
    runs its workers, whatever the loop count, the allocator and the
    schedule. *)
Lemma scenario_executes func run_flags loops q_size prefill w :
  run_enabled run_flags (bit_of func) = true ->
  (init_queue zeroed q_size prefill (fake_ptr_of func) (emit Ev_kzalloc_queue w)).1.1
  = true ->
  exists evs,
    w_trace (scenario func run_flags loops q_size prefill w) = evs ++ w_trace w /\
    ran_workers func evs.
Proof.
  intros Hen Hok.
  pose proof (scenario_spawned func run_flags loops q_size prefill w) as Hsp.
  rewrite Hen, Hok in Hsp. cbn [andb] in Hsp.
  pose proof (adds_init_queue zeroed q_size prefill (fake_ptr_of func)
                (emit Ev_kzalloc_queue w)) as Hinit.
  revert Hsp. rewrite scenario_unfold, Hen, body_unfold. unfold cross_cpu_run.
  destruct (init_queue zeroed q_size prefill (fake_ptr_of func)
              (emit Ev_kzalloc_queue w)) as [[ok queue] w1].
  cbn [fst snd] in Hok, Hinit. subst ok.
  pose proof (run_concurrent_roles func loops 0 queue cpumask01 w1) as Hroles.
  pose proof (run_concurrent_adds func loops 0 (Some queue) cpumask01 w1)
    as ((evs_run & Hrun & _) & _).
  assert (Hcpus : map t_cpu (time_bench_run_concurrent loops 0 (Some queue) cpumask01
                               (pass_of func) w1).1.1 = cpumask01).
  { unfold time_bench_run_concurrent. rewrite spawn_spec, run_tasks_cpus.
    reflexivity. }
  unfold run_parallel.
  destruct (time_bench_run_concurrent loops 0 (Some queue) cpumask01 (pass_of func) w1)
    as [[ts data'] w2]. cbn [fst snd] in *.
  destruct ts as [|t0 [|t1 [|t2 ts]]]; try discriminate.
  injection Hcpus as Hc0 Hc1.
  pose proof (Forall_inv Hroles) as Hr0.
  pose proof (Forall_inv (Forall_inv_tail Hroles)) as Hr1.
  cbv beta in Hr0, Hr1. rewrite Hc0 in Hr0. rewrite Hc1 in Hr1.
  destruct (print_cpumask_reports (description_of func) [t0; t1] w2)
    as (evs_rep & Hrep_t & _ & Hin).
  destruct (teardown_trace func (default queue data')
              (time_bench_print_stats_cpumask (description_of func) [t0; t1] w2))
    as (evs_td & Htd).
  destruct Hinit as ((evs_init & Hinit & _) & _).
  intros Hsp.
  set (spawn_evs := w_trace (foldl (fun w cpu => emit (Ev_kthread_run cpu) w) w1
                               cpumask01)) in *.
  assert (Hspawn : spawn_evs = Ev_kthread_run 1 :: Ev_kthread_run 0 :: w_trace w1)
    by reflexivity.
  exists (Ev_kfree_queue :: evs_td ++ evs_rep ++ evs_run
          ++ Ev_kthread_run 1 :: Ev_kthread_run 0 :: evs_init ++ [Ev_kzalloc_queue]).
  assert (Htrace :
    w_trace (cross_cpu_teardown (destroy_of func) (default queue data')
               (time_bench_print_stats_cpumask (description_of func) [t0; t1] w2))
    = (Ev_kfree_queue :: evs_td ++ evs_rep ++ evs_run
       ++ Ev_kthread_run 1 :: Ev_kthread_run 0 :: evs_init ++ [Ev_kzalloc_queue])
      ++ w_trace w).
  { rewrite Htd, Hrep_t, Hrun, Hspawn, Hinit, trace_emit.
    cbn [app]. rewrite <- !app_assoc. cbn [app]. rewrite <- !app_assoc. reflexivity. }
  split; [exact Htrace|]. split.
  - rewrite Htrace, spawned_split in Hsp.
    change (1 :: 0 :: spawned (w_trace w)) with ([1; 0] ++ spawned (w_trace w)) in Hsp.
    now apply app_inv_tail in Hsp.
  - exists (t_rec t0), (t_rec t1).
    assert (H0 : In (Ev_stats (description_of func) 0 (t_rec t0)) evs_rep)
      by (rewrite <- Hc0; apply Hin; now left).
    assert (H1 : In (Ev_stats (description_of func) 1 (t_rec t1)) evs_rep)
      by (rewrite <- Hc1; apply Hin; right; now left).
    split; [right; apply in_or_app; right; apply in_or_app; now left|].
    split; [right; apply in_or_app; right; apply in_or_app; now left|].
    split; assumption.
Qed.

End Full_run_facts.

(** ** A failed prefill *)

(** C7.  When [init_queue] fails in an enabled cross-CPU scenario (the
    allocator or the queue refused a prefill round): (1) the scenario
    spawns no worker; (2) the queue, which holds the payloads prefilled so
    far, is torn down: the real-payload scenario puts each of these pages,
    oldest first, the baseline releases nothing, and both free the slot
    array and the queue; (3) any scenario started in the world the failed
    one leaves runs from the allocation of its queue to the freeing of it;
    (4) [run_timing_tests] runs the three scenarios one after the other
    and returns 0 whatever their outcome; (5) a scenario started in the
    world the failed one leaves that is enabled and whose own
    [init_queue] succeeds runs its workers, whatever the loop count, the
    allocator and the schedule: they are spawned, on CPU 0 and on CPU 1,
    and each is reported in its role; (6) if moreover it has at least as
    many payloads prefilled as it has rounds, with room for as many more,
    and its memory is to be had, it runs in full under every schedule:
    each worker does all its rounds and is reported with the full
    count. *)
Theorem prefill_failure_contained (func : bench_func)
    (run_flags loops q_size prefill : Z) (w : world)
    (queue : ptr_ring) (w1 : world) :
  run_enabled run_flags (bit_of func) = true ->
  init_queue zeroed q_size prefill (fake_ptr_of func) (emit Ev_kzalloc_queue w)
    = (false, queue, w1) ->
  let w' := scenario func run_flags loops q_size prefill w in
  spawned (w_trace w') = spawned (w_trace w) /\
  (exists l, rep queue l /\
     w_trace w'
     = Ev_kfree_queue :: Ev_kfree_slots ::
       match func with
       | Time_cross_cpu_page_alloc_put => map Ev_put_page (rev l)
       | Time_cross_cpu_ptr_ring => []
       end ++ w_trace w1) /\
  (forall func' loops' q_size' prefill',
     run_enabled run_flags (bit_of func') = true ->
     exists evs,
       w_trace (scenario func' run_flags loops' q_size' prefill' w')
       = Ev_kfree_queue :: evs ++ Ev_kzalloc_queue :: w_trace w') /\
  (forall w0,
     run_timing_tests run_flags loops w0
     = (0, scenario Time_cross_cpu_page_alloc_put run_flags loops 32000 8000
             (scenario Time_cross_cpu_ptr_ring run_flags loops 32000 8000
                (run_bench_order0_compare run_flags loops w0)))) /\
  (forall func' loops' q_size' prefill',
     run_enabled run_flags (bit_of func') = true ->
     (init_queue zeroed q_size' prefill' (fake_ptr_of func')
        (emit Ev_kzalloc_queue w')).1.1 = true ->
     exists evs,
       w_trace (scenario func' run_flags loops' q_size' prefill' w')
       = evs ++ w_trace w' /\
       ran_workers func' evs) /\
  (forall func' loops' q_size' prefill',
     run_enabled run_flags (bit_of func') = true ->
     0 <= loops' < 2 ^ 31 -> loops' <= prefill' -> prefill' + loops' <= q_size' ->
     w_kmalloc_ok w' q_size' = true ->
     (func' = Time_cross_cpu_page_alloc_put -> alloc_never_fails w') ->
     exists evs,
       w_trace (scenario func' run_flags loops' q_size' prefill' w')
       = evs ++ w_trace w' /\
       ran_in_full func' loops' evs).
Proof.
  intros Hen Hinit w'. split; [|split; [|split; [|split; [|split]]]].
  - subst w'. rewrite scenario_spawned, Hinit, andb_false_r. reflexivity.
  - destruct (init_queue_rep q_size prefill (fake_ptr_of func) (emit Ev_kzalloc_queue w))
      as (l & Hrep).
    rewrite Hinit in Hrep. cbn [fst snd] in Hrep. exists l. split; [exact Hrep|].
    subst w'. rewrite scenario_unfold, Hen. unfold cross_cpu_body, cross_cpu_run.
    rewrite Hinit. destruct func; cbn [destroy_of].
    + apply teardown_no_destructor.
    + now apply teardown_put_page.
  - intros func' loops' q_size' prefill' Hen'. now apply scenario_runs.
  - reflexivity.
  - intros func' loops' q_size' prefill'. apply scenario_executes.
  - intros func' loops' q_size' prefill'. apply scenario_completes.
Qed.

Lemma prefill_failure_contained_witness :
  let w := mk_world [] (fun n => if (n <? 2)%nat then 4096 * (Z.of_nat n + 1) else NULL)
             0 (fun _ => true) 0 (fun n => n) 0 in
  let w' := scenario Time_cross_cpu_page_alloc_put 6 10 8 3 w in
  w_trace w'
  = [Ev_kfree_queue; Ev_kfree_slots; Ev_put_page 8192; Ev_put_page 4096;
     Ev_pr_err (Alloc_cannot_prefill 3 8);
     Ev_alloc_pages NULL; Ev_alloc_pages 8192; Ev_alloc_pages 4096;
     Ev_kzalloc_queue] /\
  exists evs,
    w_trace (scenario Time_cross_cpu_ptr_ring 6 2 8 3 w') = evs ++ w_trace w' /\
    ran_in_full Time_cross_cpu_ptr_ring 2 evs.
Proof.
  intros w w'.
  destruct (prefill_failure_contained Time_cross_cpu_page_alloc_put 6 10 8 3 w
              (mk_ptr_ring 2 0 8 [4096; 8192; NULL; NULL; NULL; NULL; NULL; NULL])
              (pr_err (Alloc_cannot_prefill 3 8)
                 (mk_world [Ev_alloc_pages NULL; Ev_alloc_pages 8192;
                            Ev_alloc_pages 4096; Ev_kzalloc_queue]
                    (w_alloc w) 3 (w_kmalloc_ok w) 0 (w_sched w) 0)))
    as (_ & (l & _ & H) & _ & _ & _ & Hnext).
  - reflexivity.
  - reflexivity.
  - split; [reflexivity|].
    apply (Hnext Time_cross_cpu_ptr_ring 2 8 3);
      [reflexivity | lia | lia | lia | reflexivity | discriminate].
Defined.

(** ** The release callback *)

(** With pages to be had the release callback does its work.  The
    baseline scenario never calls [put_page], neither in its workers nor
    at teardown, where it passes no destructor.  The real-payload scenario
    tears its queue down with [destructor_put_page]: the queue then holds
    a list of pages, and each of them is put exactly once, oldest first,
    before the slot array and the queue are freed. *)
Lemma release_callback_by_scenario (run_flags loops q_size prefill : Z)
    (w : world) :
  run_enabled run_flags bit_run_bench_cross_cpu_page_alloc_put = true ->
  alloc_never_fails w ->
  released (w_trace (run_bench_baseline_ptr_ring_cross_cpu
                       run_flags loops q_size prefill w))
  = released (w_trace w) /\
  let '(queue, w') :=
    cross_cpu_run cross_cpu_page_alloc_put Time_cross_cpu_page_alloc_put false
      loops q_size prefill w in
  exists l, rep queue l /\
    w_trace (run_bench_cross_cpu_page_alloc_put run_flags loops q_size prefill w)
    = Ev_kfree_queue :: Ev_kfree_slots :: map Ev_put_page (rev l) ++ w_trace w'.
Proof.
  intros Hen Hnn. split; [apply baseline_never_releases|].
  unfold run_bench_cross_cpu_page_alloc_put. rewrite Hen, body_unfold.
  destruct (cross_cpu_run_rep cross_cpu_page_alloc_put Time_cross_cpu_page_alloc_put
              false loops q_size prefill w (fun _ => Hnn)) as (l & Hrep).
  destruct (cross_cpu_run _ _ _ _ _ _ _) as [queue w']. cbn [fst snd] in *.
  exists l. split; [exact Hrep|]. now apply teardown_put_page.
Qed.


(** ** The run_flags gate *)

(** The single-CPU comparison, enabled and with pages to be had: the log
    gets every page allocated and put at once and then the report of a
    record with all rounds completed. *)
Lemma order0_runs (run_flags loops : Z) (w : world) :
  run_enabled run_flags bit_run_bench_order0_compare = true ->
  0 <= loops < 2 ^ 31 ->
  Forall (fun p => p <> NULL) (next_pages w (Z.to_nat loops)) ->
  w_trace (run_bench_order0_compare run_flags loops w)
  = Ev_stats single_cpu_page_alloc_put 0
      (mk_record loops 0 loops (Some (w_clock w)) (Some (w_clock w + 1)))
    :: alloc_put_log (next_pages w (Z.to_nat loops)) ++ w_trace w.
Proof.
  intros Hen Hl Hnn. unfold run_bench_order0_compare. rewrite Hen.
  unfold time_bench_loop, time_single_cpu_page_alloc_put, time_bench_start, read_clock.
  cbn [rec_loops]. rewrite single_cpu_loop_ok by exact Hnn.
  rewrite Z.add_0_l, Z2Nat.id by lia.
  rewrite to_int_small by lia. unfold to_u64. rewrite Z.mod_small by lia.
  unfold time_bench_stop, read_clock, print_stats.
  cbn [rec_invoked_cnt rec_loops w_trace w_clock]. rewrite Z.ltb_irrefl.
  reflexivity.
Qed.

(** C8.  Each scenario is gated by its own bit of [run_flags].  The
    scenario function hands back the world untouched (no queue, no worker,
    no output) if and only if its bit is clear.  With its bit set the
    scenario executes its benchmark: the single-CPU comparison, with a
    loop count below 2^31 and pages to be had, allocates and puts a page
    in each of its rounds and reports a record with all rounds completed;
    a cross-CPU scenario whose [init_queue] succeeds builds its queue,
    spawns its workers on CPU 0 and on CPU 1 and reports each in its
    role, whatever the loop count, the allocator and the schedule, and
    frees its queue; and if it gets its memory and has at least as many
    payloads prefilled as it has rounds, with room for as many more, then
    under every schedule each worker does all its rounds and is reported
    with the full count. *)
Theorem run_flags_gate (run_flags loops q_size prefill : Z) (w : world) :
  (run_bench_order0_compare run_flags loops w = w
     <-> Z.testbit run_flags 0 = false) /\
  (run_bench_baseline_ptr_ring_cross_cpu run_flags loops q_size prefill w = w
     <-> Z.testbit run_flags 1 = false) /\
  (run_bench_cross_cpu_page_alloc_put run_flags loops q_size prefill w = w
     <-> Z.testbit run_flags 2 = false) /\
  (Z.testbit run_flags 0 = true ->
   0 <= loops < 2 ^ 31 ->
   Forall (fun p => p <> NULL) (next_pages w (Z.to_nat loops)) ->
   w_trace (run_bench_order0_compare run_flags loops w)
   = Ev_stats single_cpu_page_alloc_put 0
       (mk_record loops 0 loops (Some (w_clock w)) (Some (w_clock w + 1)))
     :: alloc_put_log (next_pages w (Z.to_nat loops)) ++ w_trace w) /\
  (forall func,
     Z.testbit run_flags (bit_of func) = true ->
     (init_queue zeroed q_size prefill (fake_ptr_of func)
        (emit Ev_kzalloc_queue w)).1.1 = true ->
     exists evs,
       w_trace (scenario func run_flags loops q_size prefill w)
       = Ev_kfree_queue :: evs ++ Ev_kzalloc_queue :: w_trace w /\
       ran_workers func (Ev_kfree_queue :: evs ++ [Ev_kzalloc_queue])) /\
  (forall func,
     Z.testbit run_flags (bit_of func) = true ->
     0 <= loops < 2 ^ 31 -> loops <= prefill -> prefill + loops <= q_size ->
     w_kmalloc_ok w q_size = true ->
     (func = Time_cross_cpu_page_alloc_put -> alloc_never_fails w) ->
     exists evs,
       w_trace (scenario func run_flags loops q_size prefill w)
       = Ev_kfree_queue :: evs ++ Ev_kzalloc_queue :: w_trace w /\
       ran_in_full func loops (Ev_kfree_queue :: evs ++ [Ev_kzalloc_queue])).
Proof.
  assert (Hbit_en : forall func, Z.testbit run_flags (bit_of func) = true ->
            run_enabled run_flags (bit_of func) = true).
  { intros func Hbit. rewrite run_enabled_testbit; [exact Hbit|].
    destruct func; unfold bit_of, bit_run_bench_ptr_ring_baseline,
      bit_run_bench_cross_cpu_page_alloc_put; lia. }
  split; [|split; [|split; [|split; [|split]]]].
  - unfold run_bench_order0_compare, bit_run_bench_order0_compare.
    rewrite run_enabled_testbit by lia.
    destruct (Z.testbit run_flags 0); split; try easy.
    intros H. exfalso.
    destruct (time_bench_loop_reports loops 0 single_cpu_page_alloc_put w)
      as (e & evs & Ht).
    exact (longer_trace_differs _ _ _ _ Ht H).
  - pose proof (scenario_runs Time_cross_cpu_ptr_ring run_flags loops q_size prefill w)
      as Hr.
    cbn [scenario bit_of] in Hr.
    unfold run_bench_baseline_ptr_ring_cross_cpu in *.
    unfold bit_run_bench_ptr_ring_baseline in *.
    rewrite run_enabled_testbit in * by lia.
    destruct (Z.testbit run_flags 1); split; try easy.
    intros H. exfalso. destruct (Hr eq_refl) as (evs & Ht).
    change (Ev_kzalloc_queue :: w_trace w) with ([Ev_kzalloc_queue] ++ w_trace w) in Ht.
    rewrite app_assoc in Ht.
    exact (longer_trace_differs _ _ _ _ Ht H).
  - pose proof (scenario_runs Time_cross_cpu_page_alloc_put run_flags loops
                  q_size prefill w) as Hr.
    cbn [scenario bit_of] in Hr.
    unfold run_bench_cross_cpu_page_alloc_put in *.
    unfold bit_run_bench_cross_cpu_page_alloc_put in *.
    rewrite run_enabled_testbit in * by lia.
    destruct (Z.testbit run_flags 2); split; try easy.
    intros H. exfalso. destruct (Hr eq_refl) as (evs & Ht).
    change (Ev_kzalloc_queue :: w_trace w) with ([Ev_kzalloc_queue] ++ w_trace w) in Ht.
    rewrite app_assoc in Ht.
    exact (longer_trace_differs _ _ _ _ Ht H).
  - intros Hbit. apply order0_runs.
    unfold bit_run_bench_order0_compare. now rewrite run_enabled_testbit by lia.
  - intros func Hbit Hok. pose proof (Hbit_en func Hbit) as Hen.
    destruct (scenario_executes func run_flags loops q_size prefill w Hen Hok)
      as (evs & Ht & Hran).
    destruct (scenario_runs func run_flags loops q_size prefill w Hen) as (evs' & Ht').
    exists evs'. split; [exact Ht'|].
    assert (E : evs = Ev_kfree_queue :: evs' ++ [Ev_kzalloc_queue]).
    { apply (app_inv_tail (w_trace w)). rewrite <- Ht, Ht'.
      cbn [app]. now rewrite <- app_assoc. }
    now rewrite <- E.
  - intros func Hbit Hl Hpre Hroom Hk Hnn. pose proof (Hbit_en func Hbit) as Hen.
    destruct (scenario_completes func run_flags loops q_size prefill w
                Hen Hl Hpre Hroom Hk Hnn) as (evs & Ht & Hfull).
    destruct (scenario_runs func run_flags loops q_size prefill w Hen) as (evs' & Ht').
    exists evs'. split; [exact Ht'|].
    assert (E : evs = Ev_kfree_queue :: evs' ++ [Ev_kzalloc_queue]).
    { apply (app_inv_tail (w_trace w)). rewrite <- Ht, Ht'.
      cbn [app]. now rewrite <- app_assoc. }
    now rewrite <- E.
Qed.

Lemma run_flags_gate_witness :
  w_trace (run_bench_order0_compare 5 2 example_world)
  = [Ev_stats single_cpu_page_alloc_put 0 (mk_record 2 0 2 (Some 0) (Some 1));
     Ev_put_page 8192; Ev_alloc_pages 8192; Ev_put_page 4096; Ev_alloc_pages 4096] /\
  exists evs,
    w_trace (scenario Time_cross_cpu_page_alloc_put 5 2 4 2 example_world)
    = Ev_kfree_queue :: evs ++ Ev_kzalloc_queue :: w_trace example_world /\
    ran_in_full Time_cross_cpu_page_alloc_put 2
      (Ev_kfree_queue :: evs ++ [Ev_kzalloc_queue]).
Proof.
  destruct (run_flags_gate 5 2 4 2 example_world)
    as (_ & _ & _ & Horder0 & _ & Hcross).
  split.
  - apply Horder0; [reflexivity | lia | repeat constructor; discriminate].
  - apply (Hcross Time_cross_cpu_page_alloc_put);
      [reflexivity | lia | lia | lia | reflexivity |].
    intros _ n. unfold example_world, NULL. cbn. lia.
Defined.

(** ** The page that is left *)

Section Page_left_facts.

Implicit Types (w : world) (t : task) (l : list ptr) (queue : ptr_ring).












End Page_left_facts.



(** * The user-space side of XDP test01 *)

Section Xdp_facts.

Import Ascii String Xdp.

Implicit Types (s : string) (c : ascii).

(** A C string proper: no NUL before its end. *)
Lemma byte_of_inj c1 c2 : byte_of c1 = byte_of c2 -> c1 = c2.
Proof.
  unfold byte_of. intros H. apply N2Z.inj in H.
  rewrite <- (ascii_N_embedding c1), <- (ascii_N_embedding c2). now rewrite H.
Qed.

Lemma byte_of_range c : 0 <= byte_of c < 256.
Proof.
  unfold byte_of. pose proof (N_ascii_bounded c) as H. lia.
Qed.

(** Comparing over the length of a name is testing for that prefix. *)
Lemma strncmp_prefix name : forall s,
  strnlen name (String.length name) = String.length name ->
  strncmp name s (String.length name) = 0 <-> prefix name s = true.
Proof.
  induction name as [|c name IH]; intros s Hlen; [now destruct s|].
  cbn [String.length strnlen strncmp head tail prefix] in *.
  destruct (Z.eqb_spec (byte_of c) 0) as [E0|E0]; [discriminate|].
  injection Hlen as Hlen.
  destruct s as [|d s]; cbn [head tail prefix].
  - destruct (Z.eqb_spec (byte_of c) 0); [contradiction|]. split; [lia|discriminate].
  - destruct (Z.eqb_spec (byte_of c) (byte_of d)) as [E|E].
    + apply byte_of_inj in E as <-.
      destruct (ascii_dec c c); [|contradiction]. now apply IH.
    + destruct (ascii_dec c d) as [->|]; [contradiction|]. split; [lia|discriminate].
Qed.

Lemma prefix_comparable a : forall b s,
  prefix a s = true -> prefix b s = true -> prefix a b = true \/ prefix b a = true.
Proof.
  induction a as [|c a IH]; intros b s Ha Hb; [left; now destruct b|].
  destruct b as [|d b]; [now right|].
  destruct s as [|e s]; [discriminate|].
  cbn [prefix] in *.
  destruct (ascii_dec c e) as [->|]; [|discriminate].
  destruct (ascii_dec d e) as [->|]; [|discriminate].
  destruct (ascii_dec e e); [|contradiction]. now apply (IH b s).
Qed.

Lemma prefix_append a : forall rest, prefix a (a ++ rest)%string = true.
Proof.
  induction a as [|c a IH]; intros rest; [now destruct rest|].
  cbn [append prefix]. destruct (ascii_dec c c); [apply IH|contradiction].
Qed.

(** Two different names never both start a string. *)
Lemma names_exclusive (i j : Z) s :
  0 <= i < XDP_ACTION_MAX -> 0 <= j < XDP_ACTION_MAX ->
  prefix (name_at i) s = true -> prefix (name_at j) s = true -> i = j.
Proof.
  intros Hi Hj Ha Hb. destruct (prefix_comparable _ _ _ Ha Hb) as [H|H];
    assert (Hc : (i = 0 \/ i = 1 \/ i = 2 \/ i = 3) /\ (j = 0 \/ j = 1 \/ j = 2 \/ j = 3))
      by (unfold XDP_ACTION_MAX, XDP_TX in *; lia);
    destruct Hc as [[->|[->|[->| ->]]] [->|[->|[->| ->]]]];
    try reflexivity; discriminate H.
Qed.

(** The loop of [parse_xdp_action], test by test. *)
Lemma parse_cases s :
  parse_xdp_action s
  = if prefix (name_at 0) s then 0
    else if prefix (name_at 1) s then 1
    else if prefix (name_at 2) s then 2
    else if prefix (name_at 3) s then 3
    else -1.
Proof.
  assert (Htest : forall i, 0 <= i < XDP_ACTION_MAX ->
            (strncmp (name_at i) s (strnlen (name_at i) XDP_ACTION_MAX_STRLEN) =? 0)
            = prefix (name_at i) s).
  { intros i Hi.
    assert (Hlen : strnlen (name_at i) XDP_ACTION_MAX_STRLEN = String.length (name_at i)
                   /\ strnlen (name_at i) (String.length (name_at i))
                      = String.length (name_at i)).
    { assert (Hc : i = 0 \/ i = 1 \/ i = 2 \/ i = 3)
        by (unfold XDP_ACTION_MAX, XDP_TX in *; lia).
      destruct Hc as [->|[->|[->| ->]]]; split; reflexivity. }
    destruct Hlen as [-> Hlen].
    pose proof (strncmp_prefix (name_at i) s Hlen) as Hp.
    destruct (Z.eqb_spec (strncmp (name_at i) s (String.length (name_at i))) 0) as [E|E];
      destruct (prefix (name_at i) s); try reflexivity.
    - apply Hp in E. discriminate.
    - exfalso. apply E, Hp. reflexivity. }
  unfold parse_xdp_action.
  change (Z.to_nat XDP_ACTION_MAX) with 4%nat. cbn [parse_loop].
  change (0 + 1) with 1. change (1 + 1) with 2. change (2 + 1) with 3.
  rewrite !Htest by (unfold XDP_ACTION_MAX, XDP_TX; lia).
  destruct (prefix (name_at 0) s); [reflexivity|].
  destruct (prefix (name_at 1) s); [reflexivity|].
  destruct (prefix (name_at 2) s); [reflexivity|].
  destruct (prefix (name_at 3) s); reflexivity.
Qed.

(** The action found is the one whose name starts the string. *)
Lemma parse_spec s (i : Z) :
  0 <= i < XDP_ACTION_MAX ->
  parse_xdp_action s = i <-> prefix (name_at i) s = true.
Proof.
  intros Hi. rewrite parse_cases.
  pose proof (fun j Hj => names_exclusive i j s Hi Hj) as Hex.
  assert (H4 : 0 <= 0 < XDP_ACTION_MAX /\ 0 <= 1 < XDP_ACTION_MAX /\
               0 <= 2 < XDP_ACTION_MAX /\ 0 <= 3 < XDP_ACTION_MAX)
    by (unfold XDP_ACTION_MAX, XDP_TX; lia).
  destruct H4 as (H0 & H1 & H2 & H3).
  destruct (prefix (name_at 0) s) eqn:E0.
  { split; [now intros <-|]. intros H. symmetry. now apply (Hex 0 H0). }
  destruct (prefix (name_at 1) s) eqn:E1.
  { split; [now intros <-|]. intros H. symmetry. now apply (Hex 1 H1). }
  destruct (prefix (name_at 2) s) eqn:E2.
  { split; [now intros <-|]. intros H. symmetry. now apply (Hex 2 H2). }
  destruct (prefix (name_at 3) s) eqn:E3.
  { split; [now intros <-|]. intros H. symmetry. now apply (Hex 3 H3). }
  split; [lia|]. intros H. exfalso.
  assert (Hc : i = 0 \/ i = 1 \/ i = 2 \/ i = 3)
    by (unfold XDP_ACTION_MAX, XDP_TX in *; lia).
  destruct Hc as [->|[->|[->| ->]]]; congruence.
Qed.

Lemma parse_range s : -1 <= parse_xdp_action s < XDP_ACTION_MAX.
Proof.
  rewrite parse_cases. unfold XDP_ACTION_MAX, XDP_TX.
  repeat (destruct (prefix _ s); [lia|]). lia.
Qed.

Lemma parse_none s :
  parse_xdp_action s = -1
  <-> Forall (fun name => prefix name s = false) xdp_action_names.
Proof.
  rewrite parse_cases. unfold xdp_action_names.
  change (name_at 0) with "XDP_ABORTED"%string.
  change (name_at 1) with "XDP_DROP"%string.
  change (name_at 2) with "XDP_PASS"%string.
  change (name_at 3) with "XDP_TX"%string.
  split.
  - destruct (prefix "XDP_ABORTED" s) eqn:E0; [discriminate|].
    destruct (prefix "XDP_DROP" s) eqn:E1; [discriminate|].
    destruct (prefix "XDP_PASS" s) eqn:E2; [discriminate|].
    destruct (prefix "XDP_TX" s) eqn:E3; [discriminate|].
    intros _. repeat constructor; assumption.
  - intros H.
    inversion H as [|? ? E0 H1]; subst. inversion H1 as [|? ? E1 H2]; subst.
    inversion H2 as [|? ? E2 H3]; subst. inversion H3 as [|? ? E3 _]; subst.
    now rewrite E0, E1, E2, E3.
Qed.

(** The sum kept in 64 bits round by round is the sum of all counters,
    taken modulo 2^64 once. *)
Lemma sum_loop values : forall acc,
  0 <= acc < 2 ^ 64 ->
  foldl (fun sum v => to_u64 (sum + v)) acc values = (acc + total values) mod 2 ^ 64.
Proof.
  induction values as [|v values IH]; intros acc Hacc; cbn [foldl total foldr].
  - rewrite Z.add_0_r, Z.mod_small; lia.
  - rewrite IH by (unfold to_u64; apply Z.mod_pos_bound; lia).
    unfold to_u64. fold (total values).
    rewrite Z.add_mod_idemp_l by lia. f_equal. lia.
Qed.

Lemma total_permutation values values' :
  Permutation values values' -> total values = total values'.
Proof.
  induction 1 as [|v l l' _ IH|v v' l|l l' l'' _ IH1 _ IH2]; cbn [total foldr].
  - reflexivity.
  - fold (total l) (total l'). lia.
  - lia.
  - congruence.
Qed.

Lemma stats_collect_total values record :
  stats_collect (Some values) record
  = (true, mk_stats_record (<[0%nat := total values mod 2 ^ 64]> (sr_data record))
             (sr_action record)).
Proof. unfold stats_collect. rewrite sum_loop by lia. reflexivity. Qed.

(** X9.  [parse_xdp_action] accepts a string by its prefix: it returns
    the action [i] exactly when the name of [i] starts the string,
    whatever follows the name, and -1 exactly when the string starts
    with none of the four names; there is no other result. *)
Theorem parse_xdp_action_prefix (action_str : string) (i : Z) :
  (0 <= i /\ parse_xdp_action action_str = i
   <-> 0 <= i < XDP_ACTION_MAX /\
       prefix (name_at i) action_str = true) /\
  (parse_xdp_action action_str = -1
   <-> Forall (fun name => prefix name action_str = false)
         xdp_action_names) /\
  -1 <= parse_xdp_action action_str < XDP_ACTION_MAX.
Proof.
  pose proof (parse_range action_str) as Hr.
  split; [|split; [apply parse_none|exact Hr]].
  split.
  - intros [Hi E]. assert (Hi' : 0 <= i < XDP_ACTION_MAX) by lia.
    split; [exact Hi'|]. now apply parse_spec.
  - intros [Hi Hp]. split; [lia|]. now apply parse_spec.
Qed.

(** X10.  Round trip: for every action below [XDP_ACTION_MAX],
    [action2str] gives a name that [parse_xdp_action] takes back to the
    action, also with further characters after the name. *)
Theorem action_name_round_trip (action : Z) (rest : string) :
  0 <= action < XDP_ACTION_MAX ->
  exists name,
    action2str action = Str name /\
    parse_xdp_action (name ++ rest)%string = action.
Proof.
  intros Ha. exists (name_at action). split.
  - unfold action2str.
    destruct (Z.ltb_spec action XDP_ACTION_MAX); [|lia].
    destruct (Z.ltb_spec action 0); [lia|reflexivity].
  - apply parse_spec; [exact Ha|apply prefix_append].
Qed.

Lemma action_name_round_trip_witness :
  exists name,
    action2str 2 = Str name /\
    parse_xdp_action (name ++ "_and_more")%string = 2.
Proof.
  apply (action_name_round_trip 2 "_and_more"%string). unfold XDP_ACTION_MAX, XDP_TX. lia.
Defined.

(** X11.  [stats_collect] stores in [data[0]] the sum of the counters of
    all possible CPUs modulo 2^64 and leaves the action of the record
    alone, in whatever order the CPUs are listed; when the lookup fails it
    returns false and leaves the record as it was. *)
Theorem stats_collect_sums (lookup : option (list Z)) (record : stats_record) :
  stats_collect lookup record
  = match lookup with
    | None => (false, record)
    | Some values =>
        (true, mk_stats_record (<[0%nat := total values mod 2 ^ 64]> (sr_data record))
                 (sr_action record))
    end /\
  forall values values',
    Permutation values values' ->
    stats_collect (Some values) record = stats_collect (Some values') record.
Proof.
  split.
  - destruct lookup as [values|]; [apply stats_collect_total|reflexivity].
  - intros values values' Hp.
    now rewrite !stats_collect_total, (total_permutation _ _ Hp).
Qed.

(** X12.  One round of [stats_poll] with the lookup succeeding, for every
    [int interval]: with interval 0 the round divides by zero; with a
    positive interval it prints the number of packets counted since the
    previous round (the difference of the two counts in 64 bits, right
    also across a wrap of the counter) divided by the interval and
    rounded down; with a negative interval, which the division reads as a
    number above 2^63, it prints 0 or 1.  The count becomes the next
    [prev]. *)
Theorem stats_poll_round_rate (interval : Z) (values : list Z)
    (prev data0 action : Z) :
  - 2 ^ 31 <= interval < 2 ^ 31 ->
  let count := total values mod 2 ^ 64 in
  let delta := (count - prev) mod 2 ^ 64 in
  let round := stats_poll_round interval (Some values) prev
                 (mk_stats_record [data0] action) in
  if interval =? 0 then round = Poll_div_by_zero
  else
    exists pps,
      round = Poll_line (action2str (to_int action)) pps count
                (mk_stats_record [count] action) /\
      if 0 <? interval then pps * interval <= delta < (pps + 1) * interval
      else 0 <= pps <= 1.
Proof.
  intros Hi. cbv zeta. unfold stats_poll_round.
  rewrite stats_collect_total. cbn [negb sr_data sr_action nth].
  change (<[0%nat := total values mod 2 ^ 64]> [data0])
    with [total values mod 2 ^ 64]. cbn [nth].
  unfold to_u64.
  set (count := total values mod 2 ^ 64).
  set (delta := (count - prev) mod 2 ^ 64).
  assert (Hd : 0 <= delta < 2 ^ 64) by (apply Z.mod_pos_bound; lia).
  destruct (Z.eqb_spec interval 0) as [->|Hnz]; [reflexivity|].
  destruct (Z.ltb_spec 0 interval) as [Hpos|Hneg].
  - rewrite (Z.mod_small interval) by lia.
    destruct (Z.eqb_spec interval 0); [lia|].
    eexists. split; [reflexivity|].
    pose proof (Z.div_mod delta interval ltac:(lia)) as Hdm.
    pose proof (Z.mod_pos_bound delta interval Hpos) as Hm. nia.
  - assert (Hu : interval mod 2 ^ 64 = interval + 2 ^ 64).
    { symmetry. apply (Z.mod_unique _ _ (-1)); lia. }
    rewrite Hu. destruct (Z.eqb_spec (interval + 2 ^ 64) 0); [lia|].
    eexists. split; [reflexivity|]. split.
    + apply Z.div_pos; lia.
    + apply Z.lt_succ_r. apply Z.div_lt_upper_bound; lia.
Qed.

Lemma stats_poll_round_rate_witness :
  exists pps,
    stats_poll_round 2 (Some [10; 2 ^ 64 - 3]) (2 ^ 64 - 4) (mk_stats_record [0] 1)
    = Poll_line (Str "XDP_DROP") pps 7 (mk_stats_record [7] 1) /\
    pps * 2 <= 11 < (pps + 1) * 2.
Proof.
  apply (stats_poll_round_rate 2 [10; 2 ^ 64 - 3] (2 ^ 64 - 4) 0 1). lia.
Defined.

End Xdp_facts.
